(** * ninja: build log, line scanner and deplist helper

    A shallow embedding of [src/build_log.cc] (the SSE2 line scanner
    [memchrSSE2] and the [BuildLog] operations), of the option handling
    and output stage of [src/deplist_helper.cc], and of the [TestEnv] of
    [ninja_test.cc], together with the properties the specification states
    about them and further properties that the code itself shows.

    Conventions.
    - A [char] is an [ascii]; a [std::string] is a [list ascii]
      ([bytes]); a C string is read from memory up to its first NUL.
    - Pointers, [size_t] and [ptrdiff_t] values are [Z]; the null pointer
      returned by a search is [None].
    - [int] is 32 bits and [long] is 64 bits; conversions are written out
      with [wrap_int32] and [clamp_long].
    - Memory is a total map from addresses to bytes.  The stack buffer
      [buf] of [BuildLog::Load] lives at address [buf] in it. *)

From Stdlib Require Import ZArith Lia Ascii String List Bool FunctionalExtensionality.
From stdpp Require Import base option gmap strings list.
Import ListNotations.
Open Scope Z_scope.

(** ** Bytes and strings *)

Abbreviation bytes := (list ascii).

Definition NUL : ascii := "000"%char.
Definition TAB : ascii := "009"%char.
Definition NL : ascii := "010"%char.
Definition SP : ascii := " "%char.

(** String literals of the source, as byte lists. *)
Definition lit (s : string) : bytes := list_ascii_of_string s.

(** [(char)c] for an [int c]. *)
Definition char_of_int (c : Z) : ascii := ascii_of_N (Z.to_N (c mod 256)).
Definition int_of_char (c : ascii) : Z := Z.of_N (N_of_ascii c).

(** [s.c_str()] as seen by [%s]: the bytes before the first NUL. *)
Fixpoint c_str (s : bytes) : bytes :=
  match s with
  | [] => []
  | c :: s' => if Ascii.eqb c NUL then [] else c :: c_str s'
  end.

(** ** Machine integers *)

Definition wrap_int32 (z : Z) : Z := (z + 2 ^ 31) mod 2 ^ 32 - 2 ^ 31.
Definition LONG_MAX : Z := 2 ^ 63 - 1.
Definition LONG_MIN : Z := - 2 ^ 63.
Definition clamp_long (z : Z) : Z := Z.max LONG_MIN (Z.min LONG_MAX z).
Definition is_int (z : Z) : Prop := - 2 ^ 31 <= z < 2 ^ 31.

(** Modelled from the spec: [TimeStamp] (timestamp.h is not in src/) is a
    signed 64-bit integer, "restat_mtime is decimal int64" (section 6);
    it has the range of [long], so the cast to [long] in [WriteEntry] and
    the assignment of [atol]'s result in [Load] change nothing. *)
Definition is_long (z : Z) : Prop := LONG_MIN <= z <= LONG_MAX.

(** ** Memory *)

Definition memory := Z -> ascii.

Definition store (m : memory) (a : Z) (v : ascii) : memory :=
  fun x => if x =? a then v else m x.

(** The [n] bytes at [a .. a+n). *)
Fixpoint load_bytes (m : memory) (a : Z) (n : nat) : bytes :=
  match n with
  | O => []
  | S n' => m a :: load_bytes m (a + 1) n'
  end.

(** Copy [data] to [a ..] (the effect of [fread] on its buffer). *)
Definition store_bytes (m : memory) (a : Z) (data : bytes) : memory :=
  fun x =>
    if (a <=? x) && (x <? a + Z.of_nat (length data))
    then nth (Z.to_nat (x - a)) data NUL
    else m x.

(** [memmove(dst, src, n)]: the source bytes are read before any is
    written. *)
Definition memmove (m : memory) (dst src n : Z) : memory :=
  store_bytes m dst (load_bytes m src (Z.to_nat n)).

(** ** C library string functions, reading memory

    [strchr], [atoi], [atol] and [sscanf] read a NUL-terminated string.
    [Load] applies them to a buffer that carries no terminator, so a scan
    may leave the line it was started on; the scans are given the number
    of bytes up to the end of the array as [fuel], and a scan that reaches
    the end of the array finds nothing. *)

Fixpoint strchr (fuel : nat) (m : memory) (s : Z) (c : ascii) : option Z :=
  match fuel with
  | O => None
  | S fuel' =>
      if Ascii.eqb (m s) c then Some s
      else if Ascii.eqb (m s) NUL then None
      else strchr fuel' m (s + 1) c
  end.

(** The C string at [s]: the bytes before the first NUL. *)
Fixpoint cstring (fuel : nat) (m : memory) (s : Z) : bytes :=
  match fuel with
  | O => []
  | S fuel' =>
      if Ascii.eqb (m s) NUL then [] else m s :: cstring fuel' m (s + 1)
  end.

Definition isspace (c : ascii) : bool :=
  let n := int_of_char c in (n =? 32) || ((9 <=? n) && (n <=? 13)).

Definition isdigit (c : ascii) : bool :=
  let n := int_of_char c in (48 <=? n) && (n <=? 57).

Definition digit_val (c : ascii) : Z := int_of_char c - 48.

Fixpoint skip_space (s : bytes) : bytes :=
  match s with
  | c :: s' => if isspace c then skip_space s' else s
  | [] => []
  end.

(** Value of the leading run of decimal digits, and the rest. *)
Fixpoint scan_digits (acc : Z) (s : bytes) : Z * bytes :=
  match s with
  | c :: s' => if isdigit c then scan_digits (10 * acc + digit_val c) s' else (acc, s)
  | [] => (acc, [])
  end.

(** [strtol(s, &end, 10)]: optional white space, optional sign, digits;
    [None] when no digit follows (no conversion); the value saturates at
    the range of [long]. *)
Definition strtol10 (s : bytes) : option (Z * bytes) :=
  let s1 := skip_space s in
  let '(neg, s2) :=
    match s1 with
    | c :: s' =>
        if Ascii.eqb c "-" then (true, s')
        else if Ascii.eqb c "+" then (false, s')
        else (false, s1)
    | [] => (false, s1)
    end in
  match s2 with
  | c :: _ =>
      if isdigit c then
        let '(v, rest) := scan_digits 0 s2 in
        Some (clamp_long (if neg then - v else v), rest)
      else None
  | [] => None
  end.

Definition atol (s : bytes) : Z :=
  match strtol10 s with Some (v, _) => v | None => 0 end.

Definition atoi (s : bytes) : Z := wrap_int32 (atol s).

(** ** Formatted output: [%d] and [%ld] *)

Definition digit_char (d : Z) : ascii := ascii_of_N (Z.to_N (48 + d)).

(** Decimal digits of a non-negative number, most significant first. *)
Fixpoint dec_digits (fuel : nat) (n : Z) (acc : bytes) : bytes :=
  match fuel with
  | O => acc
  | S fuel' =>
      let acc' := digit_char (n mod 10) :: acc in
      if n / 10 =? 0 then acc' else dec_digits fuel' (n / 10) acc'
  end.

Definition fmt_d (z : Z) : bytes :=
  let a := Z.abs z in
  let ds := dec_digits (S (Z.to_nat (Z.log2 a))) a [] in
  if z <? 0 then "-"%char :: ds else ds.

(** ** SSE2 intrinsics

    A [__m128i] is its 16 byte lanes, lane 0 (lowest address) first. *)

Definition m128i := list ascii.

Definition load128 (m : memory) (a : Z) : m128i := load_bytes m a 16.

Definition _mm_set1_epi8 (c : ascii) : m128i := repeat c 16.

Definition _mm_cmpeq_epi8 (a b : m128i) : m128i :=
  zip_with (fun x y => if Ascii.eqb x y then "255"%char else "000"%char) a b.

Definition msb (c : ascii) : bool :=
  match c with Ascii _ _ _ _ _ _ _ b7 => b7 end.

(** Bit [i] of the result is the top bit of lane [i]. *)
Fixpoint _mm_movemask_epi8 (a : m128i) : Z :=
  match a with
  | [] => 0
  | c :: a' => Z.b2z (msb c) + 2 * _mm_movemask_epi8 a'
  end.

Fixpoint ctz_pos (p : positive) : Z :=
  match p with
  | xO p' => 1 + ctz_pos p'
  | _ => 0
  end.

Definition __builtin_ctz (val : Z) : Z :=
  match val with
  | Zpos p => ctz_pos p
  | _ => 0
  end.

(** [inline unsigned CountTrailingZeros_32(uint32_t val)]. *)
Definition CountTrailingZeros_32 (val : Z) : Z :=
  let val := val mod 2 ^ 32 in
  if val =? 0 then 32 else __builtin_ctz val.

(** ** [memchrSSE2]

    The result is [None] when the [for (;;)] loop has not returned within
    [fuel] rounds, and otherwise the memory on return together with the
    returned pointer. *)

Fixpoint memchrSSE2_loop (fuel : nat) (m : memory) (needle16 : m128i)
    (str start n : Z) (old : ascii) : option (memory * option Z) :=
  match fuel with
  | O => None
  | S fuel' =>
      let str16 := load128 m str in
      let hits16 := _mm_cmpeq_epi8 str16 needle16 in
      let hit_mask := _mm_movemask_epi8 hits16 in
      if negb (hit_mask =? 0) then
        let m := store m (start + n) old in
        let r := str + CountTrailingZeros_32 hit_mask in
        Some (m, if r <? start + n then Some r else None)
      else memchrSSE2_loop fuel' m needle16 (str + 16) start n old
  end.

Definition memchrSSE2_fuel (fuel : nat) (m : memory) (str : Z) (c : Z) (n : Z)
  : option (memory * option Z) :=
  (* Write c as sentinel value after string. *)
  let start := str in
  let old := m (start + n) in
  let m := store m (start + n) (char_of_int c) in
  let needle16 := _mm_set1_epi8 (char_of_int c) in
  (* Handle unaligned start. *)
  let str_as_int := str in
  let n_unaligned := Z.land str_as_int 15 in
  if 0 <? n_unaligned then
    let str16 := load128 m (Z.land str_as_int (Z.lnot 15)) in
    let hits16 := _mm_cmpeq_epi8 str16 needle16 in
    let hit_mask := _mm_movemask_epi8 hits16 in
    let hit_mask := Z.land hit_mask (Z.shiftl 4294967295 n_unaligned mod 2 ^ 32) in
    if negb (hit_mask =? 0) then
      let m := store m (start + n) old in
      let r := str + CountTrailingZeros_32 hit_mask in
      Some (m, if r <? start + n then Some r else None)
    else
      memchrSSE2_loop fuel m needle16 (str + (16 - n_unaligned)) start n old
  else
    memchrSSE2_loop fuel m needle16 str start n old.

(** Every 16-byte round either returns or moves [str] 16 bytes closer to
    the sentinel at [start + n], so [n / 16 + 2] rounds are enough (see
    [memchrSSE2_terminates]). *)
Definition memchrSSE2 (m : memory) (str : Z) (c : Z) (n : Z)
  : option (memory * option Z) :=
  memchrSSE2_fuel (Z.to_nat (n / 16) + 2) m str c n.

(** The standard [memchr(str, c, n)]: the first of the [n] bytes at [str]
    equal to [(unsigned char)c]. *)
Fixpoint memchr_from (m : memory) (str : Z) (c : ascii) (n : nat) : option Z :=
  match n with
  | O => None
  | S n' => if Ascii.eqb (m str) c then Some str else memchr_from m (str + 1) c n'
  end.

Definition memchr (m : memory) (str : Z) (c : Z) (n : Z) : option Z :=
  memchr_from m str (char_of_int c) (Z.to_nat n).

(** ** The build log: data *)

(** [BuildLog::LogEntry], with the fields that build_log.cc reads and
    writes. *)
Record LogEntry := mkLogEntry {
  output : bytes;
  command : bytes;
  start_time : Z;
  end_time : Z;
  restat_mtime : Z
}.

(** [BuildLog::Log]: the map from output path to its entry. *)
Abbreviation Log := (gmap bytes LogEntry).

(** The field of [BuildConfig] that build_log.cc reads. *)
Record BuildConfig := mkBuildConfig { dry_run : bool }.

(** The fields of [BuildLog].  An open [FILE*] is the path it was opened
    on, in append mode; [None] is [NULL]. *)
Record BuildLog := mkBuildLog {
  log_ : Log;
  log_file_ : option bytes;
  config_ : option BuildConfig;
  needs_recompaction_ : bool
}.

(** [BuildLog::BuildLog()]. *)
Definition BuildLog_new : BuildLog :=
  {| log_ := ∅; log_file_ := None; config_ := None; needs_recompaction_ := false |}.

Definition set_config (bl : BuildLog) (c : BuildConfig) : BuildLog :=
  {| log_ := log_ bl; log_file_ := log_file_ bl; config_ := Some c;
     needs_recompaction_ := needs_recompaction_ bl |}.

(** ** The file system

    [files] maps each existing path to the contents of its file; an
    [fopen] of a path in [denied] fails with [EACCES]; [stdout] is what
    has been printed.  Writes to an open file take effect at once.  The
    source acts on the result of one write only, the signature that
    [OpenForWrite] prints on its line-buffered stream: that write fails
    with [ENOSPC] on a path in [unwritable].  Every other write goes to a
    stream whose result the source does not look at, or is only copied
    to the buffer of a fully buffered stream, and is taken to succeed. *)

Inductive Errno := ENOENT | EACCES | ENOSPC.

Record World := mkWorld {
  files : gmap bytes bytes;
  denied : gset bytes;
  unwritable : gset bytes;
  stdout : bytes
}.

Definition set_files (w : World) (fs : gmap bytes bytes) : World :=
  {| files := fs; denied := denied w; unwritable := unwritable w; stdout := stdout w |}.

Definition printf (w : World) (s : bytes) : World :=
  {| files := files w; denied := denied w; unwritable := unwritable w;
     stdout := stdout w ++ s |}.

(** [fopen(path, "r")]: the contents to be read. *)
Definition fopen_r (w : World) (path : bytes) : Errno + bytes :=
  if decide (path ∈ denied w) then inl EACCES
  else match files w !! path with
       | Some content => inr content
       | None => inl ENOENT
       end.

(** [fopen(path, "ab")]: creates the file when it is missing. *)
Definition fopen_a (w : World) (path : bytes) : Errno + World :=
  if decide (path ∈ denied w) then inl EACCES
  else match files w !! path with
       | Some _ => inr w
       | None => inr (set_files w (<[path := []]> (files w)))
       end.

(** [fopen(path, "wb")]: creates or truncates. *)
Definition fopen_w (w : World) (path : bytes) : Errno + World :=
  if decide (path ∈ denied w) then inl EACCES
  else inr (set_files w (<[path := []]> (files w))).

(** [ftell] on a stream just opened for append: the size of the file. *)
Definition ftell (w : World) (path : bytes) : Z :=
  match files w !! path with
  | Some content => Z.of_nat (length content)
  | None => 0
  end.

(** Output to a stream opened on [path]: appended to the file. *)
Definition fwrite (w : World) (path : bytes) (data : bytes) : World :=
  set_files w (alter (fun content => content ++ data) path (files w)).

(** [fprintf] on the line-buffered stream open on [path], with its
    result: the line is flushed at once, and the flush can fail. *)
Definition fprintf_flushed (w : World) (path : bytes) (data : bytes) : Errno + World :=
  if decide (path ∈ unwritable w) then inl ENOSPC else inr (fwrite w path data).

Definition unlink (w : World) (path : bytes) : Errno + World :=
  match files w !! path with
  | Some _ => inr (set_files w (delete path (files w)))
  | None => inl ENOENT
  end.

(** [rename(from, to)]: replaces [to] when it exists. *)
Definition rename (w : World) (from to : bytes) : Errno + World :=
  match files w !! from with
  | Some content => inr (set_files w (<[to := content]> (delete from (files w))))
  | None => inl ENOENT
  end.

(** ** The build log: writing *)

(** [kFileSignature] printed with version [v]: ["# ninja log v%d\n"]. *)
Definition kFileSignature (v : Z) : bytes :=
  lit "# ninja log v" ++ fmt_d v ++ [NL].

Definition kCurrentVersion : Z := 4.

(** The line [BuildLog::WriteEntry] prints:
    ["%d\t%d\t%ld\t%s\t%s\n"]. *)
Definition WriteEntry_line (entry : LogEntry) : bytes :=
  fmt_d (start_time entry) ++ [TAB] ++ fmt_d (end_time entry) ++ [TAB]
  ++ fmt_d (restat_mtime entry) ++ [TAB]
  ++ c_str (output entry) ++ [TAB] ++ c_str (command entry) ++ [NL].

Definition WriteEntry (w : World) (f : bytes) (entry : LogEntry) : World :=
  fwrite w f (WriteEntry_line entry).

(** What [RecordCommand] uses of an [Edge]: the result of
    [EvaluateCommand(true)] and the paths of the nodes in [outputs_]. *)
Record Edge := mkEdge {
  EvaluateCommand : bytes;
  outputs_ : list bytes
}.

(** The body of the loop of [RecordCommand], for one output. *)
Definition RecordCommand_output (command : bytes) (start_time end_time restat_mtime : Z)
    (st : BuildLog * World) (path : bytes) : BuildLog * World :=
  let '(bl, w) := st in
  let log_entry :=
    match log_ bl !! path with
    | Some log_entry => log_entry
    | None => {| output := path; command := []; start_time := 0; end_time := 0;
                 restat_mtime := 0 |}
    end in
  let log_entry :=
    {| output := output log_entry; command := command; start_time := start_time;
       end_time := end_time; restat_mtime := restat_mtime |} in
  let bl := {| log_ := <[path := log_entry]> (log_ bl); log_file_ := log_file_ bl;
               config_ := config_ bl; needs_recompaction_ := needs_recompaction_ bl |} in
  match log_file_ bl with
  | Some f => (bl, WriteEntry w f log_entry)
  | None => (bl, w)
  end.

Definition RecordCommand (bl : BuildLog) (w : World) (edge : Edge)
    (start_time end_time restat_mtime : Z) : BuildLog * World :=
  let command := EvaluateCommand edge in
  fold_left (RecordCommand_output command start_time end_time restat_mtime)
            (outputs_ edge) (bl, w).

Definition Close (bl : BuildLog) : BuildLog :=
  {| log_ := log_ bl; log_file_ := None; config_ := config_ bl;
     needs_recompaction_ := needs_recompaction_ bl |}.

(** The states of the file system after each of a run of [WriteEntry]
    calls. *)
Fixpoint WriteEntry_states (w : World) (f : bytes) (entries : list LogEntry)
  : list World :=
  match entries with
  | [] => []
  | entry :: entries' =>
      let w' := WriteEntry w f entry in
      w' :: WriteEntry_states w' f entries'
  end.

(** [BuildLog::Recompact], with the state of the file system after each
    call that changes it (oldest first).  The entries are written in the
    order in which the map is iterated.  The stream of the sibling file
    is fully buffered: [fprintf] of the signature copies it to the
    buffer and reports no failure, so the return after it is never
    taken. *)
Definition Recompact_run (bl : BuildLog) (w : World) (path : bytes)
  : bool * option Errno * list World :=
  let w0 := printf w (lit "Recompacting log..." ++ [NL]) in
  let temp_path := path ++ lit ".recompact" in
  match fopen_w w0 temp_path with
  | inl e => (false, Some e, [w0])
  | inr w1 =>
      let w2 := fwrite w1 temp_path (kFileSignature kCurrentVersion) in
      let ws := WriteEntry_states w2 temp_path (map snd (map_to_list (log_ bl))) in
      let w3 := List.last ws w2 in
      match unlink w3 path with
      | inl e => (false, Some e, [w0; w1; w2] ++ ws)
      | inr w4 =>
          match rename w4 temp_path path with
          | inl e => (false, Some e, [w0; w1; w2] ++ ws ++ [w4])
          | inr w5 => (true, None, [w0; w1; w2] ++ ws ++ [w4; w5])
          end
      end
  end.

Definition Recompact (bl : BuildLog) (w : World) (path : bytes)
  : bool * option Errno * World :=
  let '(ok, err, ws) := Recompact_run bl w path in
  (ok, err, List.last ws w).

(** [BuildLog::OpenForWrite]. *)
Definition OpenForWrite (bl : BuildLog) (w : World) (path : bytes)
  : bool * option Errno * BuildLog * World :=
  if match config_ bl with Some config => dry_run config | None => false end then
    (true, None, bl, w)  (* Do nothing, report success. *)
  else
    let '(ok, err, bl, w) :=
      if needs_recompaction_ bl then
        let bl := Close bl in
        let '(ok, err, w) := Recompact bl w path in
        (ok, err, bl, w)
      else (true, None, bl, w) in
    if negb ok then (false, err, bl, w)
    else
      match fopen_a w path with
      | inl e => (false, Some e, Close bl, w)
      | inr w =>
          let bl := {| log_ := log_ bl; log_file_ := Some path; config_ := config_ bl;
                       needs_recompaction_ := needs_recompaction_ bl |} in
          if ftell w path =? 0 then
            match fprintf_flushed w path (kFileSignature kCurrentVersion) with
            | inl e => (false, Some e, bl, w)
            | inr w => (true, None, bl, w)
            end
          else (true, None, bl, w)
      end.

(** ** The build log: loading *)

(** [sizeof(buf)] for [char buf[256 << 10]]. *)
Definition sizeof_buf : Z := Z.shiftl 256 10.

(** [fread(ptr, 1, size, file)]: the number of bytes read, the memory and
    the rest of the file. *)
Definition fread (m : memory) (ptr size : Z) (file : bytes) : Z * memory * bytes :=
  let data := take (Z.to_nat size) file in
  (Z.of_nat (length data), store_bytes m ptr data, drop (Z.to_nat size) file).

(** The ordinary characters and white space of a [scanf] format. *)
Fixpoint scanf_literal (fmt : bytes) (s : bytes) : option bytes :=
  match fmt with
  | [] => Some s
  | f :: fmt' =>
      if isspace f then scanf_literal fmt' (skip_space s)
      else match s with
           | c :: s' => if Ascii.eqb c f then scanf_literal fmt' s' else None
           | [] => None
           end
  end.

(** [sscanf(s, kFileSignature, &log_version)]: the value stored when the
    call returns a positive count. *)
Definition sscanf_kFileSignature (s : bytes) : option Z :=
  match scanf_literal (lit "# ninja log v") s with
  | Some rest =>
      match strtol10 rest with
      | Some (v, _) => Some (wrap_int32 v)
      | None => None
      end
  | None => None
  end.

(** The local variables of [Load] that live across iterations, the memory
    that holds [buf] and the unread part of the file. *)
Record LoadState := mkLoadState {
  mem : memory;
  file : bytes;
  line_start : Z;
  line_end : option Z;
  buf_end : Z;
  log_version : Z;
  unique_entry_count : Z;
  total_entry_count : Z;
  log : Log
}.

Inductive LoadStep :=
| Break (st : LoadState)       (* the loop is left *)
| Continue (st : LoadState)    (* next iteration *)
| Throws                       (* std::length_error from std::string(start, n) *)
| Spins.                       (* the line scanner did not return *)

(** Bytes from [a] to the end of [buf]: the bound of a string scan. *)
Definition scan_fuel (buf a : Z) : nat := Z.to_nat (buf + sizeof_buf - a).

(** The "Process line." part of the loop body. *)
Definition Load_process_line (buf : Z) (st : LoadState) : LoadStep :=
  let '(mkLoadState m file line_start line_end buf_end log_version
                    unique_entry_count total_entry_count log) := st in
  let signature :=
    if log_version =? 0 then sscanf_kFileSignature (cstring (scan_fuel buf buf) m buf)
    else None in
  let log_version' := if log_version =? 0 then 1 (* Assume by default. *) else log_version in
  match signature with
  | Some v =>
      Continue (mkLoadState m file line_start line_end buf_end v
                            unique_entry_count total_entry_count log)
  | None =>
      let log_version := log_version' in
      let skip m := Continue (mkLoadState m file line_start line_end buf_end log_version
                                          unique_entry_count total_entry_count log) in
      let field_separator := if log_version >=? 4 then TAB else SP in
      let start := line_start in
      match strchr (scan_fuel buf start) m start field_separator with
      | None => skip m
      | Some end_ =>
      let m := store m end_ NUL in
      let start_time := atoi (cstring (scan_fuel buf start) m start) in
      let start := end_ + 1 in
      match strchr (scan_fuel buf start) m start field_separator with
      | None => skip m
      | Some end_ =>
      let m := store m end_ NUL in
      let end_time := atoi (cstring (scan_fuel buf start) m start) in
      let start := end_ + 1 in
      match strchr (scan_fuel buf start) m start field_separator with
      | None => skip m
      | Some end_ =>
      let m := store m end_ NUL in
      let restat_mtime := atol (cstring (scan_fuel buf start) m start) in
      let start := end_ + 1 in
      match strchr (scan_fuel buf start) m start field_separator with
      | None => skip m
      | Some end_ =>
      let output' := load_bytes m start (Z.to_nat (end_ - start)) in
      let start := end_ + 1 in
      match line_end with
      | None => skip m
      | Some end_ =>
      let '(entry, log, unique_entry_count) :=
        match log !! output' with
        | Some entry => (entry, log, unique_entry_count)
        | None =>
            let entry := {| output := output'; command := []; start_time := 0;
                            end_time := 0; restat_mtime := 0 |} in
            (entry, <[output' := entry]> log, wrap_int32 (unique_entry_count + 1))
        end in
      let total_entry_count := wrap_int32 (total_entry_count + 1) in
      if end_ - start <? 0 then Throws
      else
        let entry := {| output := output entry;
                        command := load_bytes m start (Z.to_nat (end_ - start));
                        start_time := start_time; end_time := end_time;
                        restat_mtime := restat_mtime |} in
        Continue (mkLoadState m file line_start line_end buf_end log_version
                              unique_entry_count total_entry_count
                              (<[output' := entry]> log))
      end end end end end
  end.

(** One iteration of the [while (1)] loop: "Get next line." and then
    "Process line.". *)
Definition Load_step (buf : Z) (st : LoadState) : LoadStep :=
  let '(mkLoadState m file line_start line_end buf_end log_version
                    unique_entry_count total_entry_count log) := st in
  let next :=
    if (line_start >=? buf_end) || negb (bool_decide (is_Some line_end)) then
      (* Refill buffer. *)
      let '(size_read, m, file) := fread m buf sizeof_buf file in
      if size_read =? 0 then None
      else Some (m, file, buf, buf + size_read)
    else
      (* Advance to next line in buffer. *)
      Some (m, file, default 0 line_end + 1, buf_end) in
  match next with
  | None => Break st
  | Some (m, file, line_start, buf_end) =>
      match memchrSSE2 m line_start 10 (buf_end - line_start) with
      | None => Spins
      | Some (m, Some line_end) =>
          Load_process_line buf
            (mkLoadState m file line_start (Some line_end) buf_end log_version
                         unique_entry_count total_entry_count log)
      | Some (m, None) =>
          (* No newline. Move rest of data to start of buffer, fill rest. *)
          let watermark := line_start - buf in
          let size_rest := (buf_end - buf) - watermark in
          let m := memmove m buf line_start size_rest in
          let '(read, m, file) := fread m (buf + size_rest) (sizeof_buf - size_rest) file in
          let buf_end := buf + size_rest + read in
          let line_start := buf in
          match memchrSSE2 m line_start 10 (buf_end - line_start) with
          | None => Spins
          | Some (m, line_end) =>
              (* If this is NULL again, the line will be skipped on the
                 next iteration. *)
              Load_process_line buf
                (mkLoadState m file line_start line_end buf_end log_version
                             unique_entry_count total_entry_count log)
          end
      end
  end.

(** The loop: [Break st] when it is left in state [st], [Spins] when it
    has not ended within [fuel] iterations. *)
Fixpoint Load_loop (fuel : nat) (buf : Z) (st : LoadState) : LoadStep :=
  match fuel with
  | O => Spins
  | S fuel' =>
      match Load_step buf st with
      | Continue st' => Load_loop fuel' buf st'
      | r => r
      end
  end.

Inductive LoadResult :=
| Returns (ok : bool) (err : option Errno) (bl : BuildLog)
| Aborts      (* an exception leaves Load *)
| Hangs.      (* Load does not return *)

(** [BuildLog::Load].  [buf] is the address of the stack buffer and [m]
    the memory before the call (the buffer is not initialised).  Every
    iteration but the last two reads a byte of the file or passes a byte
    of the buffer, so the loop is given [2 * size + 3] iterations. *)
Definition Load (bl : BuildLog) (w : World) (path : bytes) (buf : Z) (m : memory)
  : LoadResult :=
  match fopen_r w path with
  | inl ENOENT => Returns true None bl
  | inl e => Returns false (Some e) bl
  | inr content =>
      let st := {| mem := m; file := content; line_start := buf; line_end := None;
                   buf_end := buf; log_version := 0; unique_entry_count := 0;
                   total_entry_count := 0; log := log_ bl |} in
      match Load_loop (2 * length content + 3) buf st with
      | Spins | Continue _ => Hangs
      | Throws => Aborts
      | Break st =>
          (* Decide whether it's time to rebuild the log. *)
          let kMinCompactionEntryCount := 100 in
          let kCompactionRatio := 3 in
          let needs_recompaction :=
            if log_version st <? kCurrentVersion then true
            else if (total_entry_count st >? kMinCompactionEntryCount)
                    && (total_entry_count st >?
                        wrap_int32 (unique_entry_count st * kCompactionRatio))
            then true
            else needs_recompaction_ bl in
          Returns true None
            {| log_ := log st; log_file_ := log_file_ bl; config_ := config_ bl;
               needs_recompaction_ := needs_recompaction |}
      end
  end.

(** [BuildLog::LookupByOutput]. *)
Definition LookupByOutput (bl : BuildLog) (path : bytes) : option LogEntry :=
  log_ bl !! path.

(** ** The [TestEnv] of ninja_test.cc *)

(** [struct TestEnv]: [Evaluate(var)] is [vars[var]], which inserts an
    empty string for a missing key. *)
Record TestEnv := mkTestEnv { vars : gmap bytes bytes }.

Definition TestEnv_Evaluate (env : TestEnv) (var : bytes) : bytes * TestEnv :=
  match vars env !! var with
  | Some value => (value, env)
  | None => ([], mkTestEnv (<[var := []]> (vars env)))
  end.

(** ** [main] of deplist_helper.cc *)

Inductive InputFormat := INPUT_DEPFILE | INPUT_SHOW_INCLUDES.

(** The local variables that the option loop sets. *)
Record Options := mkOptions {
  output_filename : option bytes;
  relative_to : option bytes;
  envfile : option bytes;
  input_format : InputFormat;
  quiet : bool;
  run_command : bool
}.

Definition Options_init : Options :=
  {| output_filename := None; relative_to := None; envfile := None;
     input_format := INPUT_DEPFILE; quiet := false; run_command := false |}.

(** What the program does that can be observed. *)
Inductive Event :=
| EvUsage
| EvPrintf (text : bytes)
| EvWriteDatabase (db_filename output_filename : bytes) (ins : list bytes)
| EvWrite (output_filename : option bytes) (ins : list bytes).

Inductive Exit :=
| Return (code : Z)
| Fatal (msg : bytes).

Fixpoint starts_with (needle s : bytes) : bool :=
  match needle, s with
  | [], _ => true
  | n :: needle', c :: s' => Ascii.eqb n c && starts_with needle' s'
  | _ :: _, [] => false
  end.

(** [s.find(needle, pos)], where [s] is what follows position [pos]. *)
Fixpoint find_from (needle s : bytes) (pos : nat) : option nat :=
  if starts_with needle s then Some pos
  else match s with
       | [] => None
       | _ :: s' => find_from needle s' (S pos)
       end.

Definition find (s needle : bytes) (pos : nat) : option nat :=
  find_from needle (drop pos s) pos.

Definition CR : ascii := "013"%char.

(** The [if (quiet)] block: drop everything up to the end of the line
    that names the file being compiled. *)
Definition strip_first_line (content : bytes) : bytes :=
  let suffixes :=
    [lit ".c" ++ [CR; NL]; lit ".cc" ++ [CR; NL]; lit ".cxx" ++ [CR; NL];
     lit ".cpp" ++ [CR; NL]; lit ".c" ++ [NL]; lit ".cc" ++ [NL];
     lit ".cxx" ++ [NL]; lit ".cpp" ++ [NL]] in
  let at_ := list_find (fun o : option nat => is_Some o)
                       (map (fun suffix => find content suffix 0) suffixes) in
  match at_ with
  | Some (_, Some at_) =>
      match find content [NL] at_ with
      | Some i => drop (i + 1) content
      | None => content   (* npos + 1 is 0 *)
      end
  | _ => content
  end.

Section deplist_helper.

(** Whether the program is built with [_WIN32]. *)
Variable WIN32 : bool.

(** The collaborators of [main], none of them in src/.
    - [ReadInput input_filename]: [fopen] of the named file (or
      [stdin]), [ReadFile] and [fclose]; the content, or the message of
      the [Fatal] call that ends the program.
    - [RunCommand envfile]: the [run_command] branch; the return code
      and output of the subprocess, or the message of a [Fatal] call.
    - [DepfileParser_Parse content]: [ins_] when parsing succeeds.
    - [ShowIncludes_Filter content]: the text and the includes.
    - [IncludesNormalize_Normalize include relative_to]. *)
Variable ReadInput : option bytes -> bytes + bytes.
Variable RunCommand : option bytes -> bytes + Z * bytes.
Variable DepfileParser_Parse : bytes -> option (list bytes).
Variable ShowIncludes_Filter : bytes -> bytes * list bytes.
Variable IncludesNormalize_Normalize : bytes -> option bytes -> bytes.

Inductive OptionStep :=
| OptNext (o : Options)
| OptUsage
| OptFatal (msg : bytes).

(** The [switch (opt)] of the option loop, for one value returned by
    [getopt_long] with its [optarg]. *)
Definition main_option (o : Options) (opt : ascii) (optarg : bytes) : OptionStep :=
  if Ascii.eqb opt "f" then
    if decide (optarg = lit "gcc") then
      OptNext (mkOptions (output_filename o) (relative_to o) (envfile o) INPUT_DEPFILE
                         (quiet o) (run_command o))
    else if decide (optarg = lit "cl") then
      OptNext (mkOptions (output_filename o) (relative_to o) (envfile o)
                         INPUT_SHOW_INCLUDES (quiet o) (run_command o))
    else OptFatal (lit "unknown input format '" ++ optarg ++ lit "'")
  else if Ascii.eqb opt "o" then
    OptNext (mkOptions (Some optarg) (relative_to o) (envfile o) (input_format o)
                       (quiet o) (run_command o))
  else if WIN32 && Ascii.eqb opt "e" then
    OptNext (mkOptions (output_filename o) (relative_to o) (Some optarg) (input_format o)
                       (quiet o) (run_command o))
  else if WIN32 && Ascii.eqb opt "C" then
    OptNext (mkOptions (output_filename o) (relative_to o) (envfile o) (input_format o)
                       (quiet o) true)
  else if Ascii.eqb opt "q" then
    OptNext (mkOptions (output_filename o) (relative_to o) (envfile o) (input_format o)
                       true (run_command o))
  else if Ascii.eqb opt "r" then
    OptNext (mkOptions (output_filename o) (Some optarg) (envfile o) (input_format o)
                       (quiet o) (run_command o))
  else (* case 'h': default: *) OptUsage.

(** The [while ((opt = getopt_long(...)) != -1)] loop, over the values
    that [getopt_long] returns in turn. *)
Fixpoint main_options (o : Options) (opts : list (ascii * bytes)) : OptionStep :=
  match opts with
  | [] => OptNext o
  | (opt, optarg) :: opts' =>
      match main_option o opt optarg with
      | OptNext o' => main_options o' opts'
      | r => r
      end
  end.

(** From the end of the option loop to the end of the
    [switch (input_format)]: the return code, what was printed and
    [depfile.ins_], or the message of a [Fatal] call. *)
Definition main_input (o : Options) (operands : list bytes)
  : bytes + Z * list Event * list bytes :=
  let input :=
    if run_command o then RunCommand (envfile o)
    else match ReadInput (head operands) with
         | inl msg => inl msg
         | inr content => inr (0, content)
         end in
  match input with
  | inl msg => inl msg
  | inr (returncode, content) =>
      match input_format o with
      | INPUT_DEPFILE =>
          match DepfileParser_Parse content with
          | None => inl (lit "parsing ")
          | Some ins => inr (returncode, [], ins)
          end
      | INPUT_SHOW_INCLUDES =>
          let content := if quiet o then strip_first_line content else content in
          let '(text, includes) := ShowIncludes_Filter content in
          let normalized :=
            map (fun i => IncludesNormalize_Normalize i (relative_to o)) includes in
          inr (returncode, [EvPrintf text], normalized)
      end
  end.

(** [const char* db_filename = ".ninja_depdb";] *)
Definition db_filename : option bytes := Some (lit ".ninja_depdb").

(** The last statement of [main]: [if (db_filename) ... else ...]. *)
Definition main_output (o : Options) (returncode : Z) (ins : list bytes)
  : list Event * Exit :=
  match db_filename with
  | Some db_filename =>
      match output_filename o with
      | None => ([], Fatal (lit "-d requires -o"))
      | Some output_filename =>
          ([EvWriteDatabase db_filename output_filename ins], Return returncode)
      end
  | None =>
      (* Open/write/close output file. *)
      ([EvWrite (output_filename o) ins], Return returncode)
  end.

(** [main], given the values [getopt_long] returns and the arguments
    left after the options. *)
Definition main (opts : list (ascii * bytes)) (operands : list bytes)
  : list Event * Exit :=
  match main_options Options_init opts with
  | OptUsage => ([EvUsage], Return 0)
  | OptFatal msg => ([], Fatal msg)
  | OptNext o =>
      match main_input o operands with
      | inl msg => ([], Fatal msg)
      | inr (returncode, events, ins) =>
          let '(events', exit) := main_output o returncode ins in
          (events ++ events', exit)
      end
  end.

End deplist_helper.

(** * Definitions used to state the properties *)

(** Index of the first byte of [l] equal to [c]. *)
Fixpoint first_hit (c : ascii) (l : bytes) : option Z :=
  match l with
  | [] => None
  | x :: l' => if Ascii.eqb x c then Some 0 else option_map Z.succ (first_hit c l')
  end.

(** [holds m a l]: the bytes [l] lie at address [a]. *)
Definition holds (m : memory) (a : Z) (l : bytes) : Prop :=
  load_bytes m a (length l) = l.

(** The characters [%d] prints. *)
Definition is_dec_char (c : ascii) : Prop := isdigit c = true \/ c = "-"%char.

Definition no_digit_head (tail : bytes) : Prop :=
  match tail with [] => True | c :: _ => isdigit c = false end.

(** A record line of the log, from the text of its five fields. *)
Definition record_line (sep : ascii) (f1 f2 f3 out cmd : bytes) : bytes :=
  f1 ++ sep :: f2 ++ sep :: f3 ++ sep :: out ++ sep :: cmd ++ [NL].

(** The effect on the map of one record, in [RecordCommand] and in
    [Load] alike: find or create the entry of [out] and assign its
    fields. *)
Definition log_assign (log : Log) (out cmd : bytes) (s e r : Z) : Log :=
  let entry :=
    match log !! out with
    | Some entry => entry
    | None => {| output := out; command := []; start_time := 0; end_time := 0;
                 restat_mtime := 0 |}
    end in
  <[out := {| output := output entry; command := cmd; start_time := s; end_time := e;
              restat_mtime := r |}]> log.

Definition count_unique (log : Log) (out : bytes) (unique : Z) : Z :=
  match log !! out with
  | Some _ => unique
  | None => wrap_int32 (unique + 1)
  end.

Definition field_separator (v : Z) : ascii := if v >=? 4 then TAB else SP.

(** What has been read but not yet passed, followed by what has not yet
    been read. *)
Definition pending (st : LoadState) : bytes :=
  match line_end st with
  | Some le => load_bytes (mem st) (le + 1) (Z.to_nat (buf_end st - (le + 1))) ++ file st
  | None => file st
  end.

Definition wf_state (buf : Z) (st : LoadState) : Prop :=
  match line_end st with
  | Some le => buf <= line_start st <= le /\ le < buf_end st <= buf + sizeof_buf
  | None => True
  end.

(** A record of the log as [Load] can read it, with separator [sep]. *)
Definition entry_line (sep : ascii) (e : LogEntry) : bytes :=
  record_line sep (fmt_d (start_time e)) (fmt_d (end_time e)) (fmt_d (restat_mtime e))
              (output e) (command e).

Definition loadable (sep : ascii) (e : LogEntry) : Prop :=
  is_int (start_time e) /\ is_int (end_time e) /\ is_long (restat_mtime e) /\
  (sep ∉ output e) /\ (NUL ∉ output e) /\ (NL ∉ output e) /\ (NL ∉ command e) /\
  16 <= Z.of_nat (length (entry_line sep e)) <= sizeof_buf.

(** The map and the two counters after one more record. *)
Definition load_entry (acc : Log * Z * Z) (e : LogEntry) : Log * Z * Z :=
  let '(log, unique, total) := acc in
  (log_assign log (output e) (command e) (start_time e) (end_time e) (restat_mtime e),
   count_unique log (output e) unique,
   wrap_int32 (total + 1)).

(** The bytes still to be passed, counting those of the file twice (they
    are read, then passed). *)
Definition load_measure (st : LoadState) : Z :=
  2 * Z.of_nat (length (file st))
  + match line_end st with Some le => buf_end st - le | None => 0 end.

(** The arguments of one call of [RecordCommand]. *)
Record Call := mkCall {
  call_edge : Edge;
  call_start : Z;
  call_end : Z;
  call_restat : Z
}.

Definition RecordCommands (st : BuildLog * World) (calls : list Call) : BuildLog * World :=
  fold_left (fun st c => RecordCommand st.1 st.2 (call_edge c) (call_start c)
                                       (call_end c) (call_restat c))
            calls st.

(** Open the log at [path] with the [BuildLog] [bl], record [calls],
    close; then load the file, in a new [BuildLog] and in the one that
    wrote it.  The result is what [OpenForWrite] returned, the map held
    before closing and what the two calls of [Load] return. *)
Definition write_then_load (bl : BuildLog) (w : World) (path : bytes) (calls : list Call)
    (buf : Z) (m : memory) : bool * Log * LoadResult * LoadResult :=
  let '(ok, _, bl, w) := OpenForWrite bl w path in
  let '(bl, w) := RecordCommands (bl, w) calls in
  let bl := Close bl in
  (ok, log_ bl, Load BuildLog_new w path buf m, Load bl w path buf m).

(** The entries a list of calls records, one per output, in order. *)
Definition call_entries (c : Call) : list LogEntry :=
  map (fun out => {| output := out; command := EvaluateCommand (call_edge c);
                     start_time := call_start c; end_time := call_end c;
                     restat_mtime := call_restat c |})
      (outputs_ (call_edge c)).

(** An entry that survives the trip through the file: its numbers are in
    range, its path and command are free of the bytes that delimit fields,
    lines and C strings, and its line has at least 16 bytes and fits the
    read buffer. *)
Definition clean_entry (sep : ascii) (e : LogEntry) : Prop :=
  loadable sep e /\ (NUL ∉ command e).

Definition key_inv (lg : Log) : Prop :=
  forall k e, lg !! k = Some e -> output e = k.

(** Last writer wins. *)
Definition insert_entries (es : list LogEntry) (lg : Log) : Log :=
  fold_left (fun lg e => <[output e := e]> lg) es lg.

(** The last entry of [es] for the output path [k]. *)
Fixpoint last_entry_for (k : bytes) (es : list LogEntry) : option LogEntry :=
  match es with
  | [] => None
  | e :: es' =>
      match last_entry_for k es' with
      | Some e' => Some e'
      | None => if decide (output e = k) then Some e else None
      end
  end.

(** The state of a log open at [f]: what is on disk is the signature and
    the lines of [es]; what is in memory is [es] inserted in order. *)
Definition log_open_at (f : bytes) (es : list LogEntry) (st : BuildLog * World) : Prop :=
  log_file_ st.1 = Some f /\ log_ st.1 = insert_entries es ∅ /\
  files st.2 !! f = Some (kFileSignature kCurrentVersion ++ concat (map (entry_line TAB) es)).

(** The [BuildLog] and the file at [path] hold the same records [es]:
    as after [Load] of a version 4 file of clean records, or with a new
    [BuildLog] and a file that is missing or empty. *)
Definition in_step (bl : BuildLog) (w : World) (path : bytes) (es : list LogEntry) : Prop :=
  log_ bl = insert_entries es ∅ /\
  (files w !! path
   = Some (kFileSignature kCurrentVersion ++ concat (map (entry_line TAB) es)) \/
   (es = [] /\ (files w !! path = None \/ files w !! path = Some []))).

Definition zero_memory : memory := fun _ => NUL.

(** A world with a single file and nothing denied. *)
Definition one_file (path content : bytes) : World :=
  {| files := {[ path := content ]}; denied := ∅; unwritable := ∅; stdout := [] |}.

Definition no_files : World :=
  {| files := ∅; denied := ∅; unwritable := ∅; stdout := [] |}.

(** The text of a compacted log: a fresh signature and one record for
    each entry of the map. *)
Definition recompacted (lg : Log) : bytes :=
  kFileSignature kCurrentVersion ++ concat (map WriteEntry_line (map snd (map_to_list lg))).

(** Compact the log at [path], then load the new file, in a fresh
    [BuildLog] and in the one that was compacted. *)
Definition recompact_then_load (bl : BuildLog) (w : World) (path : bytes)
    (buf : Z) (m : memory) : bool * LoadResult * LoadResult :=
  let '(ok, _, w) := Recompact bl w path in
  (ok, Load BuildLog_new w path buf m, Load bl w path buf m).

(** The effect on the map of recording the entry [e]. *)
Definition assign_entry (lg : Log) (e : LogEntry) : Log :=
  log_assign lg (output e) (command e) (start_time e) (end_time e) (restat_mtime e).

(** The argument of the last [-o] among the options. *)
Definition given_o (opts : list (ascii * bytes)) (init : option bytes) : option bytes :=
  fold_left (fun acc p => if Ascii.eqb p.1 "o" then Some p.2 else acc) opts init.

(** Whether [config_ && config_->dry_run] holds. *)
Definition is_dry_run (bl : BuildLog) : bool :=
  match config_ bl with Some config => dry_run config | None => false end.

(** The entry that a call of [RecordCommand] records for the output
    [out]. *)
Definition recorded (edge : Edge) (s e r : Z) (out : bytes) : LogEntry :=
  {| output := out; command := EvaluateCommand edge; start_time := s; end_time := e;
     restat_mtime := r |}.

(** [OpenForWrite] on [path], then one call of [RecordCommand]. *)
Definition open_and_record (bl : BuildLog) (w : World) (path : bytes) (edge : Edge)
    (s e r : Z) : bool * (BuildLog * World) :=
  let '(ok, _, bl, w) := OpenForWrite bl w path in
  (ok, RecordCommand bl w edge s e r).

(** Every path with an entry in [lg] has one in [lg']. *)
Definition log_grows (lg lg' : Log) : Prop :=
  forall k, is_Some (lg !! k) -> is_Some (lg' !! k).


(** The line ends that the [if (quiet)] block of [main] looks for, in
    the order in which it looks for them. *)
Definition source_line_ends : list bytes :=
  [lit ".c" ++ [CR; NL]; lit ".cc" ++ [CR; NL]; lit ".cxx" ++ [CR; NL];
   lit ".cpp" ++ [CR; NL]; lit ".c" ++ [NL]; lit ".cc" ++ [NL];
   lit ".cxx" ++ [NL]; lit ".cpp" ++ [NL]].

(** * Properties *)

(** Side conditions on concrete entries, by evaluation. *)
Ltac concrete_not_in :=
  let H := fresh in
  intros H; vm_compute in H;
  repeat (apply elem_of_cons in H; destruct H as [H|H]; [discriminate|]);
  apply elem_of_nil in H; exact H.

Ltac concrete_entries :=
  repeat constructor;
  try (unfold is_int, is_long, LONG_MIN, LONG_MAX; cbn; lia);
  try concrete_not_in;
  vm_compute; discriminate.

(** A byte that is not in a string literal. *)
Ltac not_in_literal :=
  let H := fresh in
  unfold lit; cbn [list_ascii_of_string];
  rewrite !elem_of_cons, elem_of_nil; intros H;
  repeat (destruct H as [H|H]; [discriminate|]); assumption.

(** ** Memory and the reference [memchr] *)

Lemma store_eq m a v : store m a v a = v.
Proof. unfold store. now rewrite Z.eqb_refl. Qed.

Lemma store_ne m a v x : x <> a -> store m a v x = m x.
Proof. unfold store. intros H. destruct (Z.eqb_spec x a); congruence. Qed.

Lemma store_restore m a v : store (store m a v) a (m a) = m.
Proof.
  apply functional_extensionality. intros x. unfold store.
  destruct (Z.eqb_spec x a); congruence.
Qed.

Lemma ascii_eqb_true a b : Ascii.eqb a b = true <-> a = b.
Proof. apply Ascii.eqb_eq. Qed.

Lemma ascii_eqb_false a b : Ascii.eqb a b = false <-> a <> b.
Proof. apply Ascii.eqb_neq. Qed.

Lemma first_hit_load_None m c n a :
  first_hit c (load_bytes m a n) = None ->
  forall i, 0 <= i < Z.of_nat n -> m (a + i) <> c.
Proof.
  revert a. induction n as [|n IH]; intros a H i Hi; [lia|].
  simpl in H. destruct (Ascii.eqb (m a) c) eqn:E; [discriminate|].
  destruct (first_hit c (load_bytes m (a + 1) n)) eqn:F; [discriminate|].
  destruct (Z.eq_dec i 0) as [->|Hne].
  - rewrite Z.add_0_r. now apply ascii_eqb_false.
  - replace (a + i) with (a + 1 + (i - 1)) by lia. apply IH; [assumption|lia].
Qed.

Lemma first_hit_load_Some m c n a k :
  first_hit c (load_bytes m a n) = Some k ->
  0 <= k < Z.of_nat n /\ m (a + k) = c /\ forall i, 0 <= i < k -> m (a + i) <> c.
Proof.
  revert a k. induction n as [|n IH]; intros a k H; [discriminate|].
  simpl in H. destruct (Ascii.eqb (m a) c) eqn:E.
  - injection H as <-. rewrite Z.add_0_r. apply ascii_eqb_true in E.
    split; [lia|]. split; [assumption|]. intros; lia.
  - destruct (first_hit c (load_bytes m (a + 1) n)) as [j|] eqn:F; [|discriminate].
    injection H as <-. destruct (IH _ _ F) as (Hj & Hm & Hb).
    split; [lia|]. split.
    + now replace (a + Z.succ j) with (a + 1 + j) by lia.
    + intros i Hi. destruct (Z.eq_dec i 0) as [->|Hne].
      * rewrite Z.add_0_r. now apply ascii_eqb_false.
      * replace (a + i) with (a + 1 + (i - 1)) by lia. apply Hb. lia.
Qed.

Lemma memchr_from_None m c n a :
  (forall i, 0 <= i < Z.of_nat n -> m (a + i) <> c) -> memchr_from m a c n = None.
Proof.
  revert a. induction n as [|n IH]; intros a H; [reflexivity|].
  simpl. destruct (Ascii.eqb (m a) c) eqn:E.
  - apply ascii_eqb_true in E. exfalso. apply (H 0); [lia|]. now rewrite Z.add_0_r.
  - apply IH. intros i Hi. replace (a + 1 + i) with (a + (i + 1)) by lia. apply H. lia.
Qed.

Lemma memchr_from_Some m c n a k :
  0 <= k < Z.of_nat n -> m (a + k) = c ->
  (forall i, 0 <= i < k -> m (a + i) <> c) -> memchr_from m a c n = Some (a + k).
Proof.
  revert a k. induction n as [|n IH]; intros a k Hk Hm Hb; [lia|].
  simpl. destruct (Ascii.eqb (m a) c) eqn:E.
  - apply ascii_eqb_true in E. destruct (Z.eq_dec k 0) as [->|Hne].
    + now rewrite Z.add_0_r.
    + exfalso. apply (Hb 0); [lia|]. now rewrite Z.add_0_r.
  - destruct (Z.eq_dec k 0) as [->|Hne].
    + rewrite Z.add_0_r in Hm. apply ascii_eqb_false in E. contradiction.
    + replace (a + k) with (a + 1 + (k - 1)) by lia. apply IH; [lia| |].
      * now replace (a + 1 + (k - 1)) with (a + k) by lia.
      * intros i Hi. replace (a + 1 + i) with (a + (i + 1)) by lia. apply Hb. lia.
Qed.

(** The mask of a compare is the binary number of its hits. *)
Lemma ctz_double x : 0 < x -> __builtin_ctz (2 * x) = 1 + __builtin_ctz x.
Proof. destruct x; try lia. reflexivity. Qed.

Lemma ctz_odd x : 0 <= x -> __builtin_ctz (1 + 2 * x) = 0.
Proof. destruct x; try lia; reflexivity. Qed.

Lemma movemask_cmpeq c l :
  let mask := _mm_movemask_epi8 (_mm_cmpeq_epi8 l (repeat c (length l))) in
  0 <= mask < 2 ^ Z.of_nat (length l) /\
  match first_hit c l with
  | None => mask = 0
  | Some k => 0 < mask /\ __builtin_ctz mask = k
  end.
Proof.
  induction l as [|x l IH]; [simpl; lia|].
  cbn [length repeat _mm_cmpeq_epi8 zip_with _mm_movemask_epi8 first_hit].
  fold (_mm_cmpeq_epi8 l (repeat c (length l))).
  cbv zeta in IH. destruct IH as [Hr IH].
  set (mk := _mm_movemask_epi8 _) in *.
  rewrite Nat2Z.inj_succ, Z.pow_succ_r by lia.
  destruct (Ascii.eqb x c); cbn [msb Z.b2z].
  - split; [lia|]. split; [lia|]. apply ctz_odd. lia.
  - split; [lia|]. destruct (first_hit c l) as [k|]; cbn [option_map].
    + destruct IH as [Hp Hk]. split; [lia|]. rewrite Z.add_0_l, ctz_double by lia. lia.
    + lia.
Qed.


(** ** The compare mask of a block *)

Lemma load_bytes_length m a n : length (load_bytes m a n) = n.
Proof. revert a. induction n; intros; simpl; [reflexivity|]. now rewrite IHn. Qed.

Lemma load_bytes_app m a n1 n2 :
  load_bytes m a (n1 + n2) = load_bytes m a n1 ++ load_bytes m (a + Z.of_nat n1) n2.
Proof.
  revert a. induction n1 as [|n1 IH]; intros a.
  - simpl. now rewrite Z.add_0_r.
  - cbn [Nat.add load_bytes app]. rewrite IH. do 3 f_equal. lia.
Qed.

Lemma load_bytes_ext m m' a n :
  (forall i, 0 <= i < Z.of_nat n -> m (a + i) = m' (a + i)) ->
  load_bytes m a n = load_bytes m' a n.
Proof.
  revert a. induction n as [|n IH]; intros a H; [reflexivity|].
  simpl. f_equal.
  - specialize (H 0). rewrite Z.add_0_r in H. apply H. lia.
  - apply IH. intros i Hi. replace (a + 1 + i) with (a + (i + 1)) by lia. apply H. lia.
Qed.

Lemma movemask_cmpeq_app c l1 l2 :
  _mm_movemask_epi8 (_mm_cmpeq_epi8 (l1 ++ l2) (repeat c (length (l1 ++ l2)))) =
  _mm_movemask_epi8 (_mm_cmpeq_epi8 l1 (repeat c (length l1)))
  + 2 ^ Z.of_nat (length l1) * _mm_movemask_epi8 (_mm_cmpeq_epi8 l2 (repeat c (length l2))).
Proof.
  unfold _mm_cmpeq_epi8. induction l1 as [|x l1 IH].
  { cbn [app length repeat zip_with _mm_movemask_epi8].
    change (Z.of_nat 0) with 0. rewrite Z.pow_0_r. lia. }
  cbn [app length repeat zip_with _mm_movemask_epi8].
  rewrite IH.
  rewrite Nat2Z.inj_succ, Z.pow_succ_r by lia. ring.
Qed.

Lemma ctz_shift u x : 0 < x -> __builtin_ctz (2 ^ Z.of_nat u * x) = Z.of_nat u + __builtin_ctz x.
Proof.
  intros Hx. induction u as [|u IH].
  - simpl. now destruct x.
  - rewrite Nat2Z.inj_succ, Z.pow_succ_r by lia.
    rewrite <- Z.mul_assoc, ctz_double by lia. lia.
Qed.

Lemma clear_low_mask mask u :
  0 <= mask < 2 ^ 32 -> 1 <= u <= 15 ->
  Z.land mask (Z.shiftl 4294967295 u mod 2 ^ 32) = mask - mask mod 2 ^ u.
Proof.
  intros Hm Hu.
  assert (HK : Z.shiftl 4294967295 u mod 2 ^ 32 = Z.ldiff (Z.ones 32) (Z.ones u)).
  { assert (Hc : u = 1 \/ u = 2 \/ u = 3 \/ u = 4 \/ u = 5 \/ u = 6 \/ u = 7 \/ u = 8 \/
                 u = 9 \/ u = 10 \/ u = 11 \/ u = 12 \/ u = 13 \/ u = 14 \/ u = 15) by lia.
    repeat (destruct Hc as [->|Hc]; [reflexivity|]). subst u. reflexivity. }
  rewrite HK, Z.ldiff_land, Z.land_assoc, Z.land_ones by lia.
  rewrite Z.mod_small by lia.
  rewrite <- Z.ldiff_land, Z.ldiff_ones_r by lia.
  rewrite Z.shiftr_div_pow2, Z.shiftl_mul_pow2 by lia.
  pose proof (Z.div_mod mask (2 ^ u)). lia.
Qed.

Lemma masked_first_block c l u :
  length l = 16%nat -> (1 <= u <= 15)%nat ->
  let mask := Z.land (_mm_movemask_epi8 (_mm_cmpeq_epi8 l (_mm_set1_epi8 c)))
                     (Z.shiftl 4294967295 (Z.of_nat u) mod 2 ^ 32) in
  match first_hit c (drop u l) with
  | None => mask = 0
  | Some k => 0 < mask < 2 ^ 32 /\ __builtin_ctz mask = Z.of_nat u + k
  end.
Proof.
  intros Hl Hu. cbv zeta. unfold _mm_set1_epi8. rewrite <- Hl.
  pose proof (movemask_cmpeq c l) as Hall. cbv zeta in Hall. destruct Hall as [Hall _].
  set (M := _mm_movemask_epi8 _) in *.
  rewrite Hl in Hall. change (Z.of_nat 16) with 16 in Hall.
  rewrite clear_low_mask by lia. subst M.
  pose proof (movemask_cmpeq_app c (take u l) (drop u l)) as Happ.
  rewrite take_drop in Happ. rewrite Happ. clear Happ.
  assert (Hlt : length (take u l) = u) by (rewrite length_take; lia).
  pose proof (movemask_cmpeq c (take u l)) as H1. cbv zeta in H1. destruct H1 as [H1 _].
  pose proof (movemask_cmpeq c (drop u l)) as H2. cbv zeta in H2. destruct H2 as [H2 H3].
  rewrite Hlt in *.
  set (m1 := _mm_movemask_epi8 (_mm_cmpeq_epi8 (take u l) _)) in *.
  set (m2 := _mm_movemask_epi8 (_mm_cmpeq_epi8 (drop u l) _)) in *.
  assert (Hmod : (m1 + 2 ^ Z.of_nat u * m2) mod 2 ^ Z.of_nat u = m1).
  { replace (m1 + 2 ^ Z.of_nat u * m2) with (m1 + m2 * 2 ^ Z.of_nat u) by ring.
    rewrite Z_mod_plus_full. apply Z.mod_small. lia. }
  rewrite Hmod. replace (m1 + 2 ^ Z.of_nat u * m2 - m1) with (2 ^ Z.of_nat u * m2) by lia.
  assert (Hd : length (drop u l) = (16 - u)%nat) by (rewrite length_drop; lia).
  rewrite Hd in H2.
  destruct (first_hit c (drop u l)) as [k|].
  - destruct H3 as [Hp Hk]. split.
    + split; [lia|].
      assert (2 ^ Z.of_nat u * m2 < 2 ^ Z.of_nat u * 2 ^ Z.of_nat (16 - u)) by nia.
      rewrite <- Z.pow_add_r in H by lia.
      replace (Z.of_nat u + Z.of_nat (16 - u)) with 16 in H by lia. lia.
    + rewrite ctz_shift by lia. lia.
  - subst m2. rewrite H3. lia.
Qed.


(** ** [memchrSSE2] (C10) *)

Lemma CountTrailingZeros_32_small mask :
  0 < mask < 2 ^ 32 -> CountTrailingZeros_32 mask = __builtin_ctz mask.
Proof.
  intros H. unfold CountTrailingZeros_32. rewrite Z.mod_small by lia.
  destruct (Z.eqb_spec mask 0); [lia|reflexivity].
Qed.

Lemma memchr_from_ext m m' c n a :
  (forall i, 0 <= i < Z.of_nat n -> m (a + i) = m' (a + i)) ->
  memchr_from m a c n = memchr_from m' a c n.
Proof.
  revert a. induction n as [|n IH]; intros a H; [reflexivity|].
  simpl. specialize (H 0) as H0. rewrite Z.add_0_r in H0. rewrite H0 by lia.
  destruct (Ascii.eqb (m' a) c); [reflexivity|].
  apply IH. intros i Hi. replace (a + 1 + i) with (a + (i + 1)) by lia. apply H. lia.
Qed.

Lemma memchrSSE2_loop_spec c fuel : forall ms str start n old,
  ms (start + n) = c -> start <= str <= start + n ->
  (forall a, start <= a < str -> ms a <> c) ->
  start + n - str < 16 * Z.of_nat fuel ->
  memchrSSE2_loop fuel ms (_mm_set1_epi8 c) str start n old =
  Some (store ms (start + n) old, memchr_from ms start c (Z.to_nat n)).
Proof.
  induction fuel as [|fuel IH]; intros ms str start n old Hs Hr Hb Hf; [lia|].
  cbn [memchrSSE2_loop]. cbv zeta.
  pose proof (movemask_cmpeq c (load128 ms str)) as Hm. cbv zeta in Hm.
  unfold load128 in *. rewrite load_bytes_length in Hm.
  change (repeat c 16) with (_mm_set1_epi8 c) in Hm.
  set (mask := _mm_movemask_epi8 _) in *. destruct Hm as [Hm16 Hm].
  change (Z.of_nat 16) with 16 in Hm16.
  destruct (first_hit c (load_bytes ms str 16)) as [k|] eqn:Hk.
  - destruct Hm as [Hpos Hctz].
    apply first_hit_load_Some in Hk. destruct Hk as (Hk & Hhit & Hbefore).
    change (Z.of_nat 16) with 16 in Hk.
    destruct (Z.eqb_spec mask 0) as [|_]; [lia|]. cbn [negb].
    rewrite CountTrailingZeros_32_small, Hctz by lia.
    f_equal. f_equal.
    assert (Hall : forall i, 0 <= i -> start + i < str + k -> ms (start + i) <> c).
    { intros i Hi Hlt. destruct (Z_lt_dec (start + i) str).
      - apply Hb. lia.
      - replace (start + i) with (str + (start + i - str)) by lia. apply Hbefore. lia. }
    destruct (Z.ltb_spec (str + k) (start + n)).
    + replace (str + k) with (start + (str + k - start)) by lia.
      symmetry. apply memchr_from_Some.
      * lia.
      * now replace (start + (str + k - start)) with (str + k) by lia.
      * intros i Hi. apply Hall; lia.
    + symmetry. apply memchr_from_None. intros i Hi. apply Hall; lia.
  - subst mask. rewrite Hm. cbn [Z.eqb negb].
    pose proof (first_hit_load_None _ _ _ _ Hk) as Hno.
    change (Z.of_nat 16) with 16 in Hno.
    assert (str + 16 <= start + n).
    { destruct (Z_le_dec (str + 16) (start + n)); [assumption|].
      exfalso. apply (Hno (start + n - str)); [lia|].
      now replace (str + (start + n - str)) with (start + n) by lia. }
    apply IH; try assumption; try lia.
    intros a Ha. destruct (Z_lt_dec a str).
    + apply Hb. lia.
    + replace a with (str + (a - str)) by lia. apply Hno. lia.
Qed.

Lemma land_15 str : Z.land str 15 = str mod 16.
Proof. change 15 with (Z.ones 4). now rewrite Z.land_ones by lia. Qed.

Lemma land_lnot_15 str : Z.land str (Z.lnot 15) = str - str mod 16.
Proof.
  rewrite <- Z.ldiff_land. change 15 with (Z.ones 4).
  rewrite Z.ldiff_ones_r, Z.shiftr_div_pow2, Z.shiftl_mul_pow2 by lia.
  pose proof (Z.div_mod str (2 ^ 4)). change (2 ^ 4) with 16 in *. lia.
Qed.

(** What [memchrSSE2] returns, for every pointer: it always returns, with
    the memory as it found it.  A hit among the bytes of the first,
    unaligned block (which may be the sentinel) is reported [n_unaligned]
    bytes too far. *)
Lemma memchrSSE2_spec m str c n :
  0 <= n ->
  let c' := char_of_int c in
  let u := Z.land str 15 in
  let ms := store m (str + n) c' in
  memchrSSE2 m str c n =
  Some (m,
        match (if 0 <? u then first_hit c' (load_bytes ms str (Z.to_nat (16 - u)))
               else None) with
        | Some k => if str + (u + k) <? str + n then Some (str + (u + k)) else None
        | None => memchr m str c n
        end).
Proof.
  intros Hn c' u ms. unfold memchrSSE2, memchrSSE2_fuel. cbv zeta.
  fold c' ms u.
  assert (Hu : 0 <= u < 16) by (unfold u; rewrite land_15; apply Z.mod_pos_bound; lia).
  assert (Hsent : ms (str + n) = c') by apply store_eq.
  assert (Hrest : store ms (str + n) (m (str + n)) = m) by apply store_restore.
  assert (Hmem : memchr m str c n = memchr_from ms str c' (Z.to_nat n)).
  { unfold memchr. fold c'. apply memchr_from_ext. intros i Hi.
    unfold ms. rewrite store_ne by lia. reflexivity. }
  assert (Hfuel : n < 16 * Z.of_nat (Z.to_nat (n / 16) + 2)).
  { pose proof (Z.div_mod n 16). pose proof (Z.mod_pos_bound n 16).
    assert (0 <= n / 16) by (apply Z.div_pos; lia). lia. }
  destruct (Z.ltb_spec 0 u) as [Hpos|Hzero].
  - rewrite land_lnot_15. fold u in Hpos. rewrite <- land_15. fold u.
    pose proof (masked_first_block c' (load128 ms (str - u)) (Z.to_nat u)) as Hb.
    unfold load128 in *. rewrite load_bytes_length in Hb.
    specialize (Hb eq_refl ltac:(lia)). cbv zeta in Hb.
    rewrite Z2Nat.id in Hb by lia.
    assert (Hdrop : drop (Z.to_nat u) (load_bytes ms (str - u) 16)
                    = load_bytes ms str (Z.to_nat (16 - u))).
    { replace 16%nat with (Z.to_nat u + Z.to_nat (16 - u))%nat by lia.
      rewrite load_bytes_app, drop_app_length'
        by (rewrite load_bytes_length; reflexivity).
      f_equal. lia. }
    rewrite Hdrop in Hb.
    set (mask := Z.land (_mm_movemask_epi8 _) _) in *.
    destruct (first_hit c' (load_bytes ms str (Z.to_nat (16 - u)))) as [k|] eqn:Hk.
    + destruct Hb as [Hm Hctz].
      destruct (Z.eqb_spec mask 0) as [|_]; [lia|]. cbn [negb].
      rewrite CountTrailingZeros_32_small, Hctz, Hrest by lia. reflexivity.
    + rewrite Hb. cbn [Z.eqb negb].
      pose proof (first_hit_load_None _ _ _ _ Hk) as Hno.
      rewrite Z2Nat.id in Hno by lia.
      assert (16 - u <= n).
      { destruct (Z_le_dec (16 - u) n); [assumption|].
        exfalso. apply (Hno n); [lia|assumption]. }
      rewrite memchrSSE2_loop_spec; try assumption; try lia.
      * now rewrite Hrest, Hmem.
      * intros a Ha. replace a with (str + (a - str)) by lia. apply Hno. lia.
  - rewrite memchrSSE2_loop_spec; try assumption; try lia.
    now rewrite Hrest, Hmem.
Qed.

(** [memchrSSE2] agrees with [memchr] when [str] is 16-byte aligned, and
    when the byte does not occur in the bytes of the first block. *)
Lemma memchrSSE2_correct m str c n :
  0 <= n ->
  (Z.land str 15 = 0 \/
   forall i, 0 <= i < Z.min n (16 - Z.land str 15) -> m (str + i) <> char_of_int c) ->
  memchrSSE2 m str c n = Some (m, memchr m str c n).
Proof.
  intros Hn Hsafe. rewrite memchrSSE2_spec by assumption. cbv zeta.
  f_equal. f_equal.
  set (u := Z.land str 15) in *. set (c' := char_of_int c) in *.
  assert (Hu : 0 <= u < 16) by (unfold u; rewrite land_15; apply Z.mod_pos_bound; lia).
  destruct (Z.ltb_spec 0 u) as [Hpos|Hzero]; [|reflexivity].
  destruct Hsafe as [|Hsafe]; [lia|].
  destruct (first_hit c' (load_bytes (store m (str + n) c') str (Z.to_nat (16 - u))))
    as [k|] eqn:Hk; [|reflexivity].
  apply first_hit_load_Some in Hk. destruct Hk as (Hk & Hhit & Hbefore).
  rewrite Z2Nat.id in Hk by lia.
  assert (Hkn : k = n).
  { destruct (Z_lt_dec k n) as [Hlt|Hge].
    - exfalso. apply (Hsafe k); [lia|]. rewrite store_ne in Hhit by lia. assumption.
    - destruct (Z_lt_dec n k) as [Hgt|]; [|lia].
      exfalso. apply (Hbefore n); [lia|]. apply store_eq. }
  subst k. destruct (Z.ltb_spec (str + (u + n)) (str + n)); [lia|].
  symmetry. unfold memchr. fold c'. apply memchr_from_None.
  intros i Hi. specialize (Hbefore i). rewrite store_ne in Hbefore by lia.
  apply Hbefore. lia.
Qed.

(** C10, failing input.  [str] is the address 17 (1 modulo 16) of the
    three bytes a, newline, b: [memchr] returns the address 18 of the
    newline, [memchrSSE2] returns 19, the address of the b.  The memory
    is as before the call. *)
Lemma memchrSSE2_unaligned_hit :
  let m := store_bytes zero_memory 17 [ "a"; NL; "b" ]%char in
  memchr m 17 10 3 = Some 18 /\ memchrSSE2 m 17 10 3 = Some (m, Some 19).
Proof.
  cbv zeta. split; [reflexivity|].
  rewrite memchrSSE2_spec by lia. reflexivity.
Qed.

(** ** Strings held in memory *)

Lemma holds_nil m a : holds m a [].
Proof. reflexivity. Qed.

Lemma holds_cons m a x l : holds m a (x :: l) <-> m a = x /\ holds m (a + 1) l.
Proof.
  unfold holds. cbn [length load_bytes]. split.
  - intros H. injection H as H1 H2. auto.
  - intros [H1 H2]. now rewrite H1, H2.
Qed.

Lemma holds_app m a l1 l2 :
  holds m a (l1 ++ l2) <-> holds m a l1 /\ holds m (a + Z.of_nat (length l1)) l2.
Proof.
  unfold holds. rewrite length_app, load_bytes_app. split.
  - intros H. apply app_inj_1 in H; [assumption|]. apply load_bytes_length.
  - intros [H1 H2]. now rewrite H1, H2.
Qed.

Lemma holds_load m a n : holds m a (load_bytes m a n).
Proof. unfold holds. now rewrite load_bytes_length. Qed.

Lemma holds_ext m m' a l :
  (forall i, 0 <= i < Z.of_nat (length l) -> m' (a + i) = m (a + i)) ->
  holds m a l -> holds m' a l.
Proof.
  unfold holds. intros He H. rewrite <- H at 2. apply load_bytes_ext. assumption.
Qed.

Lemma holds_store m a l x v :
  x < a \/ a + Z.of_nat (length l) <= x -> holds m a l -> holds (store m x v) a l.
Proof.
  intros Hx. apply holds_ext. intros i Hi. apply store_ne. lia.
Qed.

Lemma store_bytes_in m a data i :
  0 <= i < Z.of_nat (length data) ->
  store_bytes m a data (a + i) = nth (Z.to_nat i) data NUL.
Proof.
  intros Hi. unfold store_bytes.
  destruct (Z.leb_spec a (a + i)); [|lia].
  destruct (Z.ltb_spec (a + i) (a + Z.of_nat (length data))); [|lia].
  cbn [andb]. f_equal. lia.
Qed.

Lemma store_bytes_out m a data x :
  x < a \/ a + Z.of_nat (length data) <= x -> store_bytes m a data x = m x.
Proof.
  intros Hx. unfold store_bytes.
  destruct (Z.leb_spec a x); destruct (Z.ltb_spec x (a + Z.of_nat (length data)));
    cbn [andb]; try reflexivity. lia.
Qed.

Lemma holds_store_bytes m a data : holds (store_bytes m a data) a data.
Proof.
  unfold holds. revert m a. induction data as [|x data IH]; intros m a; [reflexivity|].
  cbn [length load_bytes]. f_equal.
  - replace a with (a + 0) at 2 by lia. rewrite store_bytes_in by (cbn [length]; lia).
    reflexivity.
  - transitivity (load_bytes (store_bytes m (a + 1) data) (a + 1) (length data));
      [|apply IH].
    apply load_bytes_ext. intros i Hi.
    replace (a + 1 + i) with (a + (i + 1)) by lia.
    rewrite store_bytes_in by (cbn [length]; lia).
    replace (a + (i + 1)) with (a + 1 + i) by lia.
    rewrite store_bytes_in by lia.
    replace (Z.to_nat (i + 1)) with (S (Z.to_nat i)) by lia. reflexivity.
Qed.

Lemma holds_store_bytes_out m a data b l :
  b + Z.of_nat (length l) <= a \/ a + Z.of_nat (length data) <= b ->
  holds m b l -> holds (store_bytes m a data) b l.
Proof.
  intros Hx. apply holds_ext. intros i Hi. apply store_bytes_out. lia.
Qed.

Lemma store_bytes_nil m a : store_bytes m a [] = m.
Proof.
  apply functional_extensionality. intros x. apply store_bytes_out. cbn [length]. lia.
Qed.

(** A held string without the byte and without NUL: [strchr] passes it. *)
Lemma strchr_holds fuel m s c x tail :
  holds m s (x ++ c :: tail) -> c ∉ x -> NUL ∉ x -> (length x < fuel)%nat ->
  strchr fuel m s c = Some (s + Z.of_nat (length x)).
Proof.
  revert fuel s. induction x as [|y x IH]; intros fuel s Hh Hc Hn Hf.
  - destruct fuel; [cbn in Hf; lia|]. cbn [app] in Hh. apply holds_cons in Hh.
    destruct Hh as [Hh _]. cbn [strchr length]. rewrite Hh, Ascii.eqb_refl.
    f_equal. lia.
  - destruct fuel; [cbn in Hf; lia|]. cbn [app] in Hh. apply holds_cons in Hh.
    destruct Hh as [Hy Hh]. cbn [strchr]. rewrite Hy.
    apply not_elem_of_cons in Hc. destruct Hc as [Hc1 Hc2].
    apply not_elem_of_cons in Hn. destruct Hn as [Hn1 Hn2].
    destruct (Ascii.eqb_spec y c); [congruence|].
    destruct (Ascii.eqb_spec y NUL); [congruence|].
    rewrite (IH fuel (s + 1)); try assumption; [|cbn [length] in Hf; lia].
    f_equal. cbn [length]. lia.
Qed.

Lemma cstring_holds fuel m s x :
  holds m s (x ++ [NUL]) -> NUL ∉ x -> (length x < fuel)%nat -> cstring fuel m s = x.
Proof.
  revert fuel s. induction x as [|y x IH]; intros fuel s Hh Hn Hf.
  - destruct fuel; [cbn in Hf; lia|]. cbn [app] in Hh. apply holds_cons in Hh.
    destruct Hh as [Hh _]. cbn [cstring]. now rewrite Hh.
  - destruct fuel; [cbn in Hf; lia|]. cbn [app] in Hh. apply holds_cons in Hh.
    destruct Hh as [Hy Hh]. cbn [cstring]. rewrite Hy.
    apply not_elem_of_cons in Hn. destruct Hn as [Hn1 Hn2].
    destruct (Ascii.eqb_spec y NUL); [congruence|].
    f_equal. apply IH; try assumption. cbn [length] in Hf. lia.
Qed.

Lemma cstring_prefix fuel m s x :
  holds m s x -> NUL ∉ x -> (length x <= fuel)%nat ->
  exists t, cstring fuel m s = x ++ t.
Proof.
  revert fuel s. induction x as [|y x IH]; intros fuel s Hh Hn Hf.
  - eexists. reflexivity.
  - destruct fuel; [cbn in Hf; lia|]. apply holds_cons in Hh.
    destruct Hh as [Hy Hh]. cbn [cstring]. rewrite Hy.
    apply not_elem_of_cons in Hn. destruct Hn as [Hn1 Hn2].
    destruct (Ascii.eqb_spec y NUL); [congruence|].
    destruct (IH fuel (s + 1)) as [t Ht]; try assumption; [cbn [length] in Hf; lia|].
    exists t. now rewrite Ht.
Qed.

(** One field of a record: [strchr] finds the separator after it, and
    once the separator is overwritten with NUL the field is the C string
    at its start. *)
Lemma scan_field fuel m start sep x tail :
  holds m start (x ++ sep :: tail) -> sep ∉ x -> NUL ∉ x -> (length x < fuel)%nat ->
  strchr fuel m start sep = Some (start + Z.of_nat (length x)) /\
  cstring fuel (store m (start + Z.of_nat (length x)) NUL) start = x /\
  holds (store m (start + Z.of_nat (length x)) NUL) (start + Z.of_nat (length x) + 1) tail.
Proof.
  intros Hh Hs Hn Hf. split; [eapply strchr_holds; eassumption|].
  apply holds_app in Hh. destruct Hh as [Hx Ht]. apply holds_cons in Ht.
  destruct Ht as [_ Ht]. split.
  - apply cstring_holds; try assumption. apply holds_app. split.
    + apply holds_store; [lia|assumption].
    + apply holds_cons. split; [apply store_eq|apply holds_nil].
  - apply holds_store; [lia|assumption].
Qed.


(** ** Decimal numbers: [%d] read back by [atoi] and [atol] *)

Lemma digit_char_spec d :
  0 <= d <= 9 -> isdigit (digit_char d) = true /\ digit_val (digit_char d) = d.
Proof.
  intros H.
  assert (Hc : d = 0 \/ d = 1 \/ d = 2 \/ d = 3 \/ d = 4 \/ d = 5 \/ d = 6 \/ d = 7 \/
               d = 8 \/ d = 9) by lia.
  repeat (destruct Hc as [->|Hc]; [split; reflexivity|]). subst d. split; reflexivity.
Qed.

Lemma dec_digits_spec fuel : forall n acc,
  0 <= n < 2 ^ Z.of_nat fuel -> (0 < fuel)%nat ->
  exists ds, dec_digits fuel n acc = ds ++ acc /\ ds <> [] /\
    Forall (fun c => isdigit c = true) ds /\
    forall v tail, scan_digits v (ds ++ tail)
                   = scan_digits (v * 10 ^ Z.of_nat (length ds) + n) tail.
Proof.
  induction fuel as [|fuel IH]; intros n acc Hn Hf; [lia|].
  cbn [dec_digits]. cbv zeta.
  assert (Hd : 0 <= n mod 10 <= 9) by (pose proof (Z.mod_pos_bound n 10); lia).
  destruct (digit_char_spec _ Hd) as [Hisd Hval].
  destruct (Z.eqb_spec (n / 10) 0) as [Hz|Hnz].
  - exists [digit_char (n mod 10)]. split; [reflexivity|]. split; [discriminate|].
    split; [repeat constructor; assumption|].
    intros v tail. cbn [app scan_digits length]. rewrite Hisd, Hval.
    f_equal. pose proof (Z.div_mod n 10). change (Z.of_nat 1) with 1. lia.
  - assert (Hdiv : 0 < n / 10).
    { assert (0 <= n / 10) by (apply Z.div_pos; lia). lia. }
    assert (Hn10 : 10 <= n).
    { destruct (Z_lt_dec n 10); [|lia]. rewrite Z.div_small in Hdiv; lia. }
    rewrite Nat2Z.inj_succ, Z.pow_succ_r in Hn by lia.
    assert (Hf' : (0 < fuel)%nat).
    { destruct fuel; [|lia]. change (2 ^ Z.of_nat 0) with 1 in Hn. lia. }
    assert (Hlt : n / 10 < 2 ^ Z.of_nat fuel).
    { apply Z.div_lt_upper_bound; lia. }
    destruct (IH (n / 10) (digit_char (n mod 10) :: acc)) as (ds & Heq & Hne & Hall & Hscan);
      [lia|assumption|].
    exists (ds ++ [digit_char (n mod 10)]). split.
    { rewrite Heq, <- app_assoc. reflexivity. }
    split. { destruct ds; discriminate. }
    split. { apply Forall_app. split; [assumption|repeat constructor; assumption]. }
    intros v tail. rewrite <- app_assoc. cbn [app]. rewrite Hscan.
    cbn [scan_digits]. rewrite Hisd, Hval. f_equal.
    rewrite length_app, Nat2Z.inj_add. cbn [length]. change (Z.of_nat 1) with 1.
    rewrite Z.pow_add_r, Z.pow_1_r by lia.
    pose proof (Z.div_mod n 10). lia.
Qed.

Lemma fmt_d_spec z :
  exists ds, fmt_d z = (if z <? 0 then ["-"%char] else []) ++ ds /\ ds <> [] /\
    Forall (fun c => isdigit c = true) ds /\
    forall tail, scan_digits 0 (ds ++ tail) = scan_digits (Z.abs z) tail.
Proof.
  unfold fmt_d. cbv zeta.
  destruct (dec_digits_spec (S (Z.to_nat (Z.log2 (Z.abs z)))) (Z.abs z) [])
    as (ds & Heq & Hne & Hall & Hscan).
  - split; [lia|]. rewrite Nat2Z.inj_succ, Z2Nat.id by apply Z.log2_nonneg.
    destruct (Z.eq_dec (Z.abs z) 0) as [->|Hnz]; [reflexivity|].
    apply Z.log2_spec. lia.
  - lia.
  - exists ds. rewrite Heq, app_nil_r. split; [destruct (z <? 0); reflexivity|].
    split; [assumption|]. split; [assumption|].
    intros tail. rewrite Hscan. f_equal; lia.
Qed.

Lemma fmt_d_chars z : Forall is_dec_char (fmt_d z).
Proof.
  destruct (fmt_d_spec z) as (ds & Heq & _ & Hall & _). rewrite Heq.
  apply Forall_app. split.
  - destruct (z <? 0); [constructor; [now right|constructor]|constructor].
  - eapply Forall_impl; [eassumption|]. intros c Hc. now left.
Qed.

Lemma is_dec_char_not c x :
  isdigit x = false -> x <> "-"%char -> is_dec_char c -> c <> x.
Proof. intros Hd Hm [H| ->]; congruence. Qed.

Lemma dec_chars_not_in l x :
  isdigit x = false -> x <> "-"%char -> Forall is_dec_char l -> x ∉ l.
Proof.
  intros Hd Hm Hall Hin. rewrite Forall_forall in Hall.
  apply (is_dec_char_not x x Hd Hm); [|reflexivity]. apply Hall. assumption.
Qed.

Lemma scan_digits_stop v tail : no_digit_head tail -> scan_digits v tail = (v, tail).
Proof. destruct tail as [|c tail]; cbn; [reflexivity|]. now intros ->. Qed.

Lemma strtol10_fmt_d z tail :
  no_digit_head tail -> strtol10 (fmt_d z ++ tail) = Some (clamp_long z, tail).
Proof.
  intros Ht. destruct (fmt_d_spec z) as (ds & Heq & Hne & Hall & Hscan).
  rewrite Heq. unfold strtol10.
  destruct ds as [|d ds]; [congruence|].
  pose proof (Forall_inv Hall) as Hd.
  assert (Hsp : forall c, isdigit c = true -> isspace c = false).
  { intros c. destruct c as [[] [] [] [] [] [] [] []]; vm_compute; congruence. }
  assert (Hsg : forall c, isdigit c = true -> c <> "-"%char /\ c <> "+"%char).
  { intros c Hc. split; intros ->; discriminate. }
  destruct (Z.ltb_spec z 0) as [Hneg|Hpos].
  - cbn [app skip_space]. change (isspace "-") with false. cbv iota.
    change (Ascii.eqb "-" "-") with true. cbv iota.
    rewrite Hd. specialize (Hscan tail). cbn [app] in Hscan. rewrite Hscan.
    rewrite scan_digits_stop by assumption. do 3 f_equal. lia.
  - cbn [app skip_space]. rewrite (Hsp _ Hd).
    destruct (Hsg _ Hd) as [H1 H2].
    destruct (Ascii.eqb_spec d "-"); [congruence|].
    destruct (Ascii.eqb_spec d "+"); [congruence|].
    rewrite Hd. specialize (Hscan tail). cbn [app] in Hscan. rewrite Hscan.
    rewrite scan_digits_stop by assumption. do 3 f_equal. lia.
Qed.

Lemma clamp_long_id z : is_long z -> clamp_long z = z.
Proof. unfold is_long, clamp_long. lia. Qed.

Lemma wrap_int32_id z : is_int z -> wrap_int32 z = z.
Proof.
  unfold is_int, wrap_int32. intros H. rewrite Z.mod_small; lia.
Qed.

Lemma is_int_long z : is_int z -> is_long z.
Proof. unfold is_int, is_long, LONG_MIN, LONG_MAX. lia. Qed.

Lemma atol_fmt_d z : is_long z -> atol (fmt_d z) = z.
Proof.
  intros H. unfold atol. rewrite <- (app_nil_r (fmt_d z)), strtol10_fmt_d by exact I.
  now apply clamp_long_id.
Qed.

Lemma atoi_fmt_d z : is_int z -> atoi (fmt_d z) = z.
Proof.
  intros H. unfold atoi. rewrite atol_fmt_d by now apply is_int_long.
  now apply wrap_int32_id.
Qed.

Lemma sscanf_kFileSignature_spec v t :
  is_int v -> sscanf_kFileSignature (kFileSignature v ++ t) = Some v.
Proof.
  intros Hv. unfold sscanf_kFileSignature, kFileSignature.
  rewrite <- !app_assoc.
  change (scanf_literal (lit "# ninja log v") (lit "# ninja log v" ++ fmt_d v ++ [NL] ++ t))
    with (Some (fmt_d v ++ [NL] ++ t)).
  cbv iota beta. rewrite strtol10_fmt_d by reflexivity.
  rewrite clamp_long_id, wrap_int32_id; auto using is_int_long.
Qed.


(** ** [Load]: one record *)

Lemma holds_load_exact m a l : holds m a l -> load_bytes m a (length l) = l.
Proof. exact (fun H => H). Qed.

Lemma Load_process_record buf m file ls be v unique total log f1 f2 f3 out cmd :
  let sep := field_separator v in
  let line := record_line sep f1 f2 f3 out cmd in
  let le := ls + Z.of_nat (length line) - 1 in
  v <> 0 ->
  holds m ls line -> buf <= ls -> le < buf + sizeof_buf ->
  sep ∉ f1 -> NUL ∉ f1 -> sep ∉ f2 -> NUL ∉ f2 -> sep ∉ f3 -> NUL ∉ f3 ->
  sep ∉ out -> NUL ∉ out ->
  exists m',
    Load_process_line buf (mkLoadState m file ls (Some le) be v unique total log)
    = Continue (mkLoadState m' file ls (Some le) be v (count_unique log out unique)
                  (wrap_int32 (total + 1))
                  (log_assign log out cmd (atoi f1) (atoi f2) (atol f3)))
    /\ forall a, le <= a -> m' a = m a.
Proof.
  intros sep line le Hv Hh Hbuf Hle Hs1 Hn1 Hs2 Hn2 Hs3 Hn3 Hs4 Hn4.
  assert (Hlen : Z.of_nat (length line) =
                 Z.of_nat (length f1) + Z.of_nat (length f2) + Z.of_nat (length f3)
                 + Z.of_nat (length out) + Z.of_nat (length cmd) + 5).
  { unfold line, record_line. repeat (rewrite length_app || cbn [length]). lia. }
  unfold Load_process_line.
  destruct (Z.eqb_spec v 0) as [|_]; [contradiction|].
  fold (field_separator v). fold sep.
  unfold line, record_line in Hh.
  (* first field *)
  destruct (scan_field (scan_fuel buf ls) m ls sep f1 _ Hh Hs1 Hn1) as (E1 & C1 & H1).
  { unfold scan_fuel. lia. }
  rewrite E1, C1. set (m1 := store m _ NUL) in *.
  set (s2 := ls + Z.of_nat (length f1) + 1) in *.
  (* second field *)
  destruct (scan_field (scan_fuel buf s2) m1 s2 sep f2 _ H1 Hs2 Hn2) as (E2 & C2 & H2).
  { unfold scan_fuel, s2. lia. }
  rewrite E2, C2. set (m2 := store m1 _ NUL) in *.
  set (s3 := s2 + Z.of_nat (length f2) + 1) in *.
  (* third field *)
  destruct (scan_field (scan_fuel buf s3) m2 s3 sep f3 _ H2 Hs3 Hn3) as (E3 & C3 & H3).
  { unfold scan_fuel, s3, s2. lia. }
  rewrite E3, C3. set (m3 := store m2 _ NUL) in *.
  set (s4 := s3 + Z.of_nat (length f3) + 1) in *.
  (* output *)
  rewrite (strchr_holds (scan_fuel buf s4) m3 s4 sep out _ H3 Hs4 Hn4)
    by (unfold scan_fuel, s4, s3, s2; lia).
  apply holds_app in H3. destruct H3 as [Hout H4].
  apply holds_cons in H4. destruct H4 as [_ H4].
  apply holds_app in H4. destruct H4 as [Hcmd _].
  replace (Z.to_nat (s4 + Z.of_nat (length out) - s4)) with (length out) by lia.
  rewrite (holds_load_exact _ _ _ Hout).
  set (s5 := s4 + Z.of_nat (length out) + 1) in *.
  assert (Hcl : le - s5 = Z.of_nat (length cmd)) by (unfold le, s5, s4, s3, s2; lia).
  rewrite Hcl. destruct (Z.ltb_spec (Z.of_nat (length cmd)) 0) as [|_]; [lia|].
  rewrite Nat2Z.id, (holds_load_exact _ _ _ Hcmd).
  exists m3. split.
  - unfold count_unique, log_assign.
    destruct (log !! out) as [entry|] eqn:Hlook; cbn [output].
    + reflexivity.
    + rewrite insert_insert_eq. reflexivity.
  - intros a Ha. unfold m3, m2, m1.
    rewrite !store_ne by (unfold s3, s2 in *; lia). reflexivity.
Qed.

(** With no line end the line is skipped, whatever the scans find. *)
Lemma Load_process_no_line buf m file ls be v unique total log :
  v <> 0 ->
  exists m',
    Load_process_line buf (mkLoadState m file ls None be v unique total log)
    = Continue (mkLoadState m' file ls None be v unique total log).
Proof.
  intros Hv. unfold Load_process_line.
  destruct (Z.eqb_spec v 0) as [|_]; [contradiction|].
  repeat match goal with
         | |- context [match strchr ?f ?m ?s ?c with _ => _ end] =>
             destruct (strchr f m s c)
         end; eexists; reflexivity.
Qed.


(** ** [Load]: the scanner on lines *)

Lemma holds_nth m a l i :
  holds m a l -> (i < length l)%nat -> m (a + Z.of_nat i) = nth i l NUL.
Proof.
  revert a i. induction l as [|x l IH]; intros a i Hh Hi; [cbn in Hi; lia|].
  apply holds_cons in Hh. destruct Hh as [Hx Hh]. destruct i as [|i].
  - cbn [nth]. now rewrite Z.add_0_r.
  - cbn [nth]. rewrite <- (IH (a + 1) i Hh) by (cbn [length] in Hi; lia).
    f_equal. lia.
Qed.

Lemma holds_elem m a l i :
  holds m a l -> 0 <= i < Z.of_nat (length l) -> m (a + i) ∈ l.
Proof.
  intros Hh Hi. replace i with (Z.of_nat (Z.to_nat i)) by lia.
  rewrite (holds_nth m a l) by (assumption || lia).
  apply list_elem_of_In, nth_In. lia.
Qed.

Lemma memchr_holds m a c n body tail :
  holds m a (body ++ char_of_int c :: tail) -> char_of_int c ∉ body ->
  Z.of_nat (length body) < n ->
  memchr m a c n = Some (a + Z.of_nat (length body)).
Proof.
  intros Hh Hc Hn. unfold memchr. apply holds_app in Hh. destruct Hh as [Hb Ht].
  apply holds_cons in Ht. destruct Ht as [Ht _].
  apply memchr_from_Some; [lia|assumption|].
  intros i Hi Heq. apply Hc. rewrite <- Heq. apply (holds_elem m a body); [assumption|lia].
Qed.

Lemma memchr_holds_none m a c l :
  holds m a l -> char_of_int c ∉ l -> memchr m a c (Z.of_nat (length l)) = None.
Proof.
  intros Hh Hc. unfold memchr. apply memchr_from_None.
  intros i Hi Heq. apply Hc. rewrite <- Heq. apply (holds_elem m a l); [assumption|lia].
Qed.

(** The scanner finds the end of a line that starts at an aligned address
    or has at least 15 bytes before its newline. *)
Lemma scan_line m a body tail n :
  holds m a (body ++ NL :: tail) -> NL ∉ body ->
  Z.land a 15 = 0 \/ (15 <= length body)%nat ->
  n = Z.of_nat (length (body ++ NL :: tail)) ->
  memchrSSE2 m a 10 n = Some (m, Some (a + Z.of_nat (length body))).
Proof.
  intros Hh Hnl Hal ->. rewrite length_app in *. cbn [length].
  rewrite memchrSSE2_correct.
  - rewrite (memchr_holds m a 10 _ body tail); try assumption; [reflexivity|lia].
  - lia.
  - destruct Hal as [Hal|Hlong]; [now left|].
    destruct (Z.eq_dec (Z.land a 15) 0) as [Hz|Hnz]; [now left|]. right.
    intros i Hi Heq. change (char_of_int 10) with NL in Heq.
    assert (Hu : 0 <= Z.land a 15 < 16)
      by (rewrite land_15; apply Z.mod_pos_bound; lia).
    apply Hnl. rewrite <- Heq. apply holds_app in Hh. destruct Hh as [Hb _].
    apply (holds_elem m a body); [assumption|lia].
Qed.

(** On a piece of a line without its newline the scanner finds nothing. *)
Lemma scan_partial m a l :
  holds m a l -> NL ∉ l -> memchrSSE2 m a 10 (Z.of_nat (length l)) = Some (m, None).
Proof.
  intros Hh Hnl. rewrite memchrSSE2_correct.
  - now rewrite (memchr_holds_none m a 10 l).
  - lia.
  - right. intros i Hi Heq. apply Hnl. change (char_of_int 10) with NL in Heq.
    rewrite <- Heq. apply (holds_elem m a l); [assumption|lia].
Qed.


Lemma sizeof_buf_pos : 0 < sizeof_buf.
Proof. reflexivity. Qed.

Lemma fread_line buf m D b2 rest :
  holds m buf D -> Z.land buf 15 = 0 -> NL ∉ D -> NL ∉ b2 ->
  Z.of_nat (length D) + Z.of_nat (length b2) + 1 <= sizeof_buf ->
  exists m2 read f2,
    fread m (buf + Z.of_nat (length D)) (sizeof_buf - Z.of_nat (length D)) (b2 ++ NL :: rest)
    = (read, m2, f2)
    /\ Z.of_nat (length b2) < read /\ Z.of_nat (length D) + read <= sizeof_buf
    /\ holds m2 buf (D ++ b2 ++ [NL])
    /\ memchrSSE2 m2 buf 10 (Z.of_nat (length D) + read)
       = Some (m2, Some (buf + Z.of_nat (length (D ++ b2))))
    /\ load_bytes m2 (buf + Z.of_nat (length (D ++ b2)) + 1)
         (Z.to_nat (Z.of_nat (length D) + read - (Z.of_nat (length (D ++ b2)) + 1))) ++ f2
       = rest.
Proof.
  intros HD Hal HnD Hnb Hsz. unfold fread.
  set (N := Z.to_nat (sizeof_buf - Z.of_nat (length D))).
  set (k := (N - length (b2 ++ [NL]))%nat).
  assert (Hlen1 : length (b2 ++ [NL]) = S (length b2))
    by (rewrite length_app; cbn [length]; lia).
  assert (HN : (length (b2 ++ [NL]) <= N)%nat) by (unfold N; lia).
  assert (Htake : take N (b2 ++ NL :: rest) = (b2 ++ [NL]) ++ take k rest).
  { replace (b2 ++ NL :: rest) with ((b2 ++ [NL]) ++ rest) by now rewrite <- app_assoc.
    now rewrite take_app_ge. }
  assert (Hdrop : drop N (b2 ++ NL :: rest) = drop k rest).
  { replace (b2 ++ NL :: rest) with ((b2 ++ [NL]) ++ rest) by now rewrite <- app_assoc.
    now rewrite drop_app_ge. }
  rewrite Htake, Hdrop.
  set (data := (b2 ++ [NL]) ++ take k rest).
  set (m2 := store_bytes m (buf + Z.of_nat (length D)) data).
  assert (Hdl : length data = (S (length b2) + length (take k rest))%nat)
    by (unfold data; rewrite length_app, Hlen1; reflexivity).
  assert (Hk : (length (take k rest) <= k)%nat) by (rewrite length_take; lia).
  assert (Hall : holds m2 buf (D ++ data)).
  { apply holds_app. split.
    - apply holds_store_bytes_out; [lia|assumption].
    - apply holds_store_bytes. }
  exists m2, (Z.of_nat (length data)), (drop k rest).
  split; [reflexivity|]. split; [lia|]. split; [unfold k, N in *; lia|].
  assert (Hshape : D ++ data = (D ++ b2) ++ NL :: take k rest).
  { unfold data. rewrite <- !app_assoc. reflexivity. }
  split.
  { rewrite Hshape in Hall. apply holds_app in Hall. destruct Hall as [H1 H2].
    rewrite app_assoc. apply holds_app. split; [assumption|].
    apply holds_cons in H2. destruct H2 as [H2 _].
    apply holds_cons. split; [assumption|apply holds_nil]. }
  split.
  { apply (scan_line m2 buf (D ++ b2) (take k rest)).
    - now rewrite <- Hshape.
    - intros Hin. apply elem_of_app in Hin. destruct Hin; contradiction.
    - now left.
    - rewrite <- Hshape, length_app. lia. }
  rewrite Hshape in Hall. apply holds_app in Hall. destruct Hall as [_ H2].
  apply holds_cons in H2. destruct H2 as [_ H2].
  replace (Z.to_nat _) with (length (take k rest))
    by (rewrite Hdl, length_app; lia).
  rewrite (holds_load_exact _ _ _ H2). apply take_drop.
Qed.

(** "Get next line." on a state whose pending bytes start with a line
    that fits the buffer: the line is found, in place or after the rest
    of it has been read behind the part moved to the start of [buf]. *)
Lemma Load_step_get_line buf st body rest :
  Z.land buf 15 = 0 -> wf_state buf st ->
  pending st = body ++ NL :: rest -> NL ∉ body ->
  Z.of_nat (length body) + 1 <= sizeof_buf ->
  line_end st = None \/ (15 <= length body)%nat ->
  exists m1 f1 ls be,
    Load_step buf st =
    Load_process_line buf
      (mkLoadState m1 f1 ls (Some (ls + Z.of_nat (length body))) be (log_version st)
                   (unique_entry_count st) (total_entry_count st) (log st))
    /\ holds m1 ls (body ++ [NL])
    /\ buf <= ls /\ ls + Z.of_nat (length body) < be <= buf + sizeof_buf
    /\ load_bytes m1 (ls + Z.of_nat (length body) + 1)
         (Z.to_nat (be - (ls + Z.of_nat (length body) + 1))) ++ f1 = rest
    /\ (line_end st = None -> ls = buf).
Proof.
  intros Hal Hwf Hpend Hnl Hsz Hlong.
  destruct st as [m f ls0 le0 be0 v u t lg].
  unfold pending, wf_state in *. cbn [line_end mem file buf_end line_start] in *.
  cbn [log_version unique_entry_count total_entry_count log].
  pose proof sizeof_buf_pos as Hpos.
  destruct le0 as [le0|].
  - (* a line was found in the previous iteration *)
    destruct Hlong as [Hlong|Hlong]; [discriminate|].
    destruct Hwf as [[Hw1 Hw2] [Hw3 Hw4]].
    unfold Load_step.
    destruct (Z.geb_spec ls0 be0) as [|_]; [lia|].
    rewrite bool_decide_eq_true_2 by eauto. cbn [orb negb default]. unfold id.
    set (D := load_bytes m (le0 + 1) (Z.to_nat (be0 - (le0 + 1)))) in *.
    assert (HD : holds m (le0 + 1) D) by apply holds_load.
    assert (HDl : Z.of_nat (length D) = be0 - (le0 + 1))
      by (unfold D; rewrite load_bytes_length; lia).
    rewrite <- HDl.
    apply app_eq_app in Hpend. destruct Hpend as [d [[HDeq Hrest]|[Hbody Hfile]]].
    + (* the whole line is in the buffer *)
      destruct d as [|x d].
      * (* ... all but its newline *)
        rewrite app_nil_r in HDeq. cbn [app] in Hrest. subst f. subst body.
        rewrite (scan_partial m (le0 + 1) D) by assumption.
        cbv zeta.
        replace (be0 - buf - (le0 + 1 - buf)) with (Z.of_nat (length D)) by lia.
        unfold memmove. rewrite Nat2Z.id, (holds_load_exact _ _ _ HD).
        destruct (fread_line buf (store_bytes m buf D) D [] rest)
          as (m2 & read & f2 & Hfr & Hr1 & Hr2 & Hh & Hscan & Hrem);
          try assumption.
        { apply holds_store_bytes. } { apply not_elem_of_nil. }
        { cbn [length]. lia. }
        cbn [app] in Hfr. rewrite Hfr.
        replace (buf + Z.of_nat (length D) + read - buf)
          with (Z.of_nat (length D) + read) by lia.
        rewrite Hscan. rewrite app_nil_r in *. cbn [app] in Hh.
        exists m2, f2, buf, (buf + Z.of_nat (length D) + read).
        split; [reflexivity|]. split; [assumption|].
        split; [lia|]. split; [lia|].
        split; [|discriminate].
        rewrite <- Hrem. do 2 f_equal. lia.
      * cbn [app] in Hrest. injection Hrest as Hx Hr. subst x rest.
        rewrite (scan_line m (le0 + 1) body d); try assumption.
        -- exists m, f, (le0 + 1), be0. split; [reflexivity|].
           rewrite HDeq in HD. apply holds_app in HD. destruct HD as [Hb Ht].
           apply holds_cons in Ht. destruct Ht as [Ht1 Ht2].
           split. { apply holds_app. split; [assumption|].
                    apply holds_cons. split; [assumption|apply holds_nil]. }
           assert (Hl : length D = (length body + S (length d))%nat)
             by (rewrite HDeq, length_app; reflexivity).
           split; [lia|]. split; [lia|].
           split; [|discriminate].
           replace (Z.to_nat _) with (length d) by lia.
           now rewrite (holds_load_exact _ _ _ Ht2).
        -- now rewrite <- HDeq.
        -- now right.
        -- now rewrite HDeq.
    + (* the line ends in the part of the file not yet read *)
      destruct d as [|x d].
      * rewrite app_nil_r in Hbody. cbn [app] in Hfile. subst f. subst body.
        rewrite (scan_partial m (le0 + 1) D) by assumption.
        cbv zeta.
        replace (be0 - buf - (le0 + 1 - buf)) with (Z.of_nat (length D)) by lia.
        unfold memmove. rewrite Nat2Z.id, (holds_load_exact _ _ _ HD).
        destruct (fread_line buf (store_bytes m buf D) D [] rest)
          as (m2 & read & f2 & Hfr & Hr1 & Hr2 & Hh & Hscan & Hrem);
          try assumption.
        { apply holds_store_bytes. } { apply not_elem_of_nil. }
        { cbn [length]. lia. }
        cbn [app] in Hfr. rewrite Hfr.
        replace (buf + Z.of_nat (length D) + read - buf)
          with (Z.of_nat (length D) + read) by lia.
        rewrite Hscan. rewrite app_nil_r in *. cbn [app] in Hh.
        exists m2, f2, buf, (buf + Z.of_nat (length D) + read).
        split; [reflexivity|]. split; [assumption|].
        split; [lia|]. split; [lia|].
        split; [|discriminate].
        rewrite <- Hrem. do 2 f_equal. lia.
      * assert (HnD : NL ∉ D).
        { intros Hin. apply Hnl. rewrite Hbody. apply elem_of_app. now left. }
        assert (Hnd : NL ∉ x :: d).
        { intros Hin. apply Hnl. rewrite Hbody. apply elem_of_app. now right. }
        rewrite Hfile.
        rewrite (scan_partial m (le0 + 1) D) by assumption.
        cbv zeta.
        replace (be0 - buf - (le0 + 1 - buf)) with (Z.of_nat (length D)) by lia.
        unfold memmove. rewrite Nat2Z.id, (holds_load_exact _ _ _ HD).
        destruct (fread_line buf (store_bytes m buf D) D (x :: d) rest)
          as (m2 & read & f2 & Hfr & Hr1 & Hr2 & Hh & Hscan & Hrem);
          try assumption.
        { apply holds_store_bytes. }
        { rewrite Hbody, length_app in Hsz. lia. }
        rewrite Hfr.
        replace (buf + Z.of_nat (length D) + read - buf)
          with (Z.of_nat (length D) + read) by lia.
        rewrite app_assoc in Hh. rewrite <- Hbody in Hh, Hscan, Hrem. rewrite Hscan.
        exists m2, f2, buf, (buf + Z.of_nat (length D) + read).
        split; [reflexivity|]. split; [assumption|].
        assert (Hl : length body = (length D + S (length d))%nat)
          by (rewrite Hbody, length_app; reflexivity).
        cbn [length] in Hr1.
        split; [lia|]. split; [lia|].
        split; [|discriminate].
        rewrite <- Hrem. do 2 f_equal. lia.
  - (* the buffer is refilled *)
    unfold Load_step. rewrite bool_decide_eq_false_2 by (intros [? ?]; discriminate).
    rewrite orb_true_r. subst f.
    destruct (fread_line buf m [] body rest (holds_nil _ _) Hal (not_elem_of_nil _) Hnl
                ltac:(cbn [length]; lia))
      as (m2 & read & f2 & Hfr & Hr1 & Hr2 & Hh & Hscan & Hrem).
    cbn [length app] in Hfr, Hr1, Hr2, Hscan, Hrem. change (Z.of_nat 0) with 0 in *.
    rewrite Z.add_0_r, Z.sub_0_r in Hfr. rewrite Hfr.
    destruct (Z.eqb_spec read 0) as [|_]; [lia|].
    replace (buf + read - buf) with (0 + read) by lia. rewrite Hscan.
    exists m2, f2, buf, (buf + read).
    split; [reflexivity|]. split; [assumption|]. split; [lia|]. split; [lia|].
    split; [|reflexivity].
    rewrite <- Hrem. do 2 f_equal. lia.
Qed.


(** ** [Load]: the loop *)

Lemma Load_step_eof buf st :
  line_end st = None -> file st = [] -> Load_step buf st = Break st.
Proof.
  destruct st as [m f ls0 le0 be0 v u t lg]. cbn [line_end file].
  intros -> ->. unfold Load_step.
  rewrite bool_decide_eq_false_2 by (intros [? ?]; discriminate).
  rewrite orb_true_r. unfold fread. rewrite take_nil. reflexivity.
Qed.

(** When the buffer and the file are used up, the next iteration reads
    nothing and finds no line; the one after it leaves the loop. *)
Lemma Load_step_end_buffer buf st le :
  Z.land buf 15 = 0 -> wf_state buf st -> line_end st = Some le -> pending st = [] ->
  log_version st <> 0 ->
  exists m',
    Load_step buf st =
    Continue (mkLoadState m' [] buf None buf (log_version st) (unique_entry_count st)
                          (total_entry_count st) (log st)).
Proof.
  destruct st as [m f ls0 le0 be0 v u t lg].
  unfold wf_state, pending.
  cbn [line_end mem file buf_end line_start log_version unique_entry_count
       total_entry_count log].
  intros Hal Hwf Hle Hp Hv. subst le0. destruct Hwf as [[Hw1 Hw2] [Hw3 Hw4]].
  apply app_eq_nil in Hp. destruct Hp as [HD ->].
  assert (Hbe : be0 = le + 1).
  { apply (f_equal (@length ascii)) in HD. rewrite load_bytes_length in HD.
    cbn [length] in HD. lia. }
  subst be0. unfold Load_step.
  destruct (Z.geb_spec ls0 (le + 1)) as [|_]; [lia|].
  rewrite bool_decide_eq_true_2 by eauto. cbn [orb negb default]. unfold id.
  assert (Hscan : forall a, memchrSSE2 m a 10 0 = Some (m, None)).
  { intros a. apply (scan_partial m a []); [apply holds_nil|apply not_elem_of_nil]. }
  rewrite Z.sub_diag, Hscan.
  cbv zeta. replace (le + 1 - buf - (le + 1 - buf)) with 0 by lia.
  unfold memmove, fread. change (Z.to_nat 0) with 0%nat. cbn [load_bytes].
  rewrite take_nil, drop_nil, !store_bytes_nil. cbn [length].
  change (Z.of_nat 0) with 0. rewrite !Z.add_0_r, Z.sub_diag, Hscan.
  apply Load_process_no_line. assumption.
Qed.

Lemma Load_loop_more fuel buf st st' :
  Load_step buf st = Continue st' -> Load_loop (S fuel) buf st = Load_loop fuel buf st'.
Proof. intros H. cbn [Load_loop]. now rewrite H. Qed.

Lemma sep_cases v :
  let sep := field_separator v in
  sep <> NL /\ isdigit sep = false /\ sep <> "-"%char /\ sep <> NUL.
Proof.
  unfold field_separator. destruct (v >=? 4); repeat split; discriminate.
Qed.

Lemma Load_loop_entries buf v es : forall st fuel,
  Z.land buf 15 = 0 -> v <> 0 -> log_version st = v -> wf_state buf st ->
  pending st = concat (map (entry_line (field_separator v)) es) ->
  Forall (loadable (field_separator v)) es ->
  (length es + 2 <= fuel)%nat ->
  exists st',
    Load_loop fuel buf st = Break st' /\ log_version st' = v /\
    (log st', unique_entry_count st', total_entry_count st')
    = fold_left load_entry es (log st, unique_entry_count st, total_entry_count st).
Proof.
  pose proof (sep_cases v) as Hsep. cbv zeta in Hsep.
  set (sep := field_separator v) in *. destruct Hsep as (HsNL & Hsd & Hsm & HsNUL).
  induction es as [|e es IH]; intros st fuel Hal Hv Hver Hwf Hpend Hall Hfuel.
  - cbn [map concat] in Hpend. cbn [fold_left].
    destruct (line_end st) as [le|] eqn:Hle.
    + destruct (Load_step_end_buffer buf st le Hal Hwf Hle Hpend) as [m' Hstep];
        [congruence|].
      destruct fuel as [|[|fuel]]; [cbn in Hfuel; lia|cbn in Hfuel; lia|].
      rewrite (Load_loop_more _ _ _ _ Hstep). cbn [Load_loop].
      rewrite Load_step_eof by reflexivity.
      eexists. split; [reflexivity|]. cbn. split; [assumption|reflexivity].
    + unfold pending in Hpend. rewrite Hle in Hpend.
      destruct fuel as [|fuel]; [cbn in Hfuel; lia|]. cbn [Load_loop].
      rewrite Load_step_eof by assumption.
      eexists. split; [reflexivity|]. split; [assumption|reflexivity].
  - cbn [map concat] in Hpend. apply Forall_cons in Hall. destruct Hall as [He Hall].
    destruct He as (Hi1 & Hi2 & Hi3 & Ho1 & Ho2 & Ho3 & Hc & Hlen).
    set (f1 := fmt_d (start_time e)) in *. set (f2 := fmt_d (end_time e)) in *.
    set (f3 := fmt_d (restat_mtime e)) in *.
    set (body := f1 ++ sep :: f2 ++ sep :: f3 ++ sep :: output e ++ sep :: command e).
    assert (Hline : entry_line sep e = body ++ [NL]).
    { unfold entry_line, record_line, body. fold f1 f2 f3.
      repeat (rewrite <- app_assoc; cbn [app]). reflexivity. }
    assert (Hf : forall x z, isdigit x = false -> x <> "-"%char -> x ∉ fmt_d z).
    { intros x z H1 H2. apply dec_chars_not_in; auto using fmt_d_chars. }
    assert (Hnl : NL ∉ body).
    { unfold body. intros Hin.
      repeat (apply elem_of_app in Hin; destruct Hin as [Hin|Hin];
              [|apply elem_of_cons in Hin; destruct Hin as [Hin|Hin]; [congruence|]]);
        try contradiction; try (revert Hin; apply Hf; [reflexivity|discriminate]). }
    assert (Hbl : Z.of_nat (length (entry_line sep e)) = Z.of_nat (length body) + 1).
    { rewrite Hline, length_app. cbn [length]. lia. }
    rewrite Hline, <- app_assoc in Hpend. cbn [app] in Hpend.
    destruct (Load_step_get_line buf st body _ Hal Hwf Hpend Hnl)
      as (m1 & fl1 & ls & be & Hstep & Hh & Hb1 & Hb2 & Hrest & _); [lia|right; lia|].
    rewrite <- Hline in Hh.
    assert (Hrl : record_line (field_separator v) f1 f2 f3 (output e) (command e)
                  = entry_line sep e) by reflexivity.
    destruct (Load_process_record buf m1 fl1 ls be v (unique_entry_count st)
                (total_entry_count st) (log st) f1 f2 f3 (output e) (command e))
      as (m' & Hproc & Hsame); try assumption;
      try (apply Hf; assumption).
    { rewrite Hrl. lia. }
    { apply Hf; [reflexivity|discriminate]. }
    { apply Hf; [reflexivity|discriminate]. }
    { apply Hf; [reflexivity|discriminate]. }
    rewrite Hrl in Hproc, Hsame.
    replace (ls + Z.of_nat (length (entry_line sep e)) - 1)
      with (ls + Z.of_nat (length body)) in Hproc, Hsame by lia.
    rewrite Hver in Hstep. rewrite Hproc in Hstep.
    destruct fuel as [|fuel]; [cbn in Hfuel; lia|].
    rewrite (Load_loop_more _ _ _ _ Hstep).
    match goal with |- context [Load_loop fuel buf ?s] => set (st2 := s) end.
    destruct (IH st2 fuel) as (st' & Hloop & Hv' & Hres); try assumption.
    + reflexivity.
    + unfold wf_state, st2. cbn [line_end line_start buf_end]. lia.
    + unfold pending, st2. cbn [line_end mem buf_end file]. rewrite <- Hrest.
      f_equal. apply load_bytes_ext. intros i Hi. apply Hsame. lia.
    + cbn [length] in Hfuel. lia.
    + exists st'. split; [assumption|]. split; [assumption|].
      rewrite Hres. unfold st2. cbn [log unique_entry_count total_entry_count fold_left].
      unfold load_entry at 3. unfold f1, f2, f3.
      rewrite !atoi_fmt_d, atol_fmt_d by assumption. reflexivity.
Qed.


(** ** [Load]: a whole file *)

Lemma dec_digits_length fuel : forall n acc,
  (length (dec_digits fuel n acc) <= fuel + length acc)%nat.
Proof.
  induction fuel as [|fuel IH]; intros n acc; cbn [dec_digits]; [lia|]. cbv zeta.
  destruct (n / 10 =? 0); [cbn [length]; lia|].
  etransitivity; [apply IH|]. cbn [length]. lia.
Qed.

Lemma fmt_d_length v : is_int v -> (length (fmt_d v) <= 33)%nat.
Proof.
  intros [H1 H2]. unfold fmt_d. cbv zeta.
  assert (Hl : Z.log2 (Z.abs v) < 32).
  { destruct (Z.eq_dec (Z.abs v) 0) as [->|Hnz]; [reflexivity|].
    apply Z.log2_lt_pow2; lia. }
  pose proof (Z.log2_nonneg (Z.abs v)).
  pose proof (dec_digits_length (S (Z.to_nat (Z.log2 (Z.abs v)))) (Z.abs v) []) as Hd.
  cbn [length] in Hd. destruct (v <? 0); cbn [length]; lia.
Qed.

Lemma sizeof_buf_val : sizeof_buf = 262144.
Proof. reflexivity. Qed.

Lemma Load_process_signature buf m f le be unique total lg v t :
  is_int v -> holds m buf (kFileSignature v ++ t) ->
  Z.of_nat (length (kFileSignature v)) <= sizeof_buf ->
  Load_process_line buf (mkLoadState m f buf le be 0 unique total lg)
  = Continue (mkLoadState m f buf le be v unique total lg).
Proof.
  intros Hv Hh Hlen. unfold Load_process_line. cbn [Z.eqb].
  apply holds_app in Hh. destruct Hh as [Hh _].
  destruct (cstring_prefix (scan_fuel buf buf) m buf (kFileSignature v) Hh) as [t' Ht'].
  - unfold kFileSignature. intros Hin.
    apply elem_of_app in Hin. destruct Hin as [Hin|Hin].
    + revert Hin. not_in_literal.
    + apply elem_of_app in Hin. destruct Hin as [Hin|Hin].
      * revert Hin. apply dec_chars_not_in; [reflexivity|discriminate|apply fmt_d_chars].
      * apply list_elem_of_singleton in Hin. discriminate.
  - unfold scan_fuel. lia.
  - rewrite Ht', sscanf_kFileSignature_spec by assumption. reflexivity.
Qed.

Lemma concat_lines_length sep es :
  (length es <= length (concat (map (entry_line sep) es)))%nat.
Proof.
  induction es as [|e es IH]; [cbn; lia|].
  cbn [map concat length]. rewrite length_app.
  assert (1 <= length (entry_line sep e))%nat.
  { unfold entry_line, record_line. rewrite !length_app. cbn [length].
    rewrite !length_app. cbn [length]. rewrite !length_app. cbn [length]. lia. }
  lia.
Qed.

(** [Load] on a file that consists of a signature and records that the
    scanner is known to split correctly. *)
Lemma Load_wellformed bl w path buf m0 v es :
  Z.land buf 15 = 0 -> is_int v -> v <> 0 -> path ∉ denied w ->
  files w !! path
  = Some (kFileSignature v ++ concat (map (entry_line (field_separator v)) es)) ->
  Forall (loadable (field_separator v)) es ->
  Load bl w path buf m0 =
  let '(lg, unique, total) := fold_left load_entry es (log_ bl, 0, 0) in
  Returns true None
    {| log_ := lg; log_file_ := log_file_ bl; config_ := config_ bl;
       needs_recompaction_ :=
         if v <? kCurrentVersion then true
         else if (total >? 100) && (total >? wrap_int32 (unique * 3)) then true
              else needs_recompaction_ bl |}.
Proof.
  intros Hal Hv Hv0 Hden Hfile Hall.
  unfold Load, fopen_r. rewrite decide_False by assumption. rewrite Hfile.
  set (content := kFileSignature v ++ _).
  set (st0 := {| mem := m0; file := content; line_start := buf; line_end := None;
                 buf_end := buf; log_version := 0; unique_entry_count := 0;
                 total_entry_count := 0; log := log_ bl |}).
  set (body := lit "# ninja log v" ++ fmt_d v).
  assert (Hsig : kFileSignature v = body ++ [NL]) by reflexivity.
  assert (Hnl : NL ∉ body).
  { unfold body. intros Hin. apply elem_of_app in Hin. destruct Hin as [Hin|Hin].
    - revert Hin. not_in_literal.
    - revert Hin. apply dec_chars_not_in; [reflexivity|discriminate|apply fmt_d_chars]. }
  assert (Hbl : (length body <= 46)%nat).
  { unfold body. rewrite length_app. pose proof (fmt_d_length v Hv).
    cbn [lit length list_ascii_of_string]. lia. }
  pose proof sizeof_buf_val as Hsz.
  destruct (Load_step_get_line buf st0 body
              (concat (map (entry_line (field_separator v)) es)))
    as (m1 & f1 & ls & be & Hstep & Hh & Hb1 & Hb2 & Hrest & Hls); try assumption.
  { exact I. }
  { unfold pending, st0. cbn [line_end file]. unfold content.
    rewrite Hsig, <- app_assoc. reflexivity. }
  { lia. } { now left. }
  specialize (Hls eq_refl). subst ls.
  cbn [log_version unique_entry_count total_entry_count log st0] in Hstep.
  rewrite <- Hsig in Hh.
  rewrite (Load_process_signature buf m1 f1 _ be 0 0 (log_ bl) v [])
    in Hstep; try assumption; [|now rewrite app_nil_r|rewrite Hsig, length_app; cbn [length]; lia].
  pose proof (concat_lines_length (field_separator v) es) as Hcl.
  assert (Hfuel : (2 * length content + 3 = S (2 * length content + 2))%nat) by lia.
  rewrite Hfuel, (Load_loop_more _ _ _ _ Hstep).
  match goal with |- context [Load_loop _ buf ?s] => set (st1 := s) end.
  destruct (Load_loop_entries buf v es st1 (2 * length content + 2)) as (st' & Hloop & Hv' & Hres);
    try assumption.
  - reflexivity.
  - unfold wf_state, st1. cbn [line_end line_start buf_end]. lia.
  - unfold content. rewrite length_app. lia.
  - rewrite Hloop. unfold st1 in Hres.
    cbn [log unique_entry_count total_entry_count] in Hres.
    rewrite <- Hres, Hv'. reflexivity.
Qed.


(** ** [Load]: the loop ends *)

Lemma memchr_from_range m c n : forall a p,
  memchr_from m a c n = Some p -> a <= p < a + Z.of_nat n.
Proof.
  induction n as [|n IH]; intros a p H; [discriminate|].
  cbn [memchr_from] in H. destruct (Ascii.eqb (m a) c).
  - injection H as <-. lia.
  - apply IH in H. lia.
Qed.

(** A pointer returned by the scanner lies in the range it was given,
    also when it is not the one [memchr] returns. *)
Lemma memchrSSE2_range m str c n :
  0 <= n ->
  exists r, memchrSSE2 m str c n = Some (m, r) /\
            forall p, r = Some p -> str <= p < str + n.
Proof.
  intros Hn. rewrite memchrSSE2_spec by assumption. cbv zeta.
  eexists. split; [reflexivity|]. intros p Hp.
  assert (Hu : 0 <= Z.land str 15 < 16)
    by (rewrite land_15; apply Z.mod_pos_bound; lia).
  destruct (if 0 <? Z.land str 15 then _ else None) as [k|] eqn:Hk.
  - destruct (Z.ltb_spec 0 (Z.land str 15)); [|discriminate].
    apply first_hit_load_Some in Hk. destruct Hk as [Hk _].
    destruct (Z.ltb_spec (str + (Z.land str 15 + k)) (str + n)); [|discriminate].
    injection Hp as <-. lia.
  - unfold memchr in Hp. apply memchr_from_range in Hp. lia.
Qed.

Lemma Load_process_line_frame buf st st' :
  Load_process_line buf st = Continue st' ->
  file st' = file st /\ line_start st' = line_start st /\ line_end st' = line_end st /\
  buf_end st' = buf_end st.
Proof.
  destruct st as [m f ls le be v u t lg]. unfold Load_process_line.
  cbn [file line_start line_end buf_end].
  repeat match goal with
         | |- context [match ?x with _ => _ end] => destruct x
         end;
    intros H; try discriminate; injection H as <-; auto.
Qed.

Lemma Load_process_line_no_spin buf st : Load_process_line buf st <> Spins.
Proof.
  destruct st as [m f ls le be v u t lg]. unfold Load_process_line.
  repeat match goal with
         | |- context [match ?x with _ => _ end] => destruct x
         end; discriminate.
Qed.

Lemma fread_spec m ptr size f :
  0 <= size ->
  exists k m', fread m ptr size f = (k, m', drop (Z.to_nat size) f) /\
               0 <= k <= size /\
               Z.of_nat (length (drop (Z.to_nat size) f)) = Z.of_nat (length f) - k /\
               (k = 0 -> f = [] \/ size = 0).
Proof.
  intros Hs. unfold fread. eexists _, _. split; [reflexivity|].
  rewrite length_take, length_drop. split; [lia|]. split; [lia|].
  intros Hk. destruct f; [now left|]. right. cbn [length] in Hk. lia.
Qed.

(** An iteration that does not leave the loop passes or reads at least
    one byte, and the scanner always returns. *)
Lemma Load_step_progress buf st :
  wf_state buf st ->
  match Load_step buf st with
  | Continue st' => wf_state buf st' /\ load_measure st' < load_measure st
  | Spins => False
  | _ => True
  end.
Proof.
  intros Hwf. destruct st as [m f ls le be v u t lg].
  unfold wf_state in Hwf. cbn [line_end line_start buf_end] in Hwf.
  unfold Load_step.
  pose proof sizeof_buf_pos as Hpos.
  assert (Hfin : forall m1 f1 ls1 r be1,
    (forall p, r = Some p -> ls1 <= p < be1) ->
    buf <= ls1 -> ls1 <= be1 -> be1 <= buf + sizeof_buf ->
    2 * Z.of_nat (length f1) + (be1 - ls1)
      < load_measure (mkLoadState m f ls le be v u t lg) ->
    match Load_process_line buf (mkLoadState m1 f1 ls1 r be1 v u t lg) with
    | Continue st' =>
        wf_state buf st' /\ load_measure st' < load_measure (mkLoadState m f ls le be v u t lg)
    | Spins => False
    | _ => True
    end).
  { intros m1 f1 ls1 r be1 Hr Hb1 Hb2 Hb3 Hm.
    destruct (Load_process_line buf _) as [| st' | |] eqn:Hp; try exact I.
    - apply Load_process_line_frame in Hp.
      cbn [file line_start line_end buf_end] in Hp. destruct Hp as (Hf & Hls & Hle & Hbe).
      unfold wf_state, load_measure in *. rewrite Hf, Hls, Hle, Hbe.
      cbn [file line_end buf_end] in *.
      destruct r as [p|]; [specialize (Hr p eq_refl)|]; split; try exact I; lia.
    - now apply Load_process_line_no_spin in Hp. }
  set (top := (ls >=? be) || negb (bool_decide (is_Some le))).
  assert (Hcases :
    (top = true /\ le = None) \/
    (top = false /\ exists le0, le = Some le0 /\ buf <= ls <= le0 /\ le0 < be <= buf + sizeof_buf)).
  { unfold top. destruct le as [le0|].
    - right. destruct Hwf as [[H1 H2] [H3 H4]].
      destruct (Z.geb_spec ls be); [lia|].
      rewrite bool_decide_eq_true_2 by eauto. split; [reflexivity|]. eauto 10.
    - left. rewrite bool_decide_eq_false_2 by (intros [? ?]; discriminate).
      now rewrite orb_true_r. }
  destruct Hcases as [[Htop ->]|[Htop (le0 & -> & [Hw1 Hw2] & [Hw3 Hw4])]];
    fold top; rewrite Htop.
  - (* Refill buffer. *)
    destruct (fread_spec m buf sizeof_buf f) as (k & m1 & Hfr & Hk & Hlen & Hk0); [lia|].
    rewrite Hfr. destruct (Z.eqb_spec k 0) as [|Hknz]; [exact I|].
    replace (buf + k - buf) with k by lia.
    destruct (memchrSSE2_range m1 buf 10 k) as (r & Hscan & Hr); [lia|].
    rewrite Hscan. destruct r as [p|].
    + apply Hfin; try lia.
      * intros p' Hp'. injection Hp' as <-. specialize (Hr p eq_refl). lia.
      * unfold load_measure. cbn [file line_end]. lia.
    + cbv zeta. replace (k - (buf - buf)) with k by lia.
      destruct (fread_spec (memmove m1 buf buf k) (buf + k) (sizeof_buf - k)
                           (drop (Z.to_nat sizeof_buf) f))
        as (k2 & m2 & Hfr2 & Hk2 & Hlen2 & _); [lia|].
      rewrite Hfr2. replace (buf + k + k2 - buf) with (k + k2) by lia.
      destruct (memchrSSE2_range m2 buf 10 (k + k2)) as (r2 & Hscan2 & Hr2); [lia|].
      rewrite Hscan2. apply Hfin; try lia.
      * intros p Hp. specialize (Hr2 p Hp). lia.
      * unfold load_measure. cbn [file line_end]. lia.
  - (* Advance to next line in buffer. *)
    cbn [default]. unfold id.
    destruct (memchrSSE2_range m (le0 + 1) 10 (be - (le0 + 1))) as (r & Hscan & Hr); [lia|].
    rewrite Hscan. destruct r as [p|].
    + apply Hfin; try lia.
      * intros p' Hp'. injection Hp' as <-. specialize (Hr p eq_refl). lia.
      * unfold load_measure. cbn [file line_end buf_end]. lia.
    + cbv zeta.
      replace (be - buf - (le0 + 1 - buf)) with (be - (le0 + 1)) by lia.
      destruct (fread_spec (memmove m buf (le0 + 1) (be - (le0 + 1)))
                           (buf + (be - (le0 + 1))) (sizeof_buf - (be - (le0 + 1))) f)
        as (k2 & m2 & Hfr2 & Hk2 & Hlen2 & _); [lia|].
      rewrite Hfr2.
      replace (buf + (be - (le0 + 1)) + k2 - buf) with (be - (le0 + 1) + k2) by lia.
      destruct (memchrSSE2_range m2 buf 10 (be - (le0 + 1) + k2)) as (r2 & Hscan2 & Hr2);
        [lia|].
      rewrite Hscan2. apply Hfin; try lia.
      * intros p Hp. specialize (Hr2 p Hp). lia.
      * unfold load_measure. cbn [file line_end buf_end]. lia.
Qed.

Lemma load_measure_nonneg buf st : wf_state buf st -> 0 <= load_measure st.
Proof.
  unfold wf_state, load_measure. destruct (line_end st); lia.
Qed.

Lemma Load_loop_ends buf : forall fuel st,
  wf_state buf st -> load_measure st < Z.of_nat fuel -> Load_loop fuel buf st <> Spins.
Proof.
  induction fuel as [|fuel IH]; intros st Hwf Hm.
  - pose proof (load_measure_nonneg buf st Hwf). lia.
  - cbn [Load_loop]. pose proof (Load_step_progress buf st Hwf) as Hp.
    destruct (Load_step buf st) as [| st' | |]; try discriminate; [|contradiction].
    destruct Hp as [Hwf' Hlt]. apply IH; [assumption|lia].
Qed.

Lemma Load_loop_not_Continue buf : forall fuel st st',
  Load_loop fuel buf st <> Continue st'.
Proof.
  induction fuel as [|fuel IH]; intros st st'; [discriminate|].
  cbn [Load_loop]. destruct (Load_step buf st) eqn:Hs; try discriminate. apply IH.
Qed.

(** The loop of [Load] is left within the iterations it is given. *)
Lemma Load_not_Hangs bl w path buf m : Load bl w path buf m <> Hangs.
Proof.
  unfold Load. destruct (fopen_r w path) as [[]|content]; try discriminate.
  set (st := mkLoadState _ _ _ _ _ _ _ _ _). cbv zeta.
  pose proof (Load_loop_ends buf (2 * length content + 3) st) as Hl.
  assert (Hwf : wf_state buf st) by exact I.
  assert (Hm : load_measure st < Z.of_nat (2 * length content + 3)).
  { unfold load_measure, st. cbn [file line_end]. lia. }
  specialize (Hl Hwf Hm).
  pose proof (Load_loop_not_Continue buf (2 * length content + 3) st) as Hc.
  destruct (Load_loop _ buf st) as [| st' | |]; try discriminate; congruence.
Qed.

(** X18.  [Load] never runs for ever: whatever the file and the memory
    hold, every iteration of its loop that does not leave the loop reads
    at least one byte of the file or passes at least one byte of the
    buffer, and every call of the line scanner returns; so [Load] returns
    or, when it builds a string of negative length, throws. *)
Theorem Load_returns_or_throws bl w path buf m :
  (exists ok err bl', Load bl w path buf m = Returns ok err bl') \/
  Load bl w path buf m = Aborts.
Proof.
  pose proof (Load_not_Hangs bl w path buf m) as H.
  destruct (Load bl w path buf m) as [ok err bl'| |]; [left; eauto|now right|congruence].
Qed.


(** ** [RecordCommand]: what is in memory and what is on disk *)

Lemma key_inv_empty : key_inv ∅.
Proof. intros k e H. rewrite lookup_empty in H. discriminate. Qed.

Lemma key_inv_insert lg e : key_inv lg -> key_inv (<[output e := e]> lg).
Proof.
  intros H k e' Hl. destruct (decide (output e = k)) as [<-|Hne].
  - rewrite lookup_insert_eq in Hl. congruence.
  - rewrite lookup_insert_ne in Hl by assumption. eauto.
Qed.

Lemma log_assign_insert lg e :
  key_inv lg ->
  log_assign lg (output e) (command e) (start_time e) (end_time e) (restat_mtime e)
  = <[output e := e]> lg.
Proof.
  intros H. unfold log_assign. destruct (lg !! output e) as [e'|] eqn:Hl.
  - rewrite (H _ _ Hl). destruct e; reflexivity.
  - destruct e; reflexivity.
Qed.

Lemma load_entries_log es : forall lg u t,
  key_inv lg ->
  (fold_left load_entry es (lg, u, t)).1.1 = insert_entries es lg.
Proof.
  induction es as [|e es IH]; intros lg u t H; [reflexivity|].
  cbn [fold_left load_entry]. unfold insert_entries. cbn [fold_left].
  rewrite IH, log_assign_insert by (try rewrite log_assign_insert; auto using key_inv_insert).
  reflexivity.
Qed.

Lemma insert_entries_lookup es : forall lg k,
  insert_entries es lg !! k =
  match last_entry_for k es with Some e => Some e | None => lg !! k end.
Proof.
  induction es as [|e es IH]; intros lg k; [reflexivity|].
  unfold insert_entries in *. cbn [fold_left last_entry_for]. rewrite IH.
  destruct (last_entry_for k es); [reflexivity|].
  destruct (decide (output e = k)) as [<-|Hne].
  - apply lookup_insert_eq.
  - now apply lookup_insert_ne.
Qed.

(** Loading the same records again changes nothing. *)
Lemma insert_entries_idem es lg :
  insert_entries es (insert_entries es lg) = insert_entries es lg.
Proof.
  apply map_eq. intros k. rewrite !insert_entries_lookup.
  destruct (last_entry_for k es); reflexivity.
Qed.

Lemma key_inv_insert_entries es : forall lg, key_inv lg -> key_inv (insert_entries es lg).
Proof.
  induction es as [|e es IH]; intros lg H; [assumption|].
  apply IH, key_inv_insert, H.
Qed.

Lemma c_str_id s : NUL ∉ s -> c_str s = s.
Proof.
  induction s as [|c s IH]; intros H; [reflexivity|].
  apply not_elem_of_cons in H. destruct H as [H1 H2].
  cbn [c_str]. destruct (Ascii.eqb_spec c NUL); [congruence|]. now rewrite IH.
Qed.

Lemma WriteEntry_line_clean e :
  NUL ∉ output e -> NUL ∉ command e -> WriteEntry_line e = entry_line TAB e.
Proof.
  intros H1 H2. unfold WriteEntry_line, entry_line, record_line.
  rewrite !c_str_id by assumption. repeat (rewrite <- app_assoc; cbn [app]). reflexivity.
Qed.

Lemma RecordCommand_output_spec f es st cmd s e r out :
  log_open_at f es st -> NUL ∉ out -> NUL ∉ cmd ->
  let E := {| output := out; command := cmd; start_time := s; end_time := e;
              restat_mtime := r |} in
  log_open_at f (es ++ [E]) (RecordCommand_output cmd s e r st out) /\
  denied (RecordCommand_output cmd s e r st out).2 = denied st.2.
Proof.
  intros (Hf & Hl & Hw) Ho Hc E. destruct st as [bl w]. cbn [fst snd] in *.
  unfold RecordCommand_output.
  assert (Hk : key_inv (log_ bl)).
  { rewrite Hl. apply key_inv_insert_entries, key_inv_empty. }
  pose proof (log_assign_insert (log_ bl) E Hk) as Ha. unfold log_assign in Ha.
  cbn [output command start_time end_time restat_mtime E] in Ha. cbv zeta in Ha.
  cbn [log_file_]. rewrite Hf. cbv zeta.
  set (le := {| output := output _; command := cmd |}) in *.
  assert (Hle : le = E).
  { unfold le. destruct (log_ bl !! out) as [e'|] eqn:Hlk; [|reflexivity].
    rewrite (Hk _ _ Hlk). reflexivity. }
  rewrite Hle. unfold log_open_at. cbn [fst snd log_file_ log_]. split; [|reflexivity].
  split; [reflexivity|]. split.
  - rewrite Hl. unfold insert_entries. rewrite fold_left_app. reflexivity.
  - unfold WriteEntry, fwrite, set_files. cbn [files]. rewrite lookup_alter_eq, Hw.
    cbn [fmap option_fmap option_map].
    rewrite WriteEntry_line_clean by assumption.
    rewrite map_app, concat_app. cbn [map concat]. rewrite app_nil_r, <- app_assoc.
    reflexivity.
Qed.

(** ** The round trip through the file (C1) *)

Lemma OpenForWrite_in_step bl w path es :
  match config_ bl with Some config => dry_run config | None => false end = false ->
  needs_recompaction_ bl = false ->
  path ∉ denied w -> path ∉ unwritable w -> in_step bl w path es ->
  exists bl1 w1,
    OpenForWrite bl w path = (true, None, bl1, w1) /\
    log_open_at path es (bl1, w1) /\ denied w1 = denied w.
Proof.
  intros Hdry Hrec Hd Hu [Hlog Hf]. unfold OpenForWrite. rewrite Hdry.
  destruct (needs_recompaction_ bl) eqn:E; [discriminate|]. cbn [negb].
  unfold fopen_a. rewrite decide_False by assumption.
  unfold fprintf_flushed.
  destruct Hf as [Hf|[-> [Hf|Hf]]]; rewrite Hf.
  - assert (Ht : (ftell w path =? 0) = false).
    { unfold ftell. rewrite Hf. apply Z.eqb_neq. unfold kFileSignature.
      rewrite !length_app. cbn [lit list_ascii_of_string length]. lia. }
    rewrite Ht. eexists _, _. split; [reflexivity|].
    unfold log_open_at. cbn [fst snd log_file_ log_]. auto.
  - assert (Ht : ftell (set_files w (<[path := []]> (files w))) path = 0).
    { unfold ftell, set_files. cbn [files]. now rewrite lookup_insert_eq. }
    rewrite Ht. cbn [Z.eqb]. cbn [set_files unwritable]. rewrite decide_False by assumption.
    eexists _, _. split; [reflexivity|].
    unfold log_open_at, fwrite, set_files.
    cbn [fst snd log_file_ log_ files denied].
    repeat split; try assumption.
    rewrite lookup_alter_eq, lookup_insert_eq. cbn. now rewrite app_nil_r.
  - assert (Ht : ftell w path = 0) by (unfold ftell; now rewrite Hf).
    rewrite Ht. cbn [Z.eqb]. rewrite decide_False by assumption.
    eexists _, _. split; [reflexivity|].
    unfold log_open_at, fwrite, set_files.
    cbn [fst snd log_file_ log_ files denied].
    repeat split; try assumption.
    rewrite lookup_alter_eq, Hf. cbn. now rewrite app_nil_r.
Qed.

Lemma RecordCommand_spec f c : forall es st,
  log_open_at f es st -> Forall (clean_entry TAB) (call_entries c) ->
  let st' := RecordCommand st.1 st.2 (call_edge c) (call_start c) (call_end c)
                           (call_restat c) in
  log_open_at f (es ++ call_entries c) st' /\ denied st'.2 = denied st.2.
Proof.
  unfold call_entries, RecordCommand.
  induction (outputs_ (call_edge c)) as [|out outs IH]; intros es st Hopen Hclean.
  - cbn [map fold_left]. rewrite app_nil_r. destruct st. split; [assumption|reflexivity].
  - cbn [map] in Hclean. apply Forall_cons in Hclean. destruct Hclean as [Hc Hclean].
    destruct Hc as [(_ & _ & _ & _ & Ho & _) Hcmd]. cbn [output command] in Ho, Hcmd.
    destruct st as [bl w]. cbn [fst snd fold_left map].
    destruct (RecordCommand_output_spec f es (bl, w) (EvaluateCommand (call_edge c))
                (call_start c) (call_end c) (call_restat c) out Hopen Ho Hcmd) as [H1 H2].
    set (st1 := RecordCommand_output _ _ _ _ _ _) in *.
    specialize (IH _ st1 H1 Hclean). cbv zeta in IH.
    destruct st1 as [bl1 w1]. cbn [fst snd] in IH, H2. destruct IH as [IH1 IH2].
    rewrite <- app_assoc in IH1. cbn [app] in IH1.
    split; [assumption|etransitivity; [exact IH2|exact H2]].
Qed.

Lemma RecordCommands_spec f calls : forall es st,
  log_open_at f es st -> Forall (fun c => Forall (clean_entry TAB) (call_entries c)) calls ->
  log_open_at f (es ++ concat (map call_entries calls)) (RecordCommands st calls) /\
  denied (RecordCommands st calls).2 = denied st.2.
Proof.
  induction calls as [|c calls IH]; intros es st Hopen Hclean.
  - cbn. rewrite app_nil_r. split; [assumption|reflexivity].
  - apply Forall_cons in Hclean. destruct Hclean as [Hc Hclean].
    destruct (RecordCommand_spec f c es st Hopen Hc) as [H1 H2].
    unfold RecordCommands. cbn [fold_left map concat]. fold (RecordCommands).
    set (st1 := RecordCommand _ _ _ _ _ _) in *.
    destruct (IH _ st1 H1 Hclean) as [IH1 IH2].
    rewrite <- app_assoc in IH1. split; [assumption|etransitivity; [exact IH2|exact H2]].
Qed.

(** X30.  The round trip on records that the scanner splits correctly.
    Take a [BuildLog] that holds the same records as its version 4 log
    file (or a new one, with a file that is missing or empty), outside
    dry-run mode and with no compaction pending, on a path that can be
    opened and written.  Let the records it holds and the records of the
    calls be clean: numbers in range; no tab, newline or NUL in an output
    path, no newline or NUL in a command; lines of at least 16 bytes that
    fit the read buffer.  With the read buffer 16-byte aligned, opening
    the log, recording the calls, closing and loading the file, in a
    fresh [BuildLog] or in the one that wrote it, returns successfully
    with a map equal to the one held before closing: one entry per output
    path, the last one written for a path winning. *)
Theorem log_round_trip bl w path es0 calls buf m :
  Z.land buf 15 = 0 ->
  match config_ bl with Some config => dry_run config | None => false end = false ->
  needs_recompaction_ bl = false ->
  path ∉ denied w -> path ∉ unwritable w ->
  in_step bl w path es0 -> Forall (clean_entry TAB) es0 ->
  Forall (fun c => Forall (clean_entry TAB) (call_entries c)) calls ->
  let before := insert_entries (es0 ++ concat (map call_entries calls)) ∅ in
  exists fresh same,
    write_then_load bl w path calls buf m
    = (true, before, Returns true None fresh, Returns true None same) /\
    log_ fresh = before /\ log_ same = before.
Proof.
  intros Hal Hdry Hnr Hd Hu Hstep Hclean0 Hclean before. unfold write_then_load.
  destruct (OpenForWrite_in_step bl w path es0 Hdry Hnr Hd Hu Hstep)
    as (bl1 & w1 & Hopen & Hst & Hden).
  rewrite Hopen.
  destruct (RecordCommands_spec path calls es0 (bl1, w1) Hst Hclean) as [Hrec Hden2].
  destruct (RecordCommands (bl1, w1) calls) as [bl2 w2].
  destruct Hrec as (_ & Hlog & Hfile). cbn [fst snd] in *.
  set (es := es0 ++ concat (map call_entries calls)) in *.
  assert (Hload : Forall (loadable (field_separator kCurrentVersion)) es).
  { change (field_separator kCurrentVersion) with TAB. apply Forall_app. split.
    - eapply Forall_impl; [exact Hclean0|]. intros e [He _]. exact He.
    - apply Forall_concat, Forall_map.
      eapply Forall_impl; [exact Hclean|]. intros c Hc.
      eapply Forall_impl; [exact Hc|]. intros e [He _]. exact He. }
  assert (Hint : is_int kCurrentVersion) by (unfold is_int, kCurrentVersion; lia).
  assert (Hden3 : path ∉ denied w2) by congruence.
  rewrite (Load_wellformed BuildLog_new w2 path buf m kCurrentVersion es),
          (Load_wellformed (Close bl2) w2 path buf m kCurrentVersion es);
    try assumption; try discriminate.
  unfold Close. cbn [log_ BuildLog_new]. rewrite Hlog. fold before.
  pose proof (load_entries_log es ∅ 0 0 key_inv_empty) as Hl1.
  pose proof (load_entries_log es before 0 0
                (key_inv_insert_entries es ∅ key_inv_empty)) as Hl2.
  destruct (fold_left load_entry es (∅, 0, 0)) as [[lg1 u1] t1].
  destruct (fold_left load_entry es (before, 0, 0)) as [[lg2 u2] t2].
  cbn [fst] in Hl1, Hl2.
  eexists _, _. split; [reflexivity|]. cbn [log_]. split; [exact Hl1|].
  rewrite Hl2. apply insert_entries_idem.
Qed.

(** C1, failing input.  Three calls of [RecordCommand] for the output
    [a] on a new log: the file gets the signature (15 bytes) and records
    of 18, 10 and 10 bytes.  The scanner is called for the second record
    at offset 33, which is 1 modulo 16, finds the newline in the first
    block and returns the address one byte past it; the third record is
    then read from its second byte, so its first field is empty and reads
    as 0.  The map held before closing has start_time 5 for [a], the map
    that [Load] returns has start_time 0. *)
Lemma log_round_trip_short_records :
  let calls := [mkCall (mkEdge (lit "cc -c a.c") [lit "a"]) 1 2 3;
                mkCall (mkEdge (lit "b") [lit "a"]) 3 4 0;
                mkCall (mkEdge (lit "b") [lit "a"]) 5 6 0] in
  let written : Log :=
    {[ lit "a" := {| output := lit "a"; command := lit "b"; start_time := 5;
                     end_time := 6; restat_mtime := 0 |} ]} in
  let read : Log :=
    {[ lit "a" := {| output := lit "a"; command := lit "b"; start_time := 0;
                     end_time := 6; restat_mtime := 0 |} ]} in
  let loaded := {| log_ := read; log_file_ := None; config_ := None;
                   needs_recompaction_ := false |} in
  write_then_load BuildLog_new no_files (lit "log") calls 0 zero_memory
  = (true, written, Returns true None loaded, Returns true None loaded)
  /\ read <> written.
Proof.
  cbv zeta. split.
  - vm_compute. reflexivity.
  - intros H. apply (f_equal (fun lg : Log => lg !! lit "a")) in H.
    vm_compute in H. discriminate.
Qed.

Lemma log_round_trip_witness :
  let call := mkCall (mkEdge (lit "cc -c foo.c -o foo.o") [lit "foo.o"]) 5 9 7 in
  let before := insert_entries (concat (map call_entries [call; call])) ∅ in
  exists fresh same,
    write_then_load BuildLog_new no_files (lit "log") [call; call] 16 zero_memory
    = (true, before, Returns true None fresh, Returns true None same) /\
    log_ fresh = before /\ log_ same = before.
Proof.
  cbv zeta.
  apply (log_round_trip BuildLog_new no_files (lit "log") [] _ 16 zero_memory).
  - reflexivity.
  - reflexivity.
  - reflexivity.
  - apply not_elem_of_empty.
  - apply not_elem_of_empty.
  - split; [reflexivity|]. right. split; [reflexivity|]. left. reflexivity.
  - constructor.
  - concrete_entries.
Defined.


(** ** [Recompact] (C3, C5) *)

Lemma insert_entries_pairs (l : list (bytes * LogEntry)) : forall lg,
  (forall k e, (k, e) ∈ l -> output e = k) ->
  insert_entries (map snd l) lg = fold_left (fun lg p => <[p.1 := p.2]> lg) l lg.
Proof.
  unfold insert_entries. induction l as [|[k e] l IH]; intros lg H; [reflexivity|].
  cbn [map fold_left fst snd]. rewrite (H k e) by (left). apply IH.
  intros k' e' Hin. apply H. now right.
Qed.

Lemma insert_entries_map_to_list (M : Log) :
  key_inv M -> insert_entries (map snd (map_to_list M)) ∅ = M.
Proof.
  intros Hk. rewrite insert_entries_pairs.
  - rewrite <- fold_left_rev_right.
    change (fold_right _ ∅ (rev (map_to_list M)))
      with (list_to_map (M := Log) (rev (map_to_list M))).
    rewrite <- (list_to_map_to_list M) at 2.
    apply list_to_map_proper.
    + rewrite <- Permutation_rev. apply NoDup_fst_map_to_list.
    + symmetry. apply Permutation_rev.
  - intros k e Hin. apply elem_of_map_to_list in Hin. eauto.
Qed.

Lemma temp_path_ne (path : bytes) : path ++ lit ".recompact" <> path.
Proof.
  intros H. rewrite <- (app_nil_r path) in H at 2. apply app_inv_head in H. discriminate.
Qed.

Lemma last_cons_default {A} (l : list A) : forall x d,
  List.last (x :: l) d = List.last l x.
Proof.
  induction l as [|y l IH]; intros x d; [reflexivity|].
  change (List.last (x :: y :: l) d) with (List.last (y :: l) d).
  rewrite !IH. reflexivity.
Qed.

Lemma WriteEntry_states_spec f es : forall w c0,
  files w !! f = Some c0 ->
  let ws := WriteEntry_states w f es in
  files (List.last ws w) !! f = Some (c0 ++ concat (map WriteEntry_line es)) /\
  denied (List.last ws w) = denied w /\
  (forall p, p <> f -> files (List.last ws w) !! p = files w !! p) /\
  (forall w' p, w' ∈ ws -> p <> f -> files w' !! p = files w !! p).
Proof.
  induction es as [|e es IH]; intros w c0 Hf; cbn [WriteEntry_states map concat]; cbv zeta.
  - cbn [List.last]. rewrite app_nil_r. repeat split; try assumption.
    intros w' p Hin. apply elem_of_nil in Hin. contradiction.
  - set (w1 := WriteEntry w f e).
    assert (Hf1 : files w1 !! f = Some (c0 ++ WriteEntry_line e)).
    { unfold w1, WriteEntry, fwrite, set_files. cbn [files].
      now rewrite lookup_alter_eq, Hf. }
    assert (Ho : forall p, p <> f -> files w1 !! p = files w !! p).
    { intros p Hp. unfold w1, WriteEntry, fwrite, set_files. cbn [files].
      now rewrite lookup_alter_ne. }
    destruct (IH w1 _ Hf1) as (H1 & H2 & H3 & H4). cbv zeta in *.
    assert (Hlast : List.last (w1 :: WriteEntry_states w1 f es) w
                    = List.last (WriteEntry_states w1 f es) w1) by apply last_cons_default.
    rewrite Hlast. split; [rewrite H1, <- app_assoc; reflexivity|].
    split; [rewrite H2; reflexivity|]. split.
    + intros p Hp. rewrite H3 by assumption. now apply Ho.
    + intros w' p Hin Hp. apply elem_of_cons in Hin. destruct Hin as [->|Hin].
      * now apply Ho.
      * rewrite (H4 w' p Hin Hp). now apply Ho.
Qed.

(** What [Recompact] does to the file system, call by call. *)
Lemma Recompact_run_spec bl w path old :
  let temp_path := path ++ lit ".recompact" in
  temp_path ∉ denied w -> files w !! path = Some old ->
  exists ws w4 w5,
    Recompact_run bl w path = (true, None, ws ++ [w4; w5]) /\
    (forall w', w' ∈ ws -> files w' !! path = Some old) /\
    files (List.last ws w) !! temp_path = Some (recompacted (log_ bl)) /\
    unlink (List.last ws w) path = inr w4 /\ rename w4 temp_path path = inr w5 /\
    files w4 !! path = None /\ files w4 !! temp_path = Some (recompacted (log_ bl)) /\
    files w5 !! path = Some (recompacted (log_ bl)) /\ files w5 !! temp_path = None /\
    denied w5 = denied w.
Proof.
  intros temp_path Hden Hold. unfold Recompact_run. fold temp_path.
  pose proof (temp_path_ne path) as Hne. fold temp_path in Hne.
  set (w0 := printf w _).
  unfold fopen_w. rewrite decide_False by assumption.
  set (w1 := set_files w0 _). set (w2 := fwrite w1 temp_path _).
  set (es := map snd (map_to_list (log_ bl))).
  assert (Hw2 : files w2 !! temp_path = Some (kFileSignature kCurrentVersion)).
  { unfold w2, fwrite, w1, set_files. cbn [files].
    now rewrite lookup_alter_eq, lookup_insert_eq. }
  assert (Hw2p : files w2 !! path = Some old).
  { unfold w2, fwrite, w1, set_files. cbn [files].
    rewrite lookup_alter_ne, lookup_insert_ne by assumption. exact Hold. }
  destruct (WriteEntry_states_spec temp_path es w2 _ Hw2) as (H1 & H2 & H3 & H4).
  cbv zeta in *. set (ws := WriteEntry_states w2 temp_path es) in *.
  set (w3 := List.last ws w2) in *.
  assert (Hw3p : files w3 !! path = Some old) by (rewrite H3; auto).
  assert (Hun : unlink w3 path = inr (set_files w3 (delete path (files w3)))).
  { unfold unlink. now rewrite Hw3p. }
  set (w4 := set_files w3 (delete path (files w3))) in *.
  assert (Hw4t : files w4 !! temp_path = Some (recompacted (log_ bl))).
  { unfold w4, set_files. cbn [files]. rewrite lookup_delete_ne by auto. exact H1. }
  assert (Hre : rename w4 temp_path path
                = inr (set_files w4 (<[path := recompacted (log_ bl)]>
                                       (delete temp_path (files w4))))).
  { unfold rename. now rewrite Hw4t. }
  rewrite Hun, Hre.
  eexists ([w0; w1; w2] ++ ws), _, _. split; [rewrite <- app_assoc; reflexivity|].
  assert (Hlast : List.last ([w0; w1; w2] ++ ws) w = w3).
  { cbn [app]. do 3 rewrite last_cons_default. reflexivity. }
  rewrite Hlast.
  split.
  { intros w' Hin. apply elem_of_app in Hin. destruct Hin as [Hin|Hin].
    - rewrite !elem_of_cons, elem_of_nil in Hin.
      destruct Hin as [->|[->|[->|[]]]]; try assumption.
      unfold w1, set_files. cbn [files]. now rewrite lookup_insert_ne.
    - rewrite (H4 w' path Hin) by auto. assumption. }
  split; [exact H1|]. split; [exact Hun|]. split; [exact Hre|].
  split; [unfold w4, set_files; cbn [files]; apply lookup_delete_eq|].
  split; [exact Hw4t|].
  unfold w4, set_files. cbn [files denied].
  split; [apply lookup_insert_eq|].
  split; [rewrite lookup_insert_ne, lookup_delete_eq by auto; reflexivity|].
  rewrite H2. reflexivity.
Qed.

(** C3, counterexample.  In the run of [Recompact] on an existing log
    there is a state of the file system, after the new file has been
    written, in which no file exists at [path]. *)
Lemma Recompact_log_absent :
  let bl := {| log_ := {[ lit "out" := {| output := lit "out"; command := lit "cat in > out";
                                         start_time := 1; end_time := 2;
                                         restat_mtime := 3 |} ]};
               log_file_ := None; config_ := None; needs_recompaction_ := true |} in
  let w := one_file (lit "log") (lit "# ninja log v3" ++ [NL]) in
  exists w',
    w' ∈ (Recompact_run bl w (lit "log")).2 /\
    files w' !! lit "log" = None /\
    files w' !! (lit "log" ++ lit ".recompact") = Some (recompacted (log_ bl)).
Proof.
  cbv zeta.
  edestruct Recompact_run_spec as (ws & w4 & w5 & Hrun & _ & _ & _ & _ & H1 & H2 & _).
  3: { exists w4. rewrite Hrun. cbn [snd]. split; [|split; [exact H1|exact H2]].
       apply elem_of_app. right. left. }
  - apply not_elem_of_empty.
  - apply lookup_singleton_eq.
Qed.

(** C3, as amended.  When [path] exists and the sibling can be opened,
    [Recompact(path)] succeeds; it writes a fresh version 4 signature and
    exactly one record per entry of the map to [path + ".recompact"],
    while the old log stays at [path]; then it unlinks [path], after
    which no file exists at [path] and the new log is on disk under the
    sibling name only; then it renames the sibling to [path]. *)
Theorem Recompact_unlink_then_rename bl w path old :
  let temp_path := path ++ lit ".recompact" in
  temp_path ∉ denied w -> files w !! path = Some old ->
  exists ws w4 w5,
    Recompact_run bl w path = (true, None, ws ++ [w4; w5]) /\
    length (map snd (map_to_list (log_ bl))) = size (log_ bl) /\
    (forall w', w' ∈ ws -> files w' !! path = Some old) /\
    files (List.last ws w) !! temp_path = Some (recompacted (log_ bl)) /\
    unlink (List.last ws w) path = inr w4 /\
    files w4 !! path = None /\ files w4 !! temp_path = Some (recompacted (log_ bl)) /\
    rename w4 temp_path path = inr w5 /\
    files w5 !! path = Some (recompacted (log_ bl)) /\ files w5 !! temp_path = None.
Proof.
  intros temp_path Hden Hold.
  destruct (Recompact_run_spec bl w path old Hden Hold)
    as (ws & w4 & w5 & Hrun & Hws & Htemp & Hun & Hre & H1 & H2 & H3 & H4 & _).
  exists ws, w4, w5. repeat split; try assumption.
  rewrite length_map. apply length_map_to_list.
Qed.

Lemma Recompact_unlink_then_rename_witness :
  let bl := {| log_ := {[ lit "out" := {| output := lit "out"; command := lit "cat in > out";
                                         start_time := 1; end_time := 2;
                                         restat_mtime := 3 |} ]};
               log_file_ := None; config_ := None; needs_recompaction_ := true |} in
  let w := one_file (lit "log") (lit "# ninja log v3" ++ [NL]) in
  let temp_path := lit "log" ++ lit ".recompact" in
  exists ws w4 w5,
    Recompact_run bl w (lit "log") = (true, None, ws ++ [w4; w5]) /\
    length (map snd (map_to_list (log_ bl))) = size (log_ bl) /\
    (forall w', w' ∈ ws -> files w' !! lit "log" = Some (lit "# ninja log v3" ++ [NL])) /\
    files (List.last ws w) !! temp_path = Some (recompacted (log_ bl)) /\
    unlink (List.last ws w) (lit "log") = inr w4 /\
    files w4 !! lit "log" = None /\ files w4 !! temp_path = Some (recompacted (log_ bl)) /\
    rename w4 temp_path (lit "log") = inr w5 /\
    files w5 !! lit "log" = Some (recompacted (log_ bl)) /\ files w5 !! temp_path = None.
Proof.
  cbv zeta. apply Recompact_unlink_then_rename.
  - apply not_elem_of_empty.
  - apply lookup_singleton_eq.
Defined.

Lemma insert_entries_present es : forall lg : Log,
  Forall (fun e => lg !! output e = Some e) es -> insert_entries es lg = lg.
Proof.
  induction es as [|e es IH]; intros lg H; [reflexivity|].
  apply Forall_cons in H. destruct H as [He H].
  unfold insert_entries. cbn [fold_left]. rewrite insert_id by assumption.
  apply IH, H.
Qed.

(** C5, failing input.  A map with the four entries [a], [b], [c] and
    [d], each with the command [b]: the file that [Recompact] writes has
    the signature (15 bytes) and four records of 10 bytes.  The scanner
    is called for the third record at offset 35, which is 3 modulo 16,
    finds the newline in the first block and returns the address 3 bytes
    past it: the command of the third record is read with three bytes
    too many, and the fourth record is read from its fourth byte, lacks
    a separator and is skipped.  [Load] into a new [BuildLog] returns a
    map of three entries; [Load] into the [BuildLog] that was compacted
    returns a map that differs from the one compacted.  This is so in
    whatever order the four records are written. *)
Lemma recompact_then_load_short_records :
  let entry out := {| output := lit out; command := lit "b"; start_time := 1;
                      end_time := 2; restat_mtime := 3 |} in
  let M : Log := list_to_map (map (fun out => (lit out, entry out)) ["a"; "b"; "c"; "d"]%string) in
  let bl := {| log_ := M; log_file_ := None; config_ := None; needs_recompaction_ := true |} in
  size M = 4%nat /\
  (exists fresh same,
     recompact_then_load bl (one_file (lit "log") (lit "# ninja log v3" ++ [NL]))
                         (lit "log") 0 zero_memory
     = (true, Returns true None fresh, Returns true None same) /\
     size (log_ fresh) = 3%nat /\ log_ same <> M) /\
  (forall es, es ≡ₚ map snd (map_to_list M) ->
     let w := one_file (lit "log") (kFileSignature 4 ++ concat (map WriteEntry_line es)) in
     exists fresh same,
       Load BuildLog_new w (lit "log") 0 zero_memory = Returns true None fresh /\
       Load bl w (lit "log") 0 zero_memory = Returns true None same /\
       size (log_ fresh) = 3%nat /\ log_ same <> M).
Proof.
  intros entry M bl.
  pose (short := fun lg : Log =>
          forallb (fun k => match lg !! lit k with
                            | Some e => (length (command e) =? 1)%nat
                            | None => false
                            end) ["a"; "b"; "c"; "d"]%string).
  assert (HM : short M = true) by (vm_compute; reflexivity).
  pose (check := fun r1 r2 =>
          match r1, r2 with
          | Returns true None f, Returns true None s =>
              (size (log_ f) =? 3)%nat && negb (short (log_ s))
          | _, _ => false
          end).
  assert (Hcheck : forall r1 r2, check r1 r2 = true ->
            exists fresh same, r1 = Returns true None fresh /\ r2 = Returns true None same /\
                               size (log_ fresh) = 3%nat /\ log_ same <> M).
  { intros r1 r2 H. unfold check in H.
    destruct r1 as [[|] [e1|] f| | ]; try discriminate.
    destruct r2 as [[|] [e2|] s| | ]; try discriminate.
    apply andb_true_iff in H. destruct H as [H1 H2].
    exists f, s. split; [reflexivity|]. split; [reflexivity|].
    split; [now apply Nat.eqb_eq|].
    intros Heq. rewrite Heq, HM in H2. discriminate. }
  split; [reflexivity|]. split.
  - assert (H : let '(ok, r1, r2) :=
                  recompact_then_load bl (one_file (lit "log") (lit "# ninja log v3" ++ [NL]))
                                      (lit "log") 0 zero_memory in
                ok && check r1 r2 = true) by (vm_compute; reflexivity).
    destruct (recompact_then_load _ _ _ _ _) as [[ok r1] r2].
    apply andb_true_iff in H. destruct H as [-> H].
    destruct (Hcheck _ _ H) as (f & s & -> & -> & H1 & H2). eauto.
  - intros es Hes. cbv zeta. apply Hcheck.
    symmetry in Hes. apply permutations_Permutation in Hes.
    apply list_elem_of_In in Hes. revert es Hes. apply forallb_forall.
    vm_compute. reflexivity.
Qed.

(** Compaction on records that the scanner splits correctly.  For a map
    whose entries are stored under their own output paths and are clean
    (numbers in range; no tab, newline or NUL in an output path, no
    newline or NUL in a command; lines of at least 16 bytes that fit the
    read buffer), with [path] an existing file and the read buffer
    16-byte aligned: [Recompact] succeeds and [Load] of the new file, in
    a fresh [BuildLog] or in the one that was compacted, returns a map
    equal to the one compacted. *)
Theorem recompact_then_load_same bl w path old buf m :
  Z.land buf 15 = 0 ->
  files w !! path = Some old -> path ∉ denied w -> (path ++ lit ".recompact") ∉ denied w ->
  key_inv (log_ bl) -> map_Forall (fun _ e => clean_entry TAB e) (log_ bl) ->
  exists fresh same,
    recompact_then_load bl w path buf m
    = (true, Returns true None fresh, Returns true None same) /\
    log_ fresh = log_ bl /\ log_ same = log_ bl.
Proof.
  intros Hal Hold Hden Hdent Hk Hclean. unfold recompact_then_load, Recompact.
  destruct (Recompact_run_spec bl w path old Hdent Hold)
    as (ws & w4 & w5 & Hrun & _ & _ & _ & _ & _ & _ & Hfile & _ & Hden5).
  rewrite Hrun.
  replace (List.last (ws ++ [w4; w5]) w) with w5.
  2: { generalize w. clear. induction ws as [|x ws IH]; intros d; [reflexivity|].
       cbn [app]. rewrite last_cons_default. apply IH. }
  set (es := map snd (map_to_list (log_ bl))).
  assert (Hes : Forall (clean_entry TAB) es).
  { apply Forall_forall. intros e He. apply list_elem_of_fmap in He.
    destruct He as ([k e'] & -> & Hin). apply elem_of_map_to_list in Hin.
    apply (Hclean k e' Hin). }
  assert (Hlines : map WriteEntry_line es = map (entry_line TAB) es).
  { apply Forall_fmap_ext_1. eapply Forall_impl; [exact Hes|].
    intros e [He Hc]. apply WriteEntry_line_clean; [|assumption]. apply He. }
  unfold recompacted in Hfile. fold es in Hfile. rewrite Hlines in Hfile.
  assert (Hload : Forall (loadable (field_separator kCurrentVersion)) es).
  { eapply Forall_impl; [exact Hes|]. intros e [He _]. exact He. }
  assert (Hint : is_int kCurrentVersion) by (unfold is_int, kCurrentVersion; lia).
  assert (Hden5' : path ∉ denied w5) by congruence.
  rewrite (Load_wellformed BuildLog_new w5 path buf m kCurrentVersion es),
          (Load_wellformed bl w5 path buf m kCurrentVersion es);
    try assumption; try discriminate.
  cbn [log_ BuildLog_new].
  pose proof (load_entries_log es ∅ 0 0 key_inv_empty) as Hl1.
  pose proof (load_entries_log es (log_ bl) 0 0 Hk) as Hl2.
  destruct (fold_left load_entry es (∅, 0, 0)) as [[lg1 u1] t1].
  destruct (fold_left load_entry es (log_ bl, 0, 0)) as [[lg2 u2] t2].
  cbn [fst] in Hl1, Hl2.
  eexists _, _. split; [reflexivity|]. cbn [log_]. split.
  - rewrite Hl1. apply insert_entries_map_to_list. assumption.
  - rewrite Hl2. apply insert_entries_present.
    apply Forall_forall. intros e He. apply list_elem_of_fmap in He.
    destruct He as ([k e'] & -> & Hin). apply elem_of_map_to_list in Hin.
    cbn [snd]. now rewrite (Hk _ _ Hin).
Qed.

Lemma recompact_then_load_same_witness :
  let M : Log := {[ lit "foo.o" := {| output := lit "foo.o"; command := lit "cc -c foo.c";
                                      start_time := 1; end_time := 2;
                                      restat_mtime := 3 |} ]} in
  exists fresh same,
    recompact_then_load
      {| log_ := M; log_file_ := None; config_ := None; needs_recompaction_ := true |}
      (one_file (lit "log") (lit "# ninja log v3" ++ [NL])) (lit "log") 32 zero_memory
    = (true, Returns true None fresh, Returns true None same) /\
    log_ fresh = M /\ log_ same = M.
Proof.
  cbv zeta.
  apply (recompact_then_load_same
           {| log_ := _; log_file_ := None; config_ := None; needs_recompaction_ := true |}
           _ _ (lit "# ninja log v3" ++ [NL])).
  - reflexivity.
  - apply lookup_singleton_eq.
  - apply not_elem_of_empty.
  - apply not_elem_of_empty.
  - intros k e H. cbn [log_] in H. apply lookup_singleton_Some in H.
    destruct H as [<- <-]. reflexivity.
  - cbn [log_]. apply map_Forall_singleton.
    concrete_entries.
Defined.

(** ** Files of version 1 to 3 (C2) *)

(** C2, counterexample.  A version 3 file whose one record has the four
    columns start, end, output, command (no restat_mtime column): [Load]
    takes the output path [out] for the restat_mtime (which reads as 0),
    the first word of the command for the output path and the rest for
    the command.  No entry is stored for [out]. *)
Lemma Load_v3_without_restat_column :
  let content := lit "# ninja log v3" ++ [NL] ++ lit "1 2 out cc -c x" ++ [NL] in
  Load BuildLog_new (one_file (lit "log") content) (lit "log") 0 zero_memory
  = Returns true None
      {| log_ := {[ lit "cc" := {| output := lit "cc"; command := lit "-c x";
                                   start_time := 1; end_time := 2; restat_mtime := 0 |} ]};
         log_file_ := None; config_ := None; needs_recompaction_ := true |}
  /\ LookupByOutput
       {| log_ := {[ lit "cc" := {| output := lit "cc"; command := lit "-c x";
                                    start_time := 1; end_time := 2; restat_mtime := 0 |} ]};
          log_file_ := None; config_ := None; needs_recompaction_ := true |}
       (lit "out") = None.
Proof. cbv zeta. split; vm_compute; reflexivity. Qed.

Lemma Load_process_line_version buf st :
  match Load_process_line buf st with
  | Continue st' => log_version st <> 0 -> log_version st' = log_version st
  | Break _ => False
  | _ => True
  end.
Proof.
  destruct st as [m f ls le be v u t lg]. unfold Load_process_line. cbn [log_version].
  destruct (Z.eqb_spec v 0) as [->|Hv].
  - repeat match goal with
           | |- context [match ?x with _ => _ end] =>
               lazymatch x with
               | context [match _ with _ => _ end] => fail
               | _ => destruct x eqn:?
               end
           end; try exact I; intros H; now contradiction H.
  - repeat match goal with
           | |- context [match ?x with _ => _ end] =>
               lazymatch x with
               | context [match _ with _ => _ end] => fail
               | _ => destruct x eqn:?
               end
           end; try exact I; intros _; reflexivity.
Qed.

Lemma Load_step_version buf st :
  match Load_step buf st with
  | Continue st' => log_version st <> 0 -> log_version st' = log_version st
  | Break st' => st' = st
  | _ => True
  end.
Proof.
  destruct st as [m f ls le be v u t lg]. unfold Load_step. cbn [log_version].
  assert (Hpl : forall m1 f1 ls1 le1 be1,
    match Load_process_line buf (mkLoadState m1 f1 ls1 le1 be1 v u t lg) with
    | Continue st' => v <> 0 -> log_version st' = v
    | Break st' => st' = mkLoadState m f ls le be v u t lg
    | _ => True
    end).
  { intros m1 f1 ls1 le1 be1.
    pose proof (Load_process_line_version buf (mkLoadState m1 f1 ls1 le1 be1 v u t lg)) as H.
    destruct (Load_process_line buf _) as [st'|st'| |]; try exact I; [contradiction|exact H]. }
  destruct ((ls >=? be) || negb (bool_decide (is_Some le))).
  - destruct (fread m buf sizeof_buf f) as [[k m1] f1].
    destruct (k =? 0); [reflexivity|].
    destruct (memchrSSE2 m1 buf 10 (buf + k - buf)) as [[m2 [p|]]|]; [apply Hpl| |exact I].
    cbv zeta. destruct (fread _ _ _ f1) as [[k2 m3] f2].
    destruct (memchrSSE2 m3 buf 10 _) as [[m4 r]|]; [apply Hpl|exact I].
  - destruct (memchrSSE2 m _ 10 _) as [[m2 [p|]]|]; [apply Hpl| |exact I].
    cbv zeta. destruct (fread _ _ _ f) as [[k2 m3] f2].
    destruct (memchrSSE2 m3 buf 10 _) as [[m4 r]|]; [apply Hpl|exact I].
Qed.

Lemma Load_loop_version buf : forall fuel st st',
  Load_loop fuel buf st = Break st' -> log_version st <> 0 ->
  log_version st' = log_version st.
Proof.
  induction fuel as [|fuel IH]; intros st st' H Hv; [discriminate|].
  cbn [Load_loop] in H. pose proof (Load_step_version buf st) as Hs.
  destruct (Load_step buf st) as [s1|s1| |]; try discriminate.
  - injection H as <-. now subst s1.
  - specialize (Hs Hv). apply IH in H; [|congruence]. congruence.
Qed.

Lemma memchrSSE2_returns m str c n :
  0 <= n -> exists r, memchrSSE2 m str c n = Some (m, r).
Proof. intros Hn. rewrite memchrSSE2_spec by assumption. eauto. Qed.

(** The first iteration on a file that begins with a signature reads the
    version from it, wherever the scanner puts the end of the line. *)
Lemma Load_step_signature buf m v content lg :
  is_int v ->
  match Load_step buf (mkLoadState m (kFileSignature v ++ content) buf None buf 0 0 0 lg) with
  | Continue st' => log_version st' = v
  | Break _ => False
  | _ => True
  end.
Proof.
  intros Hv. unfold Load_step.
  assert (Hsl : (length (kFileSignature v) <= 47)%nat).
  { unfold kFileSignature. rewrite !length_app. pose proof (fmt_d_length v Hv).
    cbn [lit list_ascii_of_string length]. lia. }
  assert (Hs0 : (0 < length (kFileSignature v))%nat).
  { unfold kFileSignature. rewrite !length_app. cbn [lit list_ascii_of_string length]. lia. }
  replace (buf >=? buf) with true by (symmetry; apply Z.geb_le; lia). cbn [orb].
  unfold fread at 1. rewrite sizeof_buf_val.
  assert (Hdata : exists t, take (Z.to_nat 262144) (kFileSignature v ++ content)
                            = kFileSignature v ++ t).
  { rewrite take_app_ge by lia. eauto. }
  destruct Hdata as [t Hdata].
  assert (Hk : 0 < Z.of_nat (length (take (Z.to_nat 262144) (kFileSignature v ++ content)))
               <= 262144).
  { split; [rewrite Hdata, length_app; lia|]. rewrite length_take. lia. }
  remember (take (Z.to_nat 262144) (kFileSignature v ++ content)) as data eqn:Edata.
  clear Edata.
  destruct (Z.eqb_spec (Z.of_nat (length data)) 0) as [|_]; [lia|].
  set (m1 := store_bytes m buf data).
  assert (Hh1 : holds m1 buf (kFileSignature v ++ t)).
  { rewrite <- Hdata. apply holds_store_bytes. }
  assert (Hpl : forall m' f le be, holds m' buf (kFileSignature v ++ t) ->
    match Load_process_line buf (mkLoadState m' f buf le be 0 0 0 lg) with
    | Continue st' => log_version st' = v
    | Break _ => False
    | _ => True
    end).
  { intros m' f le be Hh. rewrite (Load_process_signature buf m' f le be 0 0 lg v t);
      [reflexivity|assumption|assumption|rewrite sizeof_buf_val; lia]. }
  destruct (memchrSSE2_returns m1 buf 10 (buf + Z.of_nat (length data) - buf)) as [r ->];
    [lia|].
  destruct r as [p|]; [apply Hpl, Hh1|].
  cbv zeta.
  replace (buf + Z.of_nat (length data) - buf - (buf - buf)) with (Z.of_nat (length data))
    by lia.
  unfold memmove. rewrite Nat2Z.id.
  unfold fread. cbv beta iota zeta.
  set (data2 := take _ (drop _ _)).
  destruct (memchrSSE2_returns (store_bytes (store_bytes m1 buf (load_bytes m1 buf (length data)))
                                            (buf + Z.of_nat (length data)) data2)
              buf 10 (buf + Z.of_nat (length data) + Z.of_nat (length data2) - buf))
    as [r ->]; [lia|].
  apply Hpl. rewrite <- Hdata in Hh1 |- *.
  apply holds_store_bytes_out; [left; apply Z.le_refl|].
  rewrite (holds_load_exact _ _ _ Hh1). apply holds_store_bytes.
Qed.

(** C2, as amended.  [Load] accepts a file of version 1, 2 or 3 whose
    records use a space as field separator and have the same five columns
    as version 4 (start, end, restat_mtime, output, command).  Whatever
    follows the signature of such a file, when [Load] returns it returns
    true, without an error and with needs_recompaction_ set.  When every
    record of the file is loadable (numbers in range, output path free of
    space, newline and NUL, command free of newline, line of at least 16
    bytes that fits the buffer), the buffer is 16-byte aligned and the
    map stores every entry under its own output path, [Load] does return,
    and every record is stored under its output path with all five
    fields, the last record of a path winning and the other paths keeping
    their entries. *)
Theorem Load_version_lt_4 bl w path buf m v content :
  1 <= v < 4 -> path ∉ denied w ->
  files w !! path = Some (kFileSignature v ++ content) ->
  (forall ok err bl',
     Load bl w path buf m = Returns ok err bl' ->
     ok = true /\ err = None /\ needs_recompaction_ bl' = true) /\
  (forall es,
     Z.land buf 15 = 0 -> key_inv (log_ bl) ->
     content = concat (map (entry_line SP) es) -> Forall (loadable SP) es ->
     exists bl',
       Load bl w path buf m = Returns true None bl' /\
       log_ bl' = insert_entries es (log_ bl) /\
       needs_recompaction_ bl' = true).
Proof.
  intros Hv Hden Hfile. split.
  - intros ok err bl'. unfold Load, fopen_r. rewrite decide_False, Hfile by assumption.
    replace (2 * length (kFileSignature v ++ content) + 3)%nat
      with (S (2 * length (kFileSignature v ++ content) + 2)) by lia.
    cbn [Load_loop].
    pose proof (Load_step_signature buf m v content (log_ bl)) as H1.
    destruct (Load_step buf _) as [st1|st1| |]; try discriminate.
    + contradiction H1. unfold is_int. lia.
    + assert (Hv1 : log_version st1 = v) by (apply H1; unfold is_int; lia).
      destruct (Load_loop _ buf st1) as [st2|st2| |] eqn:Hloop; try discriminate.
      apply Load_loop_version in Hloop; [|lia]. intros H. injection H as <- <- <-.
      cbn [needs_recompaction_]. rewrite Hloop, Hv1. unfold kCurrentVersion.
      destruct (Z.ltb_spec v 4); [auto|lia].
  - intros es Hal Hk -> Hall.
    assert (Hsep : field_separator v = SP).
    { unfold field_separator. destruct (Z.geb_spec v 4); [lia|reflexivity]. }
    rewrite (Load_wellformed bl w path buf m v es); try assumption.
    + destruct (fold_left load_entry es (log_ bl, 0, 0)) as [[lg u] t] eqn:Hfold.
      eexists. split; [reflexivity|]. cbn [log_ needs_recompaction_]. split.
      * pose proof (load_entries_log es (log_ bl) 0 0 Hk) as Hl.
        rewrite Hfold in Hl. exact Hl.
      * unfold kCurrentVersion. destruct (Z.ltb_spec v 4); [reflexivity|lia].
    + unfold is_int. lia.
    + lia.
    + now rewrite Hsep.
    + now rewrite Hsep.
Qed.

Lemma Load_version_lt_4_witness :
  let e := {| output := lit "foo.o"; command := lit "cc -c foo.c"; start_time := 1;
              end_time := 2; restat_mtime := 3 |} in
  let w := one_file (lit "log") (kFileSignature 3 ++ concat (map (entry_line SP) [e; e])) in
  (forall ok err bl',
     Load BuildLog_new w (lit "log") 0 zero_memory = Returns ok err bl' ->
     ok = true /\ err = None /\ needs_recompaction_ bl' = true) /\
  exists bl',
    Load BuildLog_new w (lit "log") 0 zero_memory = Returns true None bl' /\
    log_ bl' = insert_entries [e; e] ∅ /\
    needs_recompaction_ bl' = true.
Proof.
  intros e w.
  destruct (Load_version_lt_4 BuildLog_new w (lit "log") 0 zero_memory 3
              (concat (map (entry_line SP) [e; e]))) as [H1 H2].
  - lia.
  - apply not_elem_of_empty.
  - apply lookup_singleton_eq.
  - split; [exact H1|]. apply (H2 [e; e]).
    + reflexivity.
    + apply key_inv_empty.
    + reflexivity.
    + concrete_entries.
Defined.


(** ** The recompaction threshold (C4) *)

Lemma load_entry_counts es : forall lg t,
  key_inv lg -> Z.of_nat (size lg) <= t -> t + Z.of_nat (length es) < 2 ^ 31 ->
  fold_left load_entry es (lg, Z.of_nat (size lg), t)
  = (insert_entries es lg, Z.of_nat (size (insert_entries es lg)), t + Z.of_nat (length es)).
Proof.
  induction es as [|e es IH]; intros lg t Hk Hs Ht.
  - cbn [fold_left length insert_entries]. rewrite Z.add_0_r. reflexivity.
  - cbn [fold_left load_entry length] in *. rewrite log_assign_insert by assumption.
    pose proof (Nat2Z.is_nonneg (size lg)).
    assert (Hu : count_unique lg (output e) (Z.of_nat (size lg))
                 = Z.of_nat (size (<[output e := e]> lg))).
    { unfold count_unique. destruct (lg !! output e) as [e'|] eqn:Hl.
      - now rewrite map_size_insert_Some by eauto.
      - rewrite map_size_insert_None by assumption.
        rewrite wrap_int32_id by (unfold is_int; lia). lia. }
    rewrite Hu, wrap_int32_id by (unfold is_int; lia).
    rewrite IH.
    + unfold insert_entries. cbn [fold_left]. f_equal; try reflexivity; lia.
    + now apply key_inv_insert.
    + destruct (lg !! output e) as [e'|] eqn:Hl.
      * rewrite map_size_insert_Some by eauto. lia.
      * rewrite map_size_insert_None by assumption. lia.
    + lia.
Qed.

(** The threshold rule on a version 4 file that the scanner splits
    correctly: with [total] records for [unique] output paths, loaded in
    a fresh [BuildLog], needs_recompaction_ is set exactly when
    [total > max(100, 3 * unique)]. *)
Lemma Load_threshold w path buf m es :
  Z.land buf 15 = 0 -> path ∉ denied w ->
  files w !! path = Some (kFileSignature 4 ++ concat (map (entry_line TAB) es)) ->
  Forall (loadable TAB) es -> 3 * Z.of_nat (length es) < 2 ^ 31 ->
  let total := Z.of_nat (length es) in
  let unique := Z.of_nat (size (insert_entries es ∅)) in
  Load BuildLog_new w path buf m
  = Returns true None
      {| log_ := insert_entries es ∅; log_file_ := None; config_ := None;
         needs_recompaction_ := bool_decide (total > Z.max 100 (3 * unique)) |}.
Proof.
  intros Hal Hden Hfile Hall Hlen total unique.
  rewrite (Load_wellformed BuildLog_new w path buf m 4 es); try assumption;
    [|unfold is_int; lia|discriminate].
  cbn [BuildLog_new log_ log_file_ config_ needs_recompaction_].
  pose proof (load_entry_counts es ∅ 0 key_inv_empty) as Hc.
  rewrite map_size_empty in Hc. change (Z.of_nat 0) with 0 in Hc.
  rewrite Hc by lia. fold total unique. rewrite Z.add_0_l.
  change (4 <? kCurrentVersion) with false. cbv iota.
  assert (Hu : 0 <= unique <= total).
  { unfold unique, total. split; [lia|].
    clear. assert (H : forall lg : Log,
      (size (insert_entries es lg) <= size lg + length es)%nat).
    { induction es as [|e es IH]; intros lg; [cbn; lia|].
      unfold insert_entries in *. cbn [fold_left length].
      etransitivity; [apply IH|].
      destruct (lg !! output e) as [e'|] eqn:Hl.
      - rewrite map_size_insert_Some by eauto. lia.
      - rewrite map_size_insert_None by assumption. lia. }
    specialize (H ∅). rewrite map_size_empty in H. lia. }
  rewrite wrap_int32_id by (unfold is_int; lia).
  do 2 f_equal.
  destruct (Z.gtb_spec total 100), (Z.gtb_spec total (unique * 3)); cbn [andb];
    symmetry; (apply bool_decide_eq_true_2 || apply bool_decide_eq_false_2); lia.
Qed.

(** The two scenarios of the threshold, for files that the scanner splits
    correctly: 400 records for 50 output paths set needs_recompaction_,
    100 records for 100 output paths do not. *)
Lemma Load_threshold_scenarios w path buf m es :
  Z.land buf 15 = 0 -> path ∉ denied w ->
  files w !! path = Some (kFileSignature 4 ++ concat (map (entry_line TAB) es)) ->
  Forall (loadable TAB) es ->
  (length es = 400%nat -> size (insert_entries es ∅) = 50%nat ->
   exists bl', Load BuildLog_new w path buf m = Returns true None bl' /\
               needs_recompaction_ bl' = true) /\
  (length es = 100%nat -> size (insert_entries es ∅) = 100%nat ->
   exists bl', Load BuildLog_new w path buf m = Returns true None bl' /\
               needs_recompaction_ bl' = false).
Proof.
  intros Hal Hden Hfile Hall. split; intros Hlen Hsize.
  - rewrite (Load_threshold w path buf m es) by (assumption || (rewrite Hlen; lia)).
    eexists. split; [reflexivity|]. cbn [needs_recompaction_].
    rewrite Hlen, Hsize. reflexivity.
  - rewrite (Load_threshold w path buf m es) by (assumption || (rewrite Hlen; lia)).
    eexists. split; [reflexivity|]. cbn [needs_recompaction_].
    rewrite Hlen, Hsize. reflexivity.
Qed.

(** C4, failing input.  A version 4 file with 101 records for the one
    output path [a]: a record of 19 bytes, 98 records of 16 bytes and two
    records of 10 bytes.  The scanner is called for record 100 at an
    address that is 2 modulo 16, finds the newline in the first block and
    returns the address 2 bytes past it; record 101 is then read from its
    third byte, lacks a separator and is skipped.  [Load] returns with 100
    records counted and needs_recompaction_ not set. *)
Lemma Load_miscounts_short_records :
  let long := {| output := lit "a"; command := lit "cc -c x.c."; start_time := 0;
                 end_time := 1; restat_mtime := 0 |} in
  let mid := {| output := lit "a"; command := lit "cc -c x"; start_time := 0;
                end_time := 1; restat_mtime := 0 |} in
  let short := {| output := lit "a"; command := lit "b"; start_time := 0;
                  end_time := 1; restat_mtime := 0 |} in
  let es := long :: repeat mid 98 ++ [short; short] in
  let content := kFileSignature 4 ++ concat (map WriteEntry_line es) in
  length es = 101%nat /\ size (insert_entries es ∅) = 1%nat /\
  exists lg,
    Load BuildLog_new (one_file (lit "log") content) (lit "log") 0 zero_memory
    = Returns true None {| log_ := lg; log_file_ := None; config_ := None;
                           needs_recompaction_ := false |}.
Proof.
  cbv zeta. split; [reflexivity|]. split; [vm_compute; reflexivity|].
  eexists. vm_compute. reflexivity.
Qed.


(** ** Dry run (C8) *)

Lemma RecordCommand_output_no_file cmd s e r bl w out :
  log_file_ bl = None ->
  let st := RecordCommand_output cmd s e r (bl, w) out in
  st.2 = w /\ log_file_ st.1 = None /\ config_ st.1 = config_ bl /\
  needs_recompaction_ st.1 = needs_recompaction_ bl /\
  log_ st.1 = log_assign (log_ bl) out cmd s e r.
Proof.
  intros Hf. unfold RecordCommand_output. cbn [log_file_]. rewrite Hf.
  cbn [fst snd log_file_ config_ needs_recompaction_ log_]. auto.
Qed.

Lemma RecordCommand_no_file edge s e r : forall bl w,
  log_file_ bl = None ->
  let st := RecordCommand bl w edge s e r in
  let c := {| call_edge := edge; call_start := s; call_end := e; call_restat := r |} in
  st.2 = w /\ log_file_ st.1 = None /\ config_ st.1 = config_ bl /\
  needs_recompaction_ st.1 = needs_recompaction_ bl /\
  log_ st.1 = fold_left assign_entry (call_entries c) (log_ bl).
Proof.
  unfold RecordCommand, call_entries. cbn [call_edge call_start call_end call_restat].
  induction (outputs_ edge) as [|out outs IH]; intros bl w Hf.
  - cbn. auto.
  - cbn [fold_left map].
    destruct (RecordCommand_output_no_file (EvaluateCommand edge) s e r bl w out Hf)
      as (H1 & H2 & H3 & H4 & H5).
    destruct (RecordCommand_output _ _ _ _ _ _) as [bl1 w1]. cbn [fst snd] in *. subst w1.
    destruct (IH bl1 w H2) as (I1 & I2 & I3 & I4 & I5). cbv zeta in *.
    split; [exact I1|]. split; [exact I2|]. split; [now rewrite I3|].
    split; [now rewrite I4|]. rewrite I5, H5. reflexivity.
Qed.

Lemma assign_entries_insert es : forall lg,
  key_inv lg -> fold_left assign_entry es lg = insert_entries es lg.
Proof.
  induction es as [|e es IH]; intros lg Hk; [reflexivity|].
  unfold insert_entries. cbn [fold_left]. unfold assign_entry at 2.
  rewrite log_assign_insert by assumption. apply IH, key_inv_insert, Hk.
Qed.

(** C8, counterexample.  A [BuildLog] opens its log, and is then given a
    configuration with [dry_run] set.  [OpenForWrite] now returns true
    and changes nothing, but the log file is still open, and a call of
    [RecordCommand] appends a record to it. *)
Lemma dry_run_with_open_log :
  let signature := lit "# ninja log v4" ++ [NL] in
  let w := one_file (lit "log") signature in
  let opened := {| log_ := ∅; log_file_ := Some (lit "log"); config_ := None;
                   needs_recompaction_ := false |} in
  let bl := set_config opened {| dry_run := true |} in
  let edge := mkEdge (lit "cat in > out") [lit "out"] in
  OpenForWrite BuildLog_new no_files (lit "log") = (true, None, opened, w) /\
  OpenForWrite bl w (lit "log") = (true, None, bl, w) /\
  files (RecordCommand bl w edge 1 2 3).2 !! lit "log"
  = Some (signature ++ lit "1" ++ [TAB] ++ lit "2" ++ [TAB] ++ lit "3" ++ [TAB]
            ++ lit "out" ++ [TAB] ++ lit "cat in > out" ++ [NL]).
Proof.
  cbv zeta. repeat split; vm_compute; reflexivity.
Qed.

(** C8, as amended.  With [dry_run] set in the configuration and no log
    file open, [OpenForWrite] returns true and leaves the [BuildLog] and
    the file system as they are.  Any calls of [RecordCommand] that
    follow leave the file system unchanged as well; of the [BuildLog]
    they change the map only, where they find or create, for each output
    of each call in turn, the entry of that path and assign it the
    command and the times of the call.  So, in a map that stores every
    entry under its own output path, [LookupByOutput] then gives for a
    path the entry of the last call that had it among its outputs, and
    what it gave before for a path that no call had. *)
Theorem dry_run_leaves_files bl w path cfg calls :
  config_ bl = Some cfg -> dry_run cfg = true -> log_file_ bl = None ->
  OpenForWrite bl w path = (true, None, bl, w) /\
  let es := concat (map call_entries calls) in
  let st := RecordCommands (bl, w) calls in
  st.2 = w /\ log_file_ st.1 = None /\ config_ st.1 = config_ bl /\
  needs_recompaction_ st.1 = needs_recompaction_ bl /\
  log_ st.1 = fold_left assign_entry es (log_ bl) /\
  (key_inv (log_ bl) ->
   forall k, LookupByOutput st.1 k
             = match last_entry_for k es with
               | Some e => Some e
               | None => LookupByOutput bl k
               end).
Proof.
  intros Hc Hd Hf. split.
  - unfold OpenForWrite. rewrite Hc, Hd. reflexivity.
  - cbv zeta.
    assert (H : let st := RecordCommands (bl, w) calls in
                st.2 = w /\ log_file_ st.1 = None /\ config_ st.1 = config_ bl /\
                needs_recompaction_ st.1 = needs_recompaction_ bl /\
                log_ st.1 = fold_left assign_entry (concat (map call_entries calls)) (log_ bl)).
    { clear Hc Hd. revert bl Hf.
      induction calls as [|c calls IH]; intros bl Hf; [cbn; auto|].
      change (RecordCommands (bl, w) (c :: calls))
        with (RecordCommands (RecordCommand bl w (call_edge c) (call_start c) (call_end c)
                                            (call_restat c)) calls).
      destruct (RecordCommand_no_file (call_edge c) (call_start c) (call_end c)
                  (call_restat c) bl w Hf) as (H1 & H2 & H3 & H4 & H5).
      destruct (RecordCommand _ _ _ _ _ _) as [bl1 w1]. cbn [fst snd] in *. subst w1.
      destruct (IH bl1 H2) as (I1 & I2 & I3 & I4 & I5). cbv zeta in *.
      split; [exact I1|]. split; [exact I2|]. split; [now rewrite I3|].
      split; [now rewrite I4|].
      cbn [map concat]. rewrite fold_left_app, I5, H5. destruct c; reflexivity. }
    cbv zeta in H. destruct H as (H1 & H2 & H3 & H4 & H5).
    repeat (split; [assumption|]).
    intros Hk k. unfold LookupByOutput.
    rewrite H5, assign_entries_insert by assumption. apply insert_entries_lookup.
Qed.

Lemma dry_run_leaves_files_witness :
  let bl := set_config BuildLog_new {| dry_run := true |} in
  let w := one_file (lit "log") (lit "# ninja log v4" ++ [NL]) in
  let calls := [mkCall (mkEdge (lit "cat in > out") [lit "out"; lit "out2"]) 1 2 3] in
  OpenForWrite bl w (lit "log") = (true, None, bl, w) /\
  let es := concat (map call_entries calls) in
  let st := RecordCommands (bl, w) calls in
  st.2 = w /\ log_file_ st.1 = None /\ config_ st.1 = config_ bl /\
  needs_recompaction_ st.1 = needs_recompaction_ bl /\
  log_ st.1 = fold_left assign_entry es (log_ bl) /\
  (key_inv (log_ bl) ->
   forall k, LookupByOutput st.1 k
             = match last_entry_for k es with
               | Some e => Some e
               | None => LookupByOutput bl k
               end).
Proof.
  cbv zeta. apply (dry_run_leaves_files _ _ _ {| dry_run := true |}); reflexivity.
Defined.


(** ** The deplist helper (C9) *)

Lemma main_option_output WIN32 o opt optarg o' :
  main_option WIN32 o opt optarg = OptNext o' ->
  output_filename o' = if Ascii.eqb opt "o" then Some optarg else output_filename o.
Proof.
  unfold main_option.
  destruct (Ascii.eqb_spec opt "f") as [->|_].
  { repeat case_decide; intros Heq; inversion Heq; reflexivity. }
  destruct (Ascii.eqb_spec opt "o") as [->|_].
  { intros Heq; inversion Heq; reflexivity. }
  destruct (WIN32 && Ascii.eqb opt "e"); [intros Heq; inversion Heq; reflexivity|].
  destruct (WIN32 && Ascii.eqb opt "C"); [intros Heq; inversion Heq; reflexivity|].
  destruct (Ascii.eqb opt "q"); [intros Heq; inversion Heq; reflexivity|].
  destruct (Ascii.eqb opt "r"); [intros Heq; inversion Heq; reflexivity|].
  discriminate.
Qed.

Lemma main_options_output WIN32 opts : forall o o',
  main_options WIN32 o opts = OptNext o' ->
  output_filename o' = given_o opts (output_filename o).
Proof.
  induction opts as [|[opt optarg] opts IH]; intros o o' H.
  - cbn in H. inversion H. reflexivity.
  - cbn [main_options] in H. unfold given_o. cbn [fold_left fst snd].
    destruct (main_option WIN32 o opt optarg) as [o1| |] eqn:Hopt; try discriminate.
    rewrite (IH _ _ H), (main_option_output _ _ _ _ _ Hopt). reflexivity.
Qed.

(** C9, counterexample.  An invocation with [-h] alone is given no [-o];
    it prints the usage text and returns 0: it is not ended by [Fatal]
    and writes to no database. *)
Lemma main_help_returns_0 :
  main false (fun _ => inr []) (fun _ => inl []) (fun _ => Some [])
       (fun content => ([], [])) (fun i _ => i) [("h"%char, [])] []
  = ([EvUsage], Return 0).
Proof. reflexivity. Qed.

(** C9, as amended.  For every invocation of [main] whose option loop
    runs to its end (every option is one that the [switch] handles) and
    whose input is read and parsed without a fatal error: the dependency
    list goes to the database [".ninja_depdb"] under the name given with
    [-o], and when no [-o] was given the program ends with the fatal
    error "-d requires -o"; it is in no case written to standard output
    or to the [-o] file. *)
Theorem main_routes_through_depdb WIN32 ReadInput RunCommand DepfileParser_Parse
    ShowIncludes_Filter IncludesNormalize_Normalize opts operands o returncode events ins :
  main_options WIN32 Options_init opts = OptNext o ->
  main_input ReadInput RunCommand DepfileParser_Parse ShowIncludes_Filter
             IncludesNormalize_Normalize o operands = inr (returncode, events, ins) ->
  let result := main WIN32 ReadInput RunCommand DepfileParser_Parse ShowIncludes_Filter
                     IncludesNormalize_Normalize opts operands in
  result = match given_o opts None with
           | Some output_filename =>
               (events ++ [EvWriteDatabase (lit ".ninja_depdb") output_filename ins],
                Return returncode)
           | None => (events, Fatal (lit "-d requires -o"))
           end /\
  forall f ins', EvWrite f ins' ∉ result.1.
Proof.
  intros Hopts Hin result.
  assert (Hev : forall f ins', EvWrite f ins' ∉ events).
  { intros f ins' Hel. unfold main_input in Hin.
    destruct (if run_command o then _ else _) as [msg|[rc content]]; [discriminate|].
    destruct (input_format o).
    - destruct (DepfileParser_Parse content); inversion Hin; subst.
      apply elem_of_nil in Hel. exact Hel.
    - destruct (ShowIncludes_Filter _) as [text includes]. inversion Hin; subst.
      apply list_elem_of_singleton in Hel. discriminate. }
  assert (Hres : result = match given_o opts None with
           | Some output_filename =>
               (events ++ [EvWriteDatabase (lit ".ninja_depdb") output_filename ins],
                Return returncode)
           | None => (events, Fatal (lit "-d requires -o"))
           end).
  { unfold result, main. rewrite Hopts, Hin. unfold main_output, db_filename.
    rewrite (main_options_output _ _ _ _ Hopts). cbn [output_filename Options_init].
    destruct (given_o opts None); [reflexivity|]. now rewrite app_nil_r. }
  split; [exact Hres|].
  intros f ins' Hel. rewrite Hres in Hel.
  destruct (given_o opts None); cbn [fst] in Hel.
  - apply elem_of_app in Hel. destruct Hel as [Hel|Hel]; [now apply (Hev f ins')|].
    apply list_elem_of_singleton in Hel. discriminate.
  - now apply (Hev f ins').
Qed.

Lemma main_routes_through_depdb_witness :
  let result := main false (fun _ => inr (lit "foo.o: foo.c")) (fun _ => inl [])
                     (fun _ => Some [lit "foo.c"]) (fun content => ([], []))
                     (fun i _ => i) [("o"%char, lit "foo.o")] [lit "foo.d"] in
  result = ([EvWriteDatabase (lit ".ninja_depdb") (lit "foo.o") [lit "foo.c"]], Return 0) /\
  forall f ins', EvWrite f ins' ∉ result.1.
Proof.
  cbv zeta.
  apply (main_routes_through_depdb false (fun _ => inr (lit "foo.o: foo.c"))
           (fun _ => inl []) (fun _ => Some [lit "foo.c"]) (fun content => ([], []))
           (fun i _ => i) [("o"%char, lit "foo.o")] [lit "foo.d"]
           (mkOptions (Some (lit "foo.o")) None None INPUT_DEPFILE false false)
           0 [] [lit "foo.c"]); reflexivity.
Defined.

(** ** More on the line scanner *)

Lemma ctz_pos_spec p :
  0 <= ctz_pos p /\ Z.testbit (Zpos p) (ctz_pos p) = true /\
  forall i, 0 <= i < ctz_pos p -> Z.testbit (Zpos p) i = false.
Proof.
  induction p as [p IH|p IH|]; cbn [ctz_pos].
  - split; [lia|]. split; [reflexivity|]. intros i Hi. lia.
  - destruct IH as (H0 & H1 & H2). split; [lia|].
    change (Zpos p~0) with (2 * Zpos p). split.
    + replace (1 + ctz_pos p) with (Z.succ (ctz_pos p)) by lia.
      now rewrite Z.double_bits_succ.
    + intros i Hi. destruct (Z.eq_dec i 0) as [->|Hne].
      * apply Z.testbit_even_0.
      * replace i with (Z.succ (i - 1)) by lia. rewrite Z.double_bits_succ.
        apply H2. lia.
  - split; [lia|]. split; [reflexivity|]. intros i Hi. lia.
Qed.

(** X1.  [CountTrailingZeros_32] gives 32 for the value 0 and otherwise
    the index, below 32, of the lowest set bit of its 32-bit argument. *)
Theorem CountTrailingZeros_32_lowest_bit val :
  let v := val mod 2 ^ 32 in
  let k := CountTrailingZeros_32 val in
  (v = 0 /\ k = 32) \/
  (v <> 0 /\ 0 <= k < 32 /\ Z.testbit v k = true /\
   forall i, 0 <= i < k -> Z.testbit v i = false).
Proof.
  intros v k. unfold k, CountTrailingZeros_32. fold v.
  assert (Hv : 0 <= v < 2 ^ 32) by (apply Z.mod_pos_bound; lia).
  destruct (Z.eqb_spec v 0) as [H0|Hne]; [now left|right].
  split; [assumption|].
  destruct v as [|p|p]; [congruence| |lia].
  cbn [__builtin_ctz]. destruct (ctz_pos_spec p) as (Hk0 & Hk1 & Hk2).
  repeat split; try assumption.
  destruct (Z.lt_ge_cases (ctz_pos p) 32) as [|Hge]; [assumption|exfalso].
  rewrite Z.testbit_true in Hk1 by assumption.
  rewrite Z.div_small in Hk1; [discriminate|].
  split; [lia|]. apply Z.lt_le_trans with (2 ^ 32); [lia|].
  apply Z.pow_le_mono_r; lia.
Qed.

Lemma memchr_from_hit m c n : forall a p,
  memchr_from m a c n = Some p -> m p = c.
Proof.
  induction n as [|n IH]; intros a p H; [discriminate|].
  cbn [memchr_from] in H. destruct (Ascii.eqb (m a) c) eqn:E.
  - injection H as <-. now apply ascii_eqb_true.
  - now apply IH in H.
Qed.

(** X2.  [memchrSSE2] returns for every memory, address, byte and length
    [n >= 0], and on return the memory is what it was before the call:
    the sentinel written at [str + n] has been restored.  A pointer it
    returns lies in [str, str + n), and the byte then occurs in that
    range at or before the pointer; so the result is NULL whenever the
    byte does not occur in the range. *)
Theorem memchrSSE2_terminates m str c n :
  0 <= n ->
  exists r, memchrSSE2 m str c n = Some (m, r) /\
    match r with
    | Some p => str <= p < str + n /\
                exists q, memchr m str c n = Some q /\ q <= p /\ m q = char_of_int c
    | None => True
    end.
Proof.
  intros Hn. rewrite memchrSSE2_spec by assumption. cbv zeta.
  eexists. split; [reflexivity|].
  assert (Hu : 0 <= Z.land str 15 < 16)
    by (rewrite land_15; apply Z.mod_pos_bound; lia).
  destruct (if 0 <? Z.land str 15 then _ else None) as [k|] eqn:Hk.
  - destruct (Z.ltb_spec 0 (Z.land str 15)) as [Hpos|]; [|discriminate].
    apply first_hit_load_Some in Hk. destruct Hk as (Hk & Hat & Hbefore).
    destruct (Z.ltb_spec (str + (Z.land str 15 + k)) (str + n)) as [Hlt|]; [|exact I].
    split; [lia|]. exists (str + k).
    assert (Hm : forall i, 0 <= i <= k -> store m (str + n) (char_of_int c) (str + i)
                                          = m (str + i))
      by (intros i Hi; apply store_ne; lia).
    rewrite Hm in Hat by lia. split; [|split; [lia|assumption]].
    unfold memchr. apply memchr_from_Some; [lia|assumption|].
    intros i Hi. rewrite <- Hm by lia. now apply Hbefore.
  - destruct (memchr m str c n) as [p|] eqn:Hp; [|exact I].
    unfold memchr in Hp. pose proof (memchr_from_range _ _ _ _ _ Hp) as Hr.
    pose proof (memchr_from_hit _ _ _ _ _ Hp) as Hh.
    split; [lia|]. exists p. split; [reflexivity|]. split; [lia|assumption].
Qed.

Lemma memchrSSE2_terminates_witness :
  let m := store_bytes zero_memory 17 [ "a"; NL; "b" ]%char in
  0 <= 3 /\
  exists r, memchrSSE2 m 17 10 3 = Some (m, r) /\
    match r with
    | Some p => 17 <= p < 17 + 3 /\
                exists q, memchr m 17 10 3 = Some q /\ q <= p /\ m q = char_of_int 10
    | None => True
    end.
Proof.
  split; [lia|]. apply (memchrSSE2_terminates _ 17 10 3). lia.
Defined.

Lemma memchr_from_first m c k : forall str,
  match memchr_from m str c k with
  | Some p => str <= p < str + Z.of_nat k /\ m p = c /\ forall a, str <= a < p -> m a <> c
  | None => forall a, str <= a < str + Z.of_nat k -> m a <> c
  end.
Proof.
  induction k as [|k IH]; intros str.
  - cbn [memchr_from]. intros a Ha. lia.
  - cbn [memchr_from]. destruct (Ascii.eqb (m str) c) eqn:E.
    + apply ascii_eqb_true in E. split; [lia|]. split; [assumption|]. intros a Ha. lia.
    + apply ascii_eqb_false in E. specialize (IH (str + 1)).
      destruct (memchr_from m (str + 1) c k) as [p|].
      * destruct IH as (Hr & Hp & Hb). split; [lia|]. split; [assumption|].
        intros a Ha. destruct (Z.eq_dec a str) as [->|]; [assumption|]. apply Hb. lia.
      * intros a Ha. destruct (Z.eq_dec a str) as [->|]; [assumption|]. apply IH. lia.
Qed.

(** X3.  When [str] is 16-byte aligned, or the byte does not occur among
    the bytes of the range that lie before the next 16-byte boundary,
    [memchrSSE2] returns what [memchr] returns: the first occurrence of
    the byte among the [n] bytes at [str], or NULL. *)
Theorem memchrSSE2_agrees_with_memchr m str c n :
  0 <= n ->
  str mod 16 = 0 \/
  (forall a, str <= a < str + n -> a < str + 16 - str mod 16 -> m a <> char_of_int c) ->
  memchrSSE2 m str c n = Some (m, memchr m str c n) /\
  match memchr m str c n with
  | Some p => str <= p < str + n /\ m p = char_of_int c /\
              forall a, str <= a < p -> m a <> char_of_int c
  | None => forall a, str <= a < str + n -> m a <> char_of_int c
  end.
Proof.
  intros Hn Hcase. split.
  - apply memchrSSE2_correct; [assumption|]. rewrite land_15.
    destruct Hcase as [Hal|Hfree]; [now left|right].
    intros i Hi. apply Hfree; lia.
  - unfold memchr. pose proof (memchr_from_first m (char_of_int c) (Z.to_nat n) str) as H.
    rewrite Z2Nat.id in H by assumption. exact H.
Qed.

Lemma memchrSSE2_agrees_with_memchr_witness :
  let m := store_bytes zero_memory 32 [ "a"; NL; "b" ]%char in
  memchrSSE2 m 32 10 3 = Some (m, memchr m 32 10 3) /\
  match memchr m 32 10 3 with
  | Some p => 32 <= p < 32 + 3 /\ m p = char_of_int 10 /\
              forall a, 32 <= a < p -> m a <> char_of_int 10
  | None => forall a, 32 <= a < 32 + 3 -> m a <> char_of_int 10
  end.
Proof.
  apply (memchrSSE2_agrees_with_memchr _ 32 10 3); [lia|]. left. reflexivity.
Defined.

(** X4.  When [str] is not 16-byte aligned and the first occurrence of
    the byte lies [k] bytes into the range, before the next 16-byte
    boundary, [memchrSSE2] does not return [str + k] as [memchr] does: it
    returns the address [str mod 16] bytes further on when that is still
    inside the range, and NULL otherwise. *)
Theorem memchrSSE2_unaligned_result m str c n k :
  0 < str mod 16 -> 0 <= k < n -> k < 16 - str mod 16 ->
  m (str + k) = char_of_int c ->
  (forall i, 0 <= i < k -> m (str + i) <> char_of_int c) ->
  memchr m str c n = Some (str + k) /\
  memchrSSE2 m str c n
  = Some (m, if str mod 16 + k <? n then Some (str + (str mod 16 + k)) else None).
Proof.
  intros Hu Hk Hb Hat Hbefore. split.
  - unfold memchr. apply memchr_from_Some; [lia|assumption|assumption].
  - rewrite memchrSSE2_spec by lia. cbv zeta. rewrite land_15.
    destruct (Z.ltb_spec 0 (str mod 16)) as [_|]; [|lia].
    set (ms := store m (str + n) (char_of_int c)).
    assert (Hm : forall i, 0 <= i <= k -> ms (str + i) = m (str + i))
      by (intros i Hi; apply store_ne; lia).
    assert (Hhit : first_hit (char_of_int c)
                     (load_bytes ms str (Z.to_nat (16 - str mod 16))) = Some k).
    { destruct (first_hit _ _) as [k'|] eqn:E.
      - apply first_hit_load_Some in E. destruct E as (Hk' & Hat' & Hbefore').
        f_equal. destruct (Z.lt_trichotomy k' k) as [Hlt|[->|Hgt]]; [|reflexivity|].
        + exfalso. apply (Hbefore k'); [lia|]. rewrite <- Hm by lia. assumption.
        + exfalso. apply (Hbefore' k); [lia|]. rewrite Hm by lia. assumption.
      - exfalso. apply (first_hit_load_None _ _ _ _ E k); [lia|].
        rewrite Hm by lia. assumption. }
    rewrite Hhit. do 2 f_equal.
    destruct (Z.ltb_spec (str + (str mod 16 + k)) (str + n));
      destruct (Z.ltb_spec (str mod 16 + k) n); try reflexivity; lia.
Qed.

Lemma memchrSSE2_unaligned_result_witness :
  let m := store_bytes zero_memory 17 [ "a"; NL; "b" ]%char in
  memchr m 17 10 3 = Some (17 + 1) /\
  memchrSSE2 m 17 10 3
  = Some (m, if 17 mod 16 + 1 <? 3 then Some (17 + (17 mod 16 + 1)) else None).
Proof.
  intros m. apply (memchrSSE2_unaligned_result m 17 10 3 1); try reflexivity; try lia.
  intros i Hi. assert (i = 0) as -> by lia. discriminate.
Defined.


(** ** [Recompact] and [OpenForWrite]: every outcome *)

Lemma last_app_cons {A} (l ws : list A) : forall x d,
  List.last (l ++ x :: ws) d = List.last ws x.
Proof.
  induction l as [|y l IH]; intros x d.
  - apply last_cons_default.
  - change ((y :: l) ++ x :: ws) with (y :: (l ++ x :: ws)).
    rewrite last_cons_default. apply IH.
Qed.

Lemma last_two {A} (l : list A) a b d : List.last (l ++ [a; b]) d = b.
Proof.
  change [a; b] with ([a] ++ [b]). rewrite app_assoc. apply last_last.
Qed.

Lemma WriteEntry_states_stdout f es : forall w,
  stdout (List.last (WriteEntry_states w f es) w) = stdout w.
Proof.
  induction es as [|e es IH]; intros w; [reflexivity|].
  cbn [WriteEntry_states]. rewrite last_cons_default, IH. reflexivity.
Qed.

Lemma kFileSignature_not_nil v : kFileSignature v <> [].
Proof. unfold kFileSignature. discriminate. Qed.

(** The result of [Recompact] and the file system it leaves, in each of
    its three ways out. *)
Lemma Recompact_spec bl w path :
  let temp_path := path ++ lit ".recompact" in
  exists ok err w',
    Recompact bl w path = (ok, err, w') /\ denied w' = denied w /\
    stdout w' = stdout w ++ lit "Recompacting log..." ++ [NL] /\
    (forall p, p <> path -> p <> temp_path -> files w' !! p = files w !! p) /\
    if decide (temp_path ∈ denied w) then
      ok = false /\ err = Some EACCES /\ files w' = files w
    else match files w !! path with
         | None => ok = false /\ err = Some ENOENT /\ files w' !! path = None /\
                   files w' !! temp_path = Some (recompacted (log_ bl))
         | Some _ => ok = true /\ err = None /\
                     files w' !! path = Some (recompacted (log_ bl)) /\
                     files w' !! temp_path = None
         end.
Proof.
  intros temp_path. unfold Recompact, Recompact_run. fold temp_path.
  set (w0 := printf w _). unfold fopen_w. change (denied w0) with (denied w).
  pose proof (temp_path_ne path) as Hne. fold temp_path in Hne.
  destruct (decide (temp_path ∈ denied w)) as [Hd|Hd].
  - exists false, (Some EACCES), w0. cbn [List.last]. repeat split; reflexivity.
  - set (w1 := set_files w0 _). set (w2 := fwrite w1 temp_path _).
    set (es := map snd (map_to_list (log_ bl))).
    assert (H2 : files w2 !! temp_path = Some (kFileSignature kCurrentVersion)).
    { unfold w2, fwrite, w1, set_files. cbn [files].
      now rewrite lookup_alter_eq, lookup_insert_eq. }
    assert (H2o : forall p, p <> temp_path -> files w2 !! p = files w !! p).
    { intros p Hp. unfold w2, fwrite, w1, set_files. cbn [files].
      rewrite lookup_alter_ne, lookup_insert_ne by congruence. reflexivity. }
    destruct (WriteEntry_states_spec temp_path es w2 _ H2) as (H3 & H3d & H3o & _).
    pose proof (WriteEntry_states_stdout temp_path es w2) as H3s.
    set (ws := WriteEntry_states w2 temp_path es) in *. cbv zeta in *.
    set (w3 := List.last ws w2) in *.
    unfold unlink. rewrite (H3o path), (H2o path) by congruence.
    destruct (files w !! path) as [old|] eqn:Hp.
    + unfold rename, set_files. cbn [files denied stdout].
      rewrite lookup_delete_ne, H3 by congruence.
      rewrite (app_assoc [w0; w1; w2] ws), last_two.
      eexists true, None, _. split; [reflexivity|].
      cbn [files denied stdout]. split; [exact H3d|]. split; [exact H3s|]. split.
      * intros p Hp1 Hp2.
        rewrite lookup_insert_ne, !lookup_delete_ne by congruence.
        rewrite H3o, H2o by congruence. reflexivity.
      * repeat split.
        -- now rewrite lookup_insert_eq.
        -- rewrite lookup_insert_ne by congruence. apply lookup_delete_eq.
    + change ([w0; w1; w2] ++ ws) with ([w0; w1] ++ w2 :: ws).
      rewrite last_app_cons. fold w3.
      eexists false, (Some ENOENT), w3. split; [reflexivity|].
      split; [exact H3d|]. split; [exact H3s|]. split.
      * intros p Hp1 Hp2. rewrite H3o, H2o by congruence. reflexivity.
      * repeat split.
        -- rewrite H3o, H2o by congruence. assumption.
        -- exact H3.
Qed.

(** X5.  [Recompact] touches two paths only: every file other than
    [path] and [path + ".recompact"] is as before, whether the call
    succeeds or fails, and the line "Recompacting log..." is printed in
    either case. *)
Theorem Recompact_other_files bl w path p :
  p <> path -> p <> path ++ lit ".recompact" ->
  files (Recompact bl w path).2 !! p = files w !! p /\
  stdout (Recompact bl w path).2 = stdout w ++ lit "Recompacting log..." ++ [NL].
Proof.
  intros Hp1 Hp2. destruct (Recompact_spec bl w path) as (ok & err & w' & Heq & _ & Hs & Ho & _).
  rewrite Heq. cbn [snd]. split; [now apply Ho|exact Hs].
Qed.

Lemma Recompact_other_files_witness :
  let bl := {| log_ := {[ lit "out" := {| output := lit "out"; command := lit "cat in > out";
                                         start_time := 1; end_time := 2;
                                         restat_mtime := 3 |} ]};
               log_file_ := None; config_ := None; needs_recompaction_ := true |} in
  let w := {| files := {[ lit "log" := lit "# ninja log v3" ++ [NL];
                          lit "build.ninja" := lit "rule cat" ]};
              denied := ∅; unwritable := ∅; stdout := [] |} in
  files (Recompact bl w (lit "log")).2 !! lit "build.ninja" = files w !! lit "build.ninja" /\
  stdout (Recompact bl w (lit "log")).2 = stdout w ++ lit "Recompacting log..." ++ [NL].
Proof.
  apply Recompact_other_files; discriminate.
Defined.

(** X6.  [Recompact] fails exactly when the sibling file cannot be opened
    or there is no file at [path] to unlink; it then reports an error and
    leaves [path] as it was. *)
Theorem Recompact_fails_iff bl w path ok err w' :
  Recompact bl w path = (ok, err, w') ->
  (ok = false <-> (path ++ lit ".recompact") ∈ denied w \/ files w !! path = None) /\
  (ok = false -> is_Some err /\ files w' !! path = files w !! path) /\
  (ok = true -> err = None).
Proof.
  intros Heq. destruct (Recompact_spec bl w path) as (ok' & err' & w'' & Heq' & _ & _ & _ & Hc).
  rewrite Heq in Heq'. injection Heq' as <- <- <-. cbv zeta in Hc.
  destruct (decide (_ ∈ denied w)) as [Hd|Hd].
  - destruct Hc as (-> & -> & Hf). rewrite Hf. split; [tauto|]. split; [eauto|discriminate].
  - destruct (files w !! path) as [old|] eqn:Hp.
    + destruct Hc as (-> & -> & _). split; [|split; [discriminate|reflexivity]].
      split; [discriminate|]. intros [?|?]; [contradiction|discriminate].
    + destruct Hc as (-> & -> & Hf & _). split; [tauto|]. split; [|discriminate].
      intros _. split; [eauto|assumption].
Qed.

Lemma Recompact_fails_iff_witness :
  let bl := {| log_ := ∅; log_file_ := None; config_ := None; needs_recompaction_ := true |} in
  let w' := {| files := {[ lit "log.recompact" := lit "# ninja log v4" ++ [NL] ]};
               denied := ∅; unwritable := ∅; stdout := lit "Recompacting log..." ++ [NL] |} in
  (false = false <-> (lit "log" ++ lit ".recompact") ∈ denied no_files
                     \/ files no_files !! lit "log" = None) /\
  (false = false -> is_Some (Some ENOENT) /\ files w' !! lit "log" = files no_files !! lit "log") /\
  (false = true -> Some ENOENT = None).
Proof.
  apply (Recompact_fails_iff
           {| log_ := ∅; log_file_ := None; config_ := None; needs_recompaction_ := true |}
           no_files (lit "log")).
  reflexivity.
Defined.

(** X7.  When there is no file at [path], [Recompact] still writes the
    compacted log to [path + ".recompact"], then fails with [ENOENT] and
    leaves that sibling file behind. *)
Theorem Recompact_leaves_sibling bl w path :
  (path ++ lit ".recompact") ∉ denied w -> files w !! path = None ->
  exists w',
    Recompact bl w path = (false, Some ENOENT, w') /\
    files w' !! (path ++ lit ".recompact") = Some (recompacted (log_ bl)) /\
    files w' !! path = None.
Proof.
  intros Hd Hp. destruct (Recompact_spec bl w path) as (ok & err & w' & Heq & _ & _ & _ & Hc).
  cbv zeta in Hc. rewrite decide_False, Hp in Hc by assumption.
  destruct Hc as (-> & -> & H1 & H2). eauto.
Qed.

Lemma Recompact_leaves_sibling_witness :
  let bl := {| log_ := {[ lit "out" := {| output := lit "out"; command := lit "cat in > out";
                                         start_time := 1; end_time := 2;
                                         restat_mtime := 3 |} ]};
               log_file_ := None; config_ := None; needs_recompaction_ := true |} in
  exists w',
    Recompact bl no_files (lit "log") = (false, Some ENOENT, w') /\
    files w' !! (lit "log" ++ lit ".recompact") = Some (recompacted (log_ bl)) /\
    files w' !! lit "log" = None.
Proof.
  apply Recompact_leaves_sibling; [|reflexivity]. cbn. set_solver.
Defined.

Lemma recompacted_cons lg : exists c content, recompacted lg = c :: content.
Proof. unfold recompacted, kFileSignature. cbn. eauto. Qed.

Lemma ftell_cons w path c content :
  files w !! path = Some (c :: content) -> (ftell w path =? 0) = false.
Proof.
  intros H. unfold ftell. rewrite H. cbn [length]. apply Z.eqb_neq. lia.
Qed.

(** X8.  Outside dry-run mode and with no compaction pending,
    [OpenForWrite] on a path that can be opened leaves the log open on
    [path].  When the file there is not empty it returns true and leaves
    the content in place.  When the file is new or empty it writes the
    version 4 signature and returns true, unless that write fails: then
    it returns false with the error set, the log still open on [path] and
    the file, created where it was missing, empty.  No other file changes
    and nothing is printed. *)
Theorem OpenForWrite_signature bl w path :
  is_dry_run bl = false -> needs_recompaction_ bl = false -> path ∉ denied w ->
  let bl' := {| log_ := log_ bl; log_file_ := Some path; config_ := config_ bl;
                needs_recompaction_ := needs_recompaction_ bl |} in
  exists w',
    (forall p, p <> path -> files w' !! p = files w !! p) /\
    denied w' = denied w /\ stdout w' = stdout w /\
    match files w !! path with
    | Some (c :: content) =>
        OpenForWrite bl w path = (true, None, bl', w') /\
        files w' !! path = Some (c :: content)
    | _ =>
        if decide (path ∈ unwritable w) then
          OpenForWrite bl w path = (false, Some ENOSPC, bl', w') /\
          files w' !! path = Some []
        else
          OpenForWrite bl w path = (true, None, bl', w') /\
          files w' !! path = Some (kFileSignature kCurrentVersion)
    end.
Proof.
  intros Hdry Hrec Hden bl'. unfold bl', OpenForWrite. unfold is_dry_run in Hdry.
  rewrite Hdry. destruct (needs_recompaction_ bl) eqn:E; [discriminate|].
  cbn [negb]. rewrite ?E. unfold fopen_a, fprintf_flushed.
  rewrite decide_False by assumption.
  destruct (files w !! path) as [[|c content]|] eqn:Hp.
  - unfold ftell. rewrite Hp. cbn [length]. change (Z.of_nat 0 =? 0) with true. cbv iota.
    destruct (decide (path ∈ unwritable w)).
    + exists w. repeat split; assumption.
    + eexists. split; [|split; [|split; [|split; [reflexivity|]]]].
      * intros p Hne. unfold fwrite, set_files. cbn [files]. now rewrite lookup_alter_ne.
      * reflexivity.
      * reflexivity.
      * unfold fwrite, set_files. cbn [files]. now rewrite lookup_alter_eq, Hp.
  - rewrite (ftell_cons _ _ _ _ Hp). exists w. repeat split; assumption.
  - unfold ftell, set_files. cbn [files unwritable]. rewrite lookup_insert_eq.
    cbn [length]. change (Z.of_nat 0 =? 0) with true. cbv iota.
    destruct (decide (path ∈ unwritable w)).
    + eexists. split; [|split; [|split; [|split; [reflexivity|]]]].
      * intros p Hne. cbn [files]. now rewrite lookup_insert_ne.
      * reflexivity.
      * reflexivity.
      * cbn [files]. now rewrite lookup_insert_eq.
    + eexists. split; [|split; [|split; [|split; [reflexivity|]]]].
      * intros p Hne. unfold fwrite, set_files. cbn [files].
        now rewrite lookup_alter_ne, lookup_insert_ne.
      * reflexivity.
      * reflexivity.
      * unfold fwrite, set_files. cbn [files]. now rewrite lookup_alter_eq, lookup_insert_eq.
Qed.

Lemma OpenForWrite_signature_witness :
  let w := {| files := ∅; denied := ∅; unwritable := {[ lit "log" ]}; stdout := [] |} in
  let bl' := {| log_ := ∅; log_file_ := Some (lit "log"); config_ := None;
                needs_recompaction_ := false |} in
  exists w',
    (forall p, p <> lit "log" -> files w' !! p = files w !! p) /\
    denied w' = denied w /\ stdout w' = stdout w /\
    OpenForWrite BuildLog_new w (lit "log") = (false, Some ENOSPC, bl', w') /\
    files w' !! lit "log" = Some [].
Proof.
  intros w bl'.
  apply (OpenForWrite_signature BuildLog_new w (lit "log")); [reflexivity|reflexivity|].
  cbn. set_solver.
Defined.

(** X9.  Whatever [OpenForWrite] returns, the map, the configuration and
    the compaction flag of the [BuildLog] are as before.  When it returns
    true the error is not set, and either this is dry-run mode and
    nothing has changed, or the log is open on [path] and the file there
    is not empty.  When it returns false the error is set, and either no
    log file is open, or the write of the signature has failed: then the
    log is still open on [path] and the file there is empty. *)
Theorem OpenForWrite_result bl w path ok err bl' w' :
  OpenForWrite bl w path = (ok, err, bl', w') ->
  log_ bl' = log_ bl /\ config_ bl' = config_ bl /\
  needs_recompaction_ bl' = needs_recompaction_ bl /\
  if ok then
    err = None /\
    if is_dry_run bl then bl' = bl /\ w' = w
    else log_file_ bl' = Some path /\ exists c content, files w' !! path = Some (c :: content)
  else
    is_Some err /\
    (log_file_ bl' = None \/
     (log_file_ bl' = Some path /\ err = Some ENOSPC /\ files w' !! path = Some [])).
Proof.
  unfold OpenForWrite, is_dry_run.
  destruct (match config_ bl with Some config => dry_run config | None => false end).
  { intros H. injection H as <- <- <- <-. repeat split. }
  assert (Hopen : forall b w1,
    log_ b = log_ bl -> config_ b = config_ bl ->
    needs_recompaction_ b = needs_recompaction_ bl ->
    match fopen_a w1 path with
    | inl e => (false, Some e, Close b, w1)
    | inr w2 =>
        let b2 := {| log_ := log_ b; log_file_ := Some path; config_ := config_ b;
                     needs_recompaction_ := needs_recompaction_ b |} in
        if ftell w2 path =? 0 then
          match fprintf_flushed w2 path (kFileSignature kCurrentVersion) with
          | inl e => (false, Some e, b2, w2)
          | inr w3 => (true, None, b2, w3)
          end
        else (true, None, b2, w2)
    end = (ok, err, bl', w') ->
    log_ bl' = log_ bl /\ config_ bl' = config_ bl /\
    needs_recompaction_ bl' = needs_recompaction_ bl /\
    if ok then
      err = None /\ log_file_ bl' = Some path /\
      exists c content, files w' !! path = Some (c :: content)
    else
      is_Some err /\
      (log_file_ bl' = None \/
       (log_file_ bl' = Some path /\ err = Some ENOSPC /\ files w' !! path = Some []))).
  { intros b w1 H1 H2 H3. unfold fopen_a, fprintf_flushed. cbv zeta.
    destruct (decide (path ∈ denied w1)).
    { intros H. injection H as <- <- <- <-. cbn. eauto 10. }
    assert (Hsig : exists c content, kFileSignature kCurrentVersion = c :: content)
      by (unfold kFileSignature; cbn; eauto).
    destruct Hsig as (c0 & content0 & Hsig).
    destruct (files w1 !! path) as [[|c content]|] eqn:Hp.
    - unfold ftell. rewrite Hp. cbn [length]. change (Z.of_nat 0 =? 0) with true. cbv iota.
      destruct (decide (path ∈ unwritable w1)).
      + intros H. injection H as <- <- <- <-.
        cbn [log_ config_ needs_recompaction_ log_file_]. eauto 10.
      + intros H. injection H as <- <- <- <-.
        cbn [log_ config_ needs_recompaction_ log_file_].
        repeat split; try assumption.
        unfold fwrite, set_files. cbn [files]. rewrite lookup_alter_eq, Hp.
        rewrite Hsig. cbn. eauto.
    - rewrite (ftell_cons _ _ _ _ Hp).
      intros H. injection H as <- <- <- <-. cbn [log_ config_ needs_recompaction_ log_file_].
      repeat split; try assumption. eauto.
    - unfold ftell, set_files. cbn [files unwritable]. rewrite lookup_insert_eq.
      cbn [length]. change (Z.of_nat 0 =? 0) with true. cbv iota.
      destruct (decide (path ∈ unwritable w1)).
      + intros H. injection H as <- <- <- <-.
        cbn [log_ config_ needs_recompaction_ log_file_ files].
        rewrite lookup_insert_eq. eauto 10.
      + intros H. injection H as <- <- <- <-.
        cbn [log_ config_ needs_recompaction_ log_file_].
        repeat split; try assumption.
        unfold fwrite, set_files. cbn [files]. rewrite lookup_alter_eq, lookup_insert_eq.
        rewrite Hsig. cbn. eauto. }
  destruct (needs_recompaction_ bl) eqn:Hrec.
  - destruct (Recompact_spec (Close bl) w path) as (ok1 & err1 & w1 & Heq & _ & _ & _ & Hc).
    rewrite Heq. destruct ok1; cbn [negb].
    + intros H. apply Hopen in H; auto.
    + intros H. injection H as <- <- <- <-. cbn. repeat split; try assumption.
      * cbv zeta in Hc. destruct (decide _); [destruct Hc as (_ & -> & _); eauto|].
        destruct (files w !! path); destruct Hc as (Hok & -> & _); [discriminate|eauto].
      * now left.
  - cbn [negb]. intros H. apply Hopen in H; auto.
Qed.

Lemma OpenForWrite_result_witness :
  let w := {| files := ∅; denied := ∅; unwritable := {[ lit "log" ]}; stdout := [] |} in
  let bl' := {| log_ := ∅; log_file_ := Some (lit "log"); config_ := None;
                needs_recompaction_ := false |} in
  let w' := {| files := {[ lit "log" := [] ]}; denied := ∅; unwritable := {[ lit "log" ]};
               stdout := [] |} in
  log_ bl' = log_ BuildLog_new /\ config_ bl' = config_ BuildLog_new /\
  needs_recompaction_ bl' = needs_recompaction_ BuildLog_new /\
  is_Some (Some ENOSPC) /\
  (log_file_ bl' = None \/
   (log_file_ bl' = Some (lit "log") /\ Some ENOSPC = Some ENOSPC /\
    files w' !! lit "log" = Some [])).
Proof.
  intros w bl' w'.
  apply (OpenForWrite_result BuildLog_new w (lit "log") false (Some ENOSPC) bl' w').
  vm_compute. reflexivity.
Defined.

(** X10.  With a compaction pending and a log at [path], [OpenForWrite]
    (outside dry-run mode) replaces the file by the compacted log, a
    fresh signature and one record for each entry of the map, and leaves
    the log open on it without writing a second signature.  The sibling
    file is gone and the flag is still set, so the next [OpenForWrite]
    compacts again. *)
Theorem OpenForWrite_recompacts bl w path old :
  is_dry_run bl = false -> needs_recompaction_ bl = true ->
  path ∉ denied w -> (path ++ lit ".recompact") ∉ denied w ->
  files w !! path = Some old ->
  exists bl' w',
    OpenForWrite bl w path = (true, None, bl', w') /\
    log_file_ bl' = Some path /\ log_ bl' = log_ bl /\ needs_recompaction_ bl' = true /\
    files w' !! path = Some (recompacted (log_ bl)) /\
    files w' !! (path ++ lit ".recompact") = None /\
    stdout w' = stdout w ++ lit "Recompacting log..." ++ [NL].
Proof.
  intros Hdry Hrec Hden Hdent Hp. unfold OpenForWrite. unfold is_dry_run in Hdry.
  rewrite Hdry, Hrec.
  destruct (Recompact_spec (Close bl) w path) as (ok1 & err1 & w1 & Heq & Hd & Hs & _ & Hc).
  rewrite Heq. cbv zeta in Hc. rewrite decide_False, Hp in Hc by assumption.
  destruct Hc as (-> & -> & H1 & H2). cbn [negb Close log_ log_file_ config_
                                           needs_recompaction_] in *.
  unfold fopen_a. rewrite Hd, decide_False, H1 by assumption.
  destruct (recompacted_cons (log_ bl)) as (c & content & Hrc).
  rewrite Hrc in H1. rewrite (ftell_cons _ _ _ _ H1).
  eexists _, _. split; [reflexivity|]. cbn [log_ log_file_ needs_recompaction_].
  rewrite Hrc. repeat split; assumption.
Qed.

Lemma OpenForWrite_recompacts_witness :
  let bl := {| log_ := {[ lit "out" := {| output := lit "out"; command := lit "cat in > out";
                                         start_time := 1; end_time := 2;
                                         restat_mtime := 3 |} ]};
               log_file_ := None; config_ := None; needs_recompaction_ := true |} in
  let w := one_file (lit "log") (lit "# ninja log v3" ++ [NL]) in
  exists bl' w',
    OpenForWrite bl w (lit "log") = (true, None, bl', w') /\
    log_file_ bl' = Some (lit "log") /\ log_ bl' = log_ bl /\
    needs_recompaction_ bl' = true /\
    files w' !! lit "log" = Some (recompacted (log_ bl)) /\
    files w' !! (lit "log" ++ lit ".recompact") = None /\
    stdout w' = stdout w ++ lit "Recompacting log..." ++ [NL].
Proof.
  apply (OpenForWrite_recompacts _ _ _ (lit "# ninja log v3" ++ [NL]));
    try reflexivity; cbn; set_solver.
Defined.


(** ** [RecordCommand]: the map and the file *)

Lemma RecordCommand_output_log cmd s e r bl w out :
  key_inv (log_ bl) ->
  let E := {| output := out; command := cmd; start_time := s; end_time := e;
              restat_mtime := r |} in
  let st := RecordCommand_output cmd s e r (bl, w) out in
  log_ st.1 = <[out := E]> (log_ bl) /\ log_file_ st.1 = log_file_ bl /\
  config_ st.1 = config_ bl /\ needs_recompaction_ st.1 = needs_recompaction_ bl /\
  st.2 = match log_file_ bl with Some f => WriteEntry w f E | None => w end.
Proof.
  intros Hk E st. unfold st, RecordCommand_output.
  assert (Ho : output (match log_ bl !! out with
                       | Some log_entry => log_entry
                       | None => {| output := out; command := []; start_time := 0;
                                    end_time := 0; restat_mtime := 0 |}
                       end) = out).
  { destruct (log_ bl !! out) as [e0|] eqn:Hl; [now apply Hk in Hl|reflexivity]. }
  rewrite Ho. cbn [log_file_]. fold E.
  destruct (log_file_ bl); cbn [fst snd log_ log_file_ config_ needs_recompaction_];
    repeat split.
Qed.

Lemma RecordCommand_fold edge s e r : forall outs bl w,
  key_inv (log_ bl) ->
  let st := fold_left (RecordCommand_output (EvaluateCommand edge) s e r) outs (bl, w) in
  let es := map (recorded edge s e r) outs in
  log_ st.1 = insert_entries es (log_ bl) /\ log_file_ st.1 = log_file_ bl /\
  config_ st.1 = config_ bl /\ needs_recompaction_ st.1 = needs_recompaction_ bl /\
  denied st.2 = denied w /\ stdout st.2 = stdout w /\
  match log_file_ bl with
  | Some f =>
      (forall old, files w !! f = Some old ->
                   files st.2 !! f = Some (old ++ concat (map WriteEntry_line es))) /\
      (forall p, p <> f -> files st.2 !! p = files w !! p)
  | None => st.2 = w
  end.
Proof.
  induction outs as [|out outs IH]; intros bl w Hk.
  - cbn [fold_left map concat fst snd]. unfold insert_entries. cbn [fold_left].
    repeat split. destruct (log_file_ bl); [|reflexivity].
    split; [|reflexivity]. intros old Hf. now rewrite app_nil_r.
  - cbn [fold_left map concat].
    destruct (RecordCommand_output_log (EvaluateCommand edge) s e r bl w out Hk)
      as (Hl & Hf & Hc & Hn & Hw).
    cbv zeta in *. fold (recorded edge s e r out) in Hl, Hw.
    destruct (RecordCommand_output (EvaluateCommand edge) s e r (bl, w) out) as [bl1 w1].
    cbn [fst snd] in *.
    assert (Hk1 : key_inv (log_ bl1)).
    { rewrite Hl. apply (key_inv_insert (log_ bl) (recorded edge s e r out) Hk). }
    destruct (IH bl1 w1 Hk1) as (Il & If & Ic & In & Id & Is & Iw). cbv zeta in *.
    rewrite Il, If, Ic, In, Hl, Hf, Hc, Hn, Id, Is. rewrite Hf in Iw.
    split; [reflexivity|]. repeat (split; [reflexivity|]).
    destruct (log_file_ bl) as [f|]; subst w1.
    + split; [reflexivity|]. split; [reflexivity|]. destruct Iw as [Iw1 Iw2]. split.
      * intros old Hold. rewrite (Iw1 (old ++ WriteEntry_line (recorded edge s e r out))).
        -- now rewrite <- app_assoc.
        -- unfold WriteEntry, fwrite, set_files. cbn [files].
           now rewrite lookup_alter_eq, Hold.
      * intros p Hp. rewrite Iw2 by assumption.
        unfold WriteEntry, fwrite, set_files. cbn [files]. now rewrite lookup_alter_ne.
    + repeat (split; [reflexivity|]). assumption.
Qed.

Lemma last_entry_for_recorded edge s e r path outs :
  last_entry_for path (map (recorded edge s e r) outs)
  = if decide (path ∈ outs) then Some (recorded edge s e r path) else None.
Proof.
  induction outs as [|out outs IH]; cbn [map last_entry_for].
  - rewrite decide_False; [reflexivity|]. apply not_elem_of_nil.
  - rewrite IH. cbn [recorded output]. destruct (decide (path ∈ outs)) as [Hin|Hin].
    + rewrite decide_True; [reflexivity|]. apply elem_of_cons; now right.
    + destruct (decide (out = path)) as [->|Hne].
      * rewrite decide_True; [reflexivity|]. apply elem_of_cons; now left.
      * rewrite decide_False; [reflexivity|].
        intros H. apply elem_of_cons in H. destruct H; congruence.
Qed.

(** X11.  After [RecordCommand], [LookupByOutput] gives for every output
    of the edge an entry with that path, the command of the edge and the
    three times of the call; for any other path it gives what it gave
    before.  Every entry of the map is still stored under its own output
    path, and the log file, the configuration and the compaction flag of
    the [BuildLog] are as before. *)
Theorem RecordCommand_lookup bl w edge s e r path :
  key_inv (log_ bl) ->
  let bl' := (RecordCommand bl w edge s e r).1 in
  LookupByOutput bl' path
  = (if decide (path ∈ outputs_ edge) then Some (recorded edge s e r path)
     else LookupByOutput bl path) /\
  key_inv (log_ bl') /\ log_file_ bl' = log_file_ bl /\ config_ bl' = config_ bl /\
  needs_recompaction_ bl' = needs_recompaction_ bl.
Proof.
  intros Hk bl'. unfold bl', RecordCommand.
  destruct (RecordCommand_fold edge s e r (outputs_ edge) bl w Hk)
    as (Hl & Hf & Hc & Hn & _). cbv zeta in *.
  unfold LookupByOutput. rewrite Hl, insert_entries_lookup, last_entry_for_recorded.
  split; [now destruct (decide _)|]. split; [|auto].
  now apply key_inv_insert_entries.
Qed.

Lemma RecordCommand_lookup_witness :
  let edge := mkEdge (lit "cat in > out") [lit "out"; lit "out2"] in
  let bl' := (RecordCommand BuildLog_new no_files edge 1 2 3).1 in
  LookupByOutput bl' (lit "out2")
  = (if decide (lit "out2" ∈ outputs_ edge) then Some (recorded edge 1 2 3 (lit "out2"))
     else LookupByOutput BuildLog_new (lit "out2")) /\
  key_inv (log_ bl') /\ log_file_ bl' = log_file_ BuildLog_new /\
  config_ bl' = config_ BuildLog_new /\
  needs_recompaction_ bl' = needs_recompaction_ BuildLog_new.
Proof.
  apply (RecordCommand_lookup BuildLog_new no_files). exact key_inv_empty.
Defined.

(** X12.  With the log open on [f], [RecordCommand] appends to that file
    one line for each output of the edge, in the order of the outputs,
    after what the file held; it changes no other file and prints
    nothing. *)
Theorem RecordCommand_appends bl w edge s e r f old :
  key_inv (log_ bl) -> log_file_ bl = Some f -> files w !! f = Some old ->
  let w' := (RecordCommand bl w edge s e r).2 in
  files w' !! f
  = Some (old ++ concat (map (fun out => WriteEntry_line (recorded edge s e r out))
                             (outputs_ edge))) /\
  (forall p, p <> f -> files w' !! p = files w !! p) /\
  denied w' = denied w /\ stdout w' = stdout w.
Proof.
  intros Hk Hf Hold w'. unfold w', RecordCommand.
  destruct (RecordCommand_fold edge s e r (outputs_ edge) bl w Hk)
    as (_ & _ & _ & _ & Hd & Hs & Hw). cbv zeta in *. rewrite Hf in Hw.
  destruct Hw as [Hw1 Hw2]. rewrite (Hw1 old Hold), map_map. auto.
Qed.

Lemma RecordCommand_appends_witness :
  let edge := mkEdge (lit "cat in > out") [lit "out"; lit "out2"] in
  let bl := {| log_ := ∅; log_file_ := Some (lit "log"); config_ := None;
               needs_recompaction_ := false |} in
  let w := one_file (lit "log") (lit "# ninja log v4" ++ [NL]) in
  let w' := (RecordCommand bl w edge 1 2 3).2 in
  files w' !! lit "log"
  = Some ((lit "# ninja log v4" ++ [NL])
          ++ concat (map (fun out => WriteEntry_line (recorded edge 1 2 3 out))
                         (outputs_ edge))) /\
  (forall p, p <> lit "log" -> files w' !! p = files w !! p) /\
  denied w' = denied w /\ stdout w' = stdout w.
Proof.
  apply RecordCommand_appends; [exact key_inv_empty|reflexivity|reflexivity].
Defined.

(** X13.  Each run appends to the log: outside dry-run mode and with no
    compaction pending, opening a log that already has content and
    recording a command leaves that content in place, writes no second
    signature, and adds one line for each output of the edge after it.
    No other file changes. *)
Theorem reopened_log_is_appended_to bl w path c content edge s e r :
  is_dry_run bl = false -> needs_recompaction_ bl = false -> key_inv (log_ bl) ->
  path ∉ denied w -> files w !! path = Some (c :: content) ->
  exists bl' w',
    open_and_record bl w path edge s e r = (true, (bl', w')) /\
    log_file_ bl' = Some path /\
    files w' !! path
    = Some ((c :: content)
            ++ concat (map (fun out => WriteEntry_line (recorded edge s e r out))
                           (outputs_ edge))) /\
    (forall p, p <> path -> files w' !! p = files w !! p).
Proof.
  intros Hdry Hrec Hk Hden Hp. unfold open_and_record, OpenForWrite.
  unfold is_dry_run in Hdry. rewrite Hdry.
  destruct (needs_recompaction_ bl) eqn:E; [discriminate|]. cbn [negb].
  unfold fopen_a. rewrite decide_False, Hp by assumption.
  unfold ftell. rewrite Hp.
  replace (Z.of_nat (length (c :: content)) =? 0) with false
    by (symmetry; apply Z.eqb_neq; cbn [length]; lia).
  match goal with |- context [RecordCommand ?b _ _ _ _ _] => set (bl1 := b) end.
  unfold RecordCommand.
  destruct (RecordCommand_fold edge s e r (outputs_ edge) bl1 w Hk)
    as (_ & Hf & _ & _ & _ & _ & Hw). cbv zeta in *. cbn [bl1 log_file_] in Hf, Hw.
  destruct Hw as [Hw1 Hw2].
  destruct (fold_left _ (outputs_ edge) (bl1, w)) as [bl' w'] eqn:Hfold.
  cbn [fst snd] in *. exists bl', w'. split; [reflexivity|]. split; [assumption|].
  rewrite (Hw1 _ Hp), map_map. auto.
Qed.

Lemma reopened_log_is_appended_to_witness :
  let edge := mkEdge (lit "cat in > out") [lit "out"] in
  let old := lit "# ninja log v4" ++ [NL] ++ lit "1" ++ [TAB] ++ lit "2" ++ [TAB] ++ lit "3"
             ++ [TAB] ++ lit "a.o" ++ [TAB] ++ lit "cc -c a.c" ++ [NL] in
  let w := one_file (lit "log") old in
  exists bl' w',
    open_and_record BuildLog_new w (lit "log") edge 4 5 6 = (true, (bl', w')) /\
    log_file_ bl' = Some (lit "log") /\
    files w' !! lit "log"
    = Some (old
            ++ concat (map (fun out => WriteEntry_line (recorded edge 4 5 6 out))
                           (outputs_ edge))) /\
    (forall p, p <> lit "log" -> files w' !! p = files w !! p).
Proof.
  cbv zeta.
  apply (reopened_log_is_appended_to BuildLog_new _ (lit "log") "#"%char);
    try reflexivity; [exact key_inv_empty|apply not_elem_of_empty].
Defined.


(** ** The line of [WriteEntry] *)

Lemma c_str_no_NUL s : NUL ∉ c_str s.
Proof.
  induction s as [|c s IH]; cbn [c_str]; [apply not_elem_of_nil|].
  destruct (Ascii.eqb c NUL) eqn:E; [apply not_elem_of_nil|].
  apply ascii_eqb_false in E. apply not_elem_of_cons. split; [congruence|assumption].
Qed.

(** X14.  The line that [WriteEntry] prints holds the output path and
    the command only up to their first NUL byte, so the line itself
    never contains a NUL byte; it ends with a newline, and two entries
    that agree up to the first NUL of their path and command give the
    same line. *)
Theorem WriteEntry_line_no_NUL entry :
  (NUL ∉ WriteEntry_line entry) /\
  (exists body, WriteEntry_line entry = body ++ [NL]) /\
  WriteEntry_line entry
  = WriteEntry_line {| output := c_str (output entry); command := c_str (command entry);
                       start_time := start_time entry; end_time := end_time entry;
                       restat_mtime := restat_mtime entry |}.
Proof.
  assert (Hid : forall s, c_str (c_str s) = c_str s)
    by (intros s; apply c_str_id, c_str_no_NUL).
  split; [|split].
  - unfold WriteEntry_line. intros Hin.
    assert (Hf : forall z, NUL ∉ fmt_d z)
      by (intros z; apply dec_chars_not_in; [reflexivity|discriminate|apply fmt_d_chars]).
    repeat (apply elem_of_app in Hin; destruct Hin as [Hin|Hin]);
      try (apply list_elem_of_singleton in Hin; discriminate);
      try (revert Hin; apply Hf); revert Hin; apply c_str_no_NUL.
  - unfold WriteEntry_line. eexists. rewrite !app_assoc. reflexivity.
  - unfold WriteEntry_line. cbn [output command start_time end_time restat_mtime].
    now rewrite !Hid.
Qed.


(** ** [Load]: files that are missing, unreadable or empty *)

(** X15.  A missing log file is not an error: [Load] returns true and
    leaves the [BuildLog] as it was.  A file that cannot be opened makes
    it return false with the error set, and again the [BuildLog] is as
    it was. *)
Theorem Load_missing_or_unreadable bl w path buf m :
  (path ∉ denied w -> files w !! path = None ->
   Load bl w path buf m = Returns true None bl) /\
  (path ∈ denied w -> Load bl w path buf m = Returns false (Some EACCES) bl).
Proof.
  unfold Load, fopen_r. split.
  - intros Hd Hf. rewrite decide_False, Hf by assumption. reflexivity.
  - intros Hd. rewrite decide_True by assumption. reflexivity.
Qed.

(** X16.  An empty log file carries no signature, so [Load] leaves the
    version at 0: it returns true, leaves the map as it was and sets
    needs_recompaction_. *)
Theorem Load_empty_file bl w path buf m :
  path ∉ denied w -> files w !! path = Some [] ->
  Load bl w path buf m
  = Returns true None {| log_ := log_ bl; log_file_ := log_file_ bl; config_ := config_ bl;
                         needs_recompaction_ := true |}.
Proof.
  intros Hd Hf. unfold Load, fopen_r. rewrite decide_False, Hf by assumption.
  cbn [length Nat.mul Nat.add Load_loop]. rewrite Load_step_eof by reflexivity.
  reflexivity.
Qed.

Lemma Load_empty_file_witness :
  Load BuildLog_new (one_file (lit "log") []) (lit "log") 0 zero_memory
  = Returns true None {| log_ := ∅; log_file_ := None; config_ := None;
                         needs_recompaction_ := true |}.
Proof.
  apply (Load_empty_file BuildLog_new); [|reflexivity]. cbn. set_solver.
Defined.

(** ** [Load]: what holds for every file *)

Lemma log_grows_refl lg : log_grows lg lg.
Proof. intros k H. exact H. Qed.

Lemma log_grows_insert (lg : Log) k e : log_grows lg (<[k := e]> lg).
Proof.
  intros k' H. destruct (decide (k = k')) as [->|Hne].
  - rewrite lookup_insert_eq. eauto.
  - now rewrite lookup_insert_ne.
Qed.

Lemma log_grows_trans lg1 lg2 lg3 : log_grows lg1 lg2 -> log_grows lg2 lg3 -> log_grows lg1 lg3.
Proof. intros H1 H2 k H. apply H2, H1, H. Qed.

Lemma key_inv_insert_at (lg : Log) k e : key_inv lg -> output e = k -> key_inv (<[k := e]> lg).
Proof. intros Hk <-. now apply key_inv_insert. Qed.

Lemma Load_process_line_log buf st st' :
  Load_process_line buf st = Continue st' ->
  log_grows (log st) (log st') /\ (key_inv (log st) -> key_inv (log st')).
Proof.
  destruct st as [m f ls le be v u t lg]. unfold Load_process_line. cbn [log].
  repeat match goal with
         | |- context [match ?x with _ => _ end] =>
             lazymatch x with
             | context [match _ with _ => _ end] => fail
             | _ => destruct x eqn:?
             end
         end;
    intros H; try discriminate; injection H as <-; cbn [log];
    try (split; [apply log_grows_refl|auto]);
    (split;
     [ first [ apply log_grows_insert
             | eapply log_grows_trans; apply log_grows_insert ]
     | intros Hk;
       first [ apply key_inv_insert_at;
               [ assumption
               | cbn [output];
                 match goal with H : lg !! _ = Some _ |- _ => apply Hk in H; exact H end ]
             | apply key_inv_insert_at; [|reflexivity];
               apply key_inv_insert_at; [assumption|reflexivity] ] ]).
Qed.

Lemma Load_process_line_no_break buf st st' : Load_process_line buf st <> Break st'.
Proof.
  destruct st as [m f ls le be v u t lg]. unfold Load_process_line.
  repeat match goal with
         | |- context [match ?x with _ => _ end] =>
             lazymatch x with
             | context [match _ with _ => _ end] => fail
             | _ => destruct x eqn:?
             end
         end; discriminate.
Qed.

Lemma Load_step_log buf st :
  match Load_step buf st with
  | Continue st' => log_grows (log st) (log st') /\ (key_inv (log st) -> key_inv (log st'))
  | Break st' => st' = st
  | _ => True
  end.
Proof.
  destruct st as [m f ls le be v u t lg]. unfold Load_step. cbn [log].
  assert (Hpl : forall m1 f1 ls1 le1 be1,
    match Load_process_line buf (mkLoadState m1 f1 ls1 le1 be1 v u t lg) with
    | Continue st' => log_grows lg (log st') /\ (key_inv lg -> key_inv (log st'))
    | Break st' => st' = mkLoadState m f ls le be v u t lg
    | _ => True
    end).
  { intros m1 f1 ls1 le1 be1.
    pose proof (Load_process_line_log buf (mkLoadState m1 f1 ls1 le1 be1 v u t lg)) as H.
    pose proof (Load_process_line_no_break buf (mkLoadState m1 f1 ls1 le1 be1 v u t lg)) as Hb.
    destruct (Load_process_line buf _) as [st'|st'| |]; try exact I.
    - now contradiction (Hb st').
    - now apply H. }
  destruct ((ls >=? be) || negb (bool_decide (is_Some le))).
  - destruct (fread m buf sizeof_buf f) as [[k m1] f1].
    destruct (k =? 0); [reflexivity|].
    destruct (memchrSSE2 m1 buf 10 (buf + k - buf)) as [[m2 [p|]]|]; [apply Hpl| |exact I].
    cbv zeta. destruct (fread _ _ _ f1) as [[k2 m3] f2].
    destruct (memchrSSE2 m3 buf 10 _) as [[m4 r]|]; [apply Hpl|exact I].
  - destruct (memchrSSE2 m _ 10 _) as [[m2 [p|]]|]; [apply Hpl| |exact I].
    cbv zeta. destruct (fread _ _ _ f) as [[k2 m3] f2].
    destruct (memchrSSE2 m3 buf 10 _) as [[m4 r]|]; [apply Hpl|exact I].
Qed.

Lemma Load_loop_log buf : forall fuel st st',
  Load_loop fuel buf st = Break st' ->
  log_grows (log st) (log st') /\ (key_inv (log st) -> key_inv (log st')).
Proof.
  induction fuel as [|fuel IH]; intros st st' H; [discriminate|].
  cbn [Load_loop] in H. pose proof (Load_step_log buf st) as Hs.
  destruct (Load_step buf st) as [s1|s1| |]; try discriminate.
  - injection H as <-. subst s1. split; [apply log_grows_refl|auto].
  - destruct Hs as [Hg Hk]. apply IH in H. destruct H as [Hg' Hk']. split.
    + eapply log_grows_trans; eassumption.
    + auto.
Qed.

(** X17.  Whatever the file holds, when [Load] returns it has removed no
    entry from the map, every entry is still stored under its own output
    path if that was so before, the log file and the configuration of
    the [BuildLog] are as before, and a compaction flag that was set is
    still set.  It returns false only with the error set and the
    [BuildLog] untouched. *)
Theorem Load_keeps bl w path buf m ok err bl' :
  Load bl w path buf m = Returns ok err bl' ->
  (forall k, is_Some (LookupByOutput bl k) -> is_Some (LookupByOutput bl' k)) /\
  (key_inv (log_ bl) -> key_inv (log_ bl')) /\
  log_file_ bl' = log_file_ bl /\ config_ bl' = config_ bl /\
  (needs_recompaction_ bl = true -> needs_recompaction_ bl' = true) /\
  (if ok then err = None else is_Some err /\ bl' = bl).
Proof.
  unfold Load, LookupByOutput.
  destruct (fopen_r w path) as [e|content]; [destruct e|].
  - intros H. injection H as <- <- <-. repeat split; auto.
  - intros H. injection H as <- <- <-. repeat split; eauto.
  - intros H. injection H as <- <- <-. repeat split; eauto.
  - destruct (Load_loop _ buf _) as [st'|st'| |] eqn:Hloop; try discriminate.
    apply Load_loop_log in Hloop. cbn [log] in Hloop. destruct Hloop as [Hg Hk].
    intros H. injection H as <- <- <-. cbn [log_ log_file_ config_ needs_recompaction_].
    repeat split; try assumption.
    intros ->. destruct (_ <? _); [reflexivity|]. now destruct (_ && _).
Qed.

Lemma Load_keeps_witness :
  let e := {| output := lit "b.o"; command := lit "cc -c b.c"; start_time := 4;
              end_time := 5; restat_mtime := 6 |} in
  let w := one_file (lit "log")
             (lit "# ninja log v4" ++ [NL] ++ lit "1" ++ [TAB] ++ lit "2" ++ [TAB]
              ++ lit "3" ++ [TAB] ++ lit "a.o" ++ [TAB] ++ lit "cc -c a.c" ++ [NL]) in
  let bl := {| log_ := {[ lit "b.o" := e ]}; log_file_ := None; config_ := None;
               needs_recompaction_ := true |} in
  exists bl',
    Load bl w (lit "log") 0 zero_memory = Returns true None bl' /\
    (forall k, is_Some (LookupByOutput bl k) -> is_Some (LookupByOutput bl' k)) /\
    (key_inv (log_ bl) -> key_inv (log_ bl')) /\
    log_file_ bl' = log_file_ bl /\ config_ bl' = config_ bl /\
    (needs_recompaction_ bl = true -> needs_recompaction_ bl' = true) /\
    (None : option Errno) = None.
Proof.
  intros e w bl. eexists. split; [vm_compute; reflexivity|].
  apply (Load_keeps bl w (lit "log") 0 zero_memory true None). vm_compute. reflexivity.
Defined.

(** ** [Load]: a file of the current version *)

Lemma insert_entries_size es : forall lg : Log,
  (size lg <= size (insert_entries es lg) <= size lg + length es)%nat.
Proof.
  induction es as [|e es IH]; intros lg; [cbn; lia|].
  unfold insert_entries in *. cbn [fold_left length].
  specialize (IH (<[output e := e]> lg)).
  destruct (lg !! output e) as [e'|] eqn:Hl.
  - rewrite map_size_insert_Some in IH by eauto. lia.
  - rewrite map_size_insert_None in IH by assumption. lia.
Qed.

Lemma load_entry_counts_from es : forall lg u t,
  key_inv lg -> 0 <= u -> 0 <= t ->
  u + Z.of_nat (length es) < 2 ^ 31 -> t + Z.of_nat (length es) < 2 ^ 31 ->
  fold_left load_entry es (lg, u, t)
  = (insert_entries es lg,
     u + (Z.of_nat (size (insert_entries es lg)) - Z.of_nat (size lg)),
     t + Z.of_nat (length es)).
Proof.
  induction es as [|e es IH]; intros lg u t Hk Hu Ht Hub Htb.
  - cbn [fold_left length insert_entries]. unfold insert_entries. cbn [fold_left].
    f_equal; [f_equal|]; lia.
  - cbn [fold_left load_entry length] in *. rewrite log_assign_insert by assumption.
    rewrite (wrap_int32_id (t + 1)) by (unfold is_int; lia).
    assert (Hc : count_unique lg (output e) u
                 = u + (Z.of_nat (size (<[output e := e]> lg)) - Z.of_nat (size lg))).
    { unfold count_unique. destruct (lg !! output e) as [e'|] eqn:Hl.
      - rewrite map_size_insert_Some by eauto. lia.
      - rewrite map_size_insert_None by assumption.
        rewrite wrap_int32_id by (unfold is_int; lia). lia. }
    pose proof (insert_entries_size [e] lg) as Hs. unfold insert_entries in Hs.
    cbn [fold_left length] in Hs.
    rewrite Hc, IH; try lia; [|now apply key_inv_insert].
    unfold insert_entries. cbn [fold_left]. f_equal; [f_equal|]; lia.
Qed.

(** X19.  [Load] of a version 4 file made of a signature and the lines
    of the records [es], into a [BuildLog] that may hold entries already:
    for each output path the last record of the file wins, and a path
    without a record keeps the entry it had.  With [total] records, of
    which [unique] are for paths that had no entry before,
    needs_recompaction_ is set when it was set before or when
    [total > 100] and [total > 3 * unique]. *)
Theorem Load_version_4 bl w path buf m es :
  Z.land buf 15 = 0 -> path ∉ denied w -> key_inv (log_ bl) ->
  files w !! path = Some (kFileSignature 4 ++ concat (map (entry_line TAB) es)) ->
  Forall (loadable TAB) es -> 3 * Z.of_nat (length es) < 2 ^ 31 ->
  exists bl',
    Load bl w path buf m = Returns true None bl' /\
    (forall k, LookupByOutput bl' k
               = match last_entry_for k es with
                 | Some e => Some e
                 | None => LookupByOutput bl k
                 end) /\
    let total := Z.of_nat (length es) in
    let unique := Z.of_nat (size (log_ bl')) - Z.of_nat (size (log_ bl)) in
    0 <= unique <= total /\
    needs_recompaction_ bl'
    = needs_recompaction_ bl || bool_decide (total > 100 /\ total > 3 * unique).
Proof.
  intros Hal Hden Hk Hfile Hall Hlen.
  rewrite (Load_wellformed bl w path buf m 4 es); try assumption;
    [|unfold is_int; lia|discriminate].
  rewrite (load_entry_counts_from es (log_ bl) 0 0 Hk) by lia.
  eexists. split; [reflexivity|]. cbn [log_ needs_recompaction_]. split.
  - intros k. unfold LookupByOutput. cbn [log_]. apply insert_entries_lookup.
  - pose proof (insert_entries_size es (log_ bl)) as Hs.
    rewrite !Z.add_0_l. split; [lia|].
    set (total := Z.of_nat (length es)) in *.
    set (unique := Z.of_nat (size (insert_entries es (log_ bl))) - Z.of_nat (size (log_ bl))).
    assert (Hu : 0 <= unique <= total) by (unfold unique, total; lia).
    change (4 <? kCurrentVersion) with false. cbv iota.
    rewrite wrap_int32_id by (unfold is_int; lia).
    destruct (Z.gtb_spec total 100) as [H1|H1];
      destruct (Z.gtb_spec total (unique * 3)) as [H2|H2]; cbn [andb].
    + rewrite bool_decide_eq_true_2 by lia. now rewrite orb_true_r.
    + rewrite bool_decide_eq_false_2 by lia. now rewrite orb_false_r.
    + rewrite bool_decide_eq_false_2 by lia. now rewrite orb_false_r.
    + rewrite bool_decide_eq_false_2 by lia. now rewrite orb_false_r.
Qed.

Lemma Load_version_4_witness :
  let e1 := {| output := lit "foo.o"; command := lit "cc -c foo.c"; start_time := 1;
               end_time := 2; restat_mtime := 3 |} in
  let e2 := {| output := lit "foo.o"; command := lit "cc -O2 -c foo.c"; start_time := 4;
               end_time := 5; restat_mtime := 6 |} in
  let es := [e1; e2] in
  let w := one_file (lit "log") (kFileSignature 4 ++ concat (map (entry_line TAB) es)) in
  exists bl',
    Load BuildLog_new w (lit "log") 0 zero_memory = Returns true None bl' /\
    (forall k, LookupByOutput bl' k
               = match last_entry_for k es with
                 | Some e => Some e
                 | None => LookupByOutput BuildLog_new k
                 end) /\
    let total := Z.of_nat (length es) in
    let unique := Z.of_nat (size (log_ bl')) - Z.of_nat (size (log_ BuildLog_new)) in
    0 <= unique <= total /\
    needs_recompaction_ bl'
    = needs_recompaction_ BuildLog_new || bool_decide (total > 100 /\ total > 3 * unique).
Proof.
  cbv zeta. apply Load_version_4.
  - reflexivity.
  - apply not_elem_of_empty.
  - apply key_inv_empty.
  - apply lookup_singleton_eq.
  - concrete_entries.
  - cbn. lia.
Defined.

(** X20.  A compacted log is not compacted again: when [Recompact] has
    written the map [M] to [path], [Load] of that file into a fresh
    [BuildLog] gives back [M] and leaves needs_recompaction_ unset. *)
Theorem Load_recompacted_not_flagged bl w path old buf m :
  Z.land buf 15 = 0 ->
  files w !! path = Some old -> path ∉ denied w -> (path ++ lit ".recompact") ∉ denied w ->
  key_inv (log_ bl) -> map_Forall (fun _ e => clean_entry TAB e) (log_ bl) ->
  3 * Z.of_nat (size (log_ bl)) < 2 ^ 31 ->
  exists ok err w',
    Recompact bl w path = (ok, err, w') /\ ok = true /\
    Load BuildLog_new w' path buf m
    = Returns true None {| log_ := log_ bl; log_file_ := None; config_ := None;
                           needs_recompaction_ := false |}.
Proof.
  intros Hal Hold Hden Hdent Hk Hclean Hsize.
  destruct (Recompact_spec bl w path) as (ok & err & w' & Heq & Hd & _ & _ & Hc).
  cbv zeta in Hc. rewrite decide_False, Hold in Hc by assumption.
  destruct Hc as (-> & -> & Hfile & _). exists true, None, w'.
  split; [assumption|]. split; [reflexivity|].
  set (es := map snd (map_to_list (log_ bl))).
  assert (Hes : Forall (clean_entry TAB) es).
  { apply Forall_forall. intros e He. apply list_elem_of_fmap in He.
    destruct He as ([k e'] & -> & Hin). apply elem_of_map_to_list in Hin.
    apply (Hclean k e' Hin). }
  assert (Hlines : map WriteEntry_line es = map (entry_line TAB) es).
  { apply Forall_fmap_ext_1. eapply Forall_impl; [exact Hes|].
    intros e [He Hc]. apply WriteEntry_line_clean; [|assumption]. apply He. }
  unfold recompacted in Hfile. fold es in Hfile. rewrite Hlines in Hfile.
  assert (Hload : Forall (loadable TAB) es).
  { eapply Forall_impl; [exact Hes|]. intros e [He _]. exact He. }
  assert (Hlen : length es = size (log_ bl)).
  { unfold es. rewrite length_map. apply length_map_to_list. }
  assert (Hden' : path ∉ denied w') by congruence.
  rewrite (Load_threshold w' path buf m es) by (assumption || (rewrite Hlen; lia)).
  rewrite (insert_entries_map_to_list (log_ bl) Hk : insert_entries es ∅ = log_ bl).
  rewrite Hlen. do 2 f_equal. apply bool_decide_eq_false_2. lia.
Qed.

Lemma Load_recompacted_not_flagged_witness :
  let M : Log := {[ lit "foo.o" := {| output := lit "foo.o"; command := lit "cc -c foo.c";
                                      start_time := 1; end_time := 2;
                                      restat_mtime := 3 |} ]} in
  let bl := {| log_ := M; log_file_ := None; config_ := None; needs_recompaction_ := true |} in
  exists ok err w',
    Recompact bl (one_file (lit "log") (lit "# ninja log v3" ++ [NL])) (lit "log")
    = (ok, err, w') /\ ok = true /\
    Load BuildLog_new w' (lit "log") 32 zero_memory
    = Returns true None {| log_ := M; log_file_ := None; config_ := None;
                           needs_recompaction_ := false |}.
Proof.
  intros M bl.
  apply (Load_recompacted_not_flagged bl _ _ (lit "# ninja log v3" ++ [NL])).
  - reflexivity.
  - apply lookup_singleton_eq.
  - apply not_elem_of_empty.
  - apply not_elem_of_empty.
  - intros k e H. cbn [bl log_] in H. unfold M in H.
    apply lookup_singleton_Some in H. destruct H as [<- <-]. reflexivity.
  - intros k e H. cbn [bl log_] in H. unfold M in H.
    apply lookup_singleton_Some in H. destruct H as [<- <-].
    split; [|concrete_not_in]. repeat split;
      try (unfold is_int, is_long, LONG_MIN, LONG_MAX; cbn; lia);
      try concrete_not_in; vm_compute; discriminate.
  - cbn [bl log_]. unfold M. rewrite map_size_singleton. lia.
Defined.


(** ** [Load]: a file without a signature *)

Lemma Load_process_line_version_0 buf m f ls le be u t lg :
  sscanf_kFileSignature (cstring (scan_fuel buf buf) m buf) = None ->
  Load_process_line buf (mkLoadState m f ls le be 0 u t lg)
  = Load_process_line buf (mkLoadState m f ls le be 1 u t lg).
Proof.
  intros H. unfold Load_process_line. cbn [Z.eqb]. rewrite H. reflexivity.
Qed.

Lemma fmt_d_head z : exists c ds, fmt_d z = c :: ds /\ is_dec_char c.
Proof.
  pose proof (fmt_d_chars z) as Hc. destruct (fmt_d_spec z) as (ds & Heq & Hne & _).
  destruct (fmt_d z) as [|c l].
  - destruct (z <? 0); [discriminate|]. cbn in Heq. congruence.
  - apply Forall_cons in Hc. destruct Hc as [Hc _]. eauto.
Qed.

(** A buffer that starts with a number printed by [%d] does not start
    with a signature. *)
Lemma sscanf_record buf m z tail :
  holds m buf (fmt_d z ++ tail) ->
  sscanf_kFileSignature (cstring (scan_fuel buf buf) m buf) = None.
Proof.
  intros Hh. destruct (fmt_d_head z) as (c & ds & Heq & Hc). rewrite Heq in Hh.
  cbn [app] in Hh. apply holds_cons in Hh. destruct Hh as [Hc0 _].
  assert (HcNUL : c <> NUL) by (apply (is_dec_char_not c NUL); [reflexivity|discriminate|assumption]).
  assert (Hc35 : c <> "#"%char)
    by (apply (is_dec_char_not c "#"%char); [reflexivity|discriminate|assumption]).
  destruct (cstring_prefix (scan_fuel buf buf) m buf [c]) as [t Ht].
  - apply holds_cons. split; [assumption|apply holds_nil].
  - intros Hin. apply list_elem_of_singleton in Hin. congruence.
  - unfold scan_fuel. pose proof sizeof_buf_val. cbn [length]. lia.
  - rewrite Ht. unfold sscanf_kFileSignature. cbn [lit list_ascii_of_string scanf_literal app].
    change (isspace "#") with false. cbv iota.
    rewrite (proj2 (ascii_eqb_false c "#"%char)) by assumption. reflexivity.
Qed.

(** X21.  A log file that starts with a record instead of a signature is
    read as a version 1 log: its records are split at spaces, for each
    output path the last record wins, and needs_recompaction_ is set. *)
Theorem Load_unsigned bl w path buf m e es :
  Z.land buf 15 = 0 -> path ∉ denied w -> key_inv (log_ bl) ->
  files w !! path = Some (concat (map (entry_line SP) (e :: es))) ->
  Forall (loadable SP) (e :: es) ->
  exists bl',
    Load bl w path buf m = Returns true None bl' /\
    (forall k, LookupByOutput bl' k
               = match last_entry_for k (e :: es) with
                 | Some e' => Some e'
                 | None => LookupByOutput bl k
                 end) /\
    needs_recompaction_ bl' = true.
Proof.
  intros Hal Hden Hk Hfile Hall.
  unfold Load, fopen_r. rewrite decide_False by assumption. rewrite Hfile.
  set (content := concat _).
  set (st0 := {| mem := m; file := content; line_start := buf; line_end := None;
                 buf_end := buf; log_version := 0; unique_entry_count := 0;
                 total_entry_count := 0; log := log_ bl |}).
  pose proof (sep_cases 1) as Hsep. cbv zeta in Hsep.
  change (field_separator 1) with SP in Hsep. destruct Hsep as (HsNL & Hsd & Hsm & HsNUL).
  pose proof Hall as Hall'. apply Forall_cons in Hall'. destruct Hall' as [He Hes].
  destruct He as (Hi1 & Hi2 & Hi3 & Ho1 & Ho2 & Ho3 & Hc & Hlen).
  set (f1 := fmt_d (start_time e)) in *. set (f2 := fmt_d (end_time e)) in *.
  set (f3 := fmt_d (restat_mtime e)) in *.
  set (body := f1 ++ SP :: f2 ++ SP :: f3 ++ SP :: output e ++ SP :: command e).
  assert (Hline : entry_line SP e = body ++ [NL]).
  { unfold entry_line, record_line, body. fold f1 f2 f3.
    repeat (rewrite <- app_assoc; cbn [app]). reflexivity. }
  assert (Hf : forall x z, isdigit x = false -> x <> "-"%char -> x ∉ fmt_d z).
  { intros x z H1 H2. apply dec_chars_not_in; auto using fmt_d_chars. }
  assert (Hnl : NL ∉ body).
  { unfold body. intros Hin.
    repeat (apply elem_of_app in Hin; destruct Hin as [Hin|Hin];
            [|apply elem_of_cons in Hin; destruct Hin as [Hin|Hin]; [congruence|]]);
      try contradiction; try (revert Hin; apply Hf; [reflexivity|discriminate]). }
  assert (Hbl : Z.of_nat (length (entry_line SP e)) = Z.of_nat (length body) + 1).
  { rewrite Hline, length_app. cbn [length]. lia. }
  assert (Hpend : pending st0 = body ++ NL :: concat (map (entry_line SP) es)).
  { unfold pending, st0, content. cbn [line_end file map concat].
    rewrite Hline, <- app_assoc. reflexivity. }
  destruct (Load_step_get_line buf st0 body _ Hal I Hpend Hnl)
    as (m1 & fl1 & ls & be & Hstep & Hh & Hb1 & Hb2 & Hrest & Hls); [lia|now left|].
  specialize (Hls eq_refl). subst ls.
  cbn [log_version unique_entry_count total_entry_count log st0] in Hstep.
  rewrite <- Hline in Hh.
  rewrite Load_process_line_version_0 in Hstep.
  2: { apply (sscanf_record buf m1 (start_time e)
                (SP :: f2 ++ SP :: f3 ++ SP :: output e ++ SP :: command e ++ [NL])).
       unfold entry_line, record_line in Hh. exact Hh. }
  assert (Hrl : record_line (field_separator 1) f1 f2 f3 (output e) (command e)
                = entry_line SP e) by reflexivity.
  destruct (Load_process_record buf m1 fl1 buf be 1 0 0 (log_ bl) f1 f2 f3 (output e)
              (command e))
    as (m' & Hproc & Hsame); try assumption; try (apply Hf; assumption);
    try discriminate; try lia.
  { rewrite Hrl. lia. }
  { apply Hf; [reflexivity|discriminate]. }
  { apply Hf; [reflexivity|discriminate]. }
  { apply Hf; [reflexivity|discriminate]. }
  rewrite Hrl in Hproc, Hsame.
  replace (buf + Z.of_nat (length (entry_line SP e)) - 1)
    with (buf + Z.of_nat (length body)) in Hproc, Hsame by lia.
  rewrite Hproc in Hstep.
  pose proof (concat_lines_length SP (e :: es)) as Hcl. fold content in Hcl.
  cbn [length] in Hcl.
  assert (Hfuel : (2 * length content + 3 = S (2 * length content + 2))%nat) by lia.
  rewrite Hfuel, (Load_loop_more _ _ _ _ Hstep).
  match goal with |- context [Load_loop _ buf ?s] => set (st2 := s) end.
  destruct (Load_loop_entries buf 1 es st2 (2 * length content + 2))
    as (st' & Hloop & Hv' & Hres); try assumption; try discriminate; try reflexivity.
  - unfold wf_state, st2. cbn [line_end line_start buf_end]. lia.
  - unfold pending, st2. cbn [line_end mem buf_end file].
    change (field_separator 1) with SP. rewrite <- Hrest.
    f_equal. apply load_bytes_ext. intros i Hi. apply Hsame. lia.
  - lia.
  - rewrite Hloop. eexists. split; [reflexivity|].
    cbn [log_ needs_recompaction_]. rewrite Hv'. split; [|reflexivity].
    intros k. unfold LookupByOutput. cbn [log_].
    unfold st2 in Hres. cbn [log unique_entry_count total_entry_count] in Hres.
    assert (Hlog : log st' = insert_entries (e :: es) (log_ bl)).
    { pose proof (load_entries_log (e :: es) (log_ bl) 0 0 Hk) as Hl.
      cbn [fold_left] in Hl. unfold load_entry at 2 in Hl.
      unfold f1, f2, f3 in Hres.
      rewrite !atoi_fmt_d, atol_fmt_d in Hres by assumption.
      rewrite <- Hres in Hl. exact Hl. }
    rewrite Hlog. apply insert_entries_lookup.
Qed.

Lemma Load_unsigned_witness :
  let e1 := {| output := lit "foo.o"; command := lit "cc -c foo.c"; start_time := 1;
               end_time := 2; restat_mtime := 3 |} in
  let e2 := {| output := lit "bar.o"; command := lit "cc -c bar.c"; start_time := 4;
               end_time := 5; restat_mtime := 6 |} in
  let w := one_file (lit "log") (concat (map (entry_line SP) [e1; e2])) in
  exists bl',
    Load BuildLog_new w (lit "log") 0 zero_memory = Returns true None bl' /\
    (forall k, LookupByOutput bl' k
               = match last_entry_for k [e1; e2] with
                 | Some e' => Some e'
                 | None => LookupByOutput BuildLog_new k
                 end) /\
    needs_recompaction_ bl' = true.
Proof.
  cbv zeta. apply Load_unsigned.
  - reflexivity.
  - apply not_elem_of_empty.
  - apply key_inv_empty.
  - apply lookup_singleton_eq.
  - concrete_entries.
Defined.

(** ** [Load]: a file of a later version *)

(** X22.  [Load] does not look at the version of a log beyond comparing
    it with 4: a file whose signature names a version above 4 is read
    exactly as the version 4 file with the same records is, with tabs as
    separators, and its version alone never sets needs_recompaction_. *)
Theorem Load_later_version bl w w4 path buf m v es :
  Z.land buf 15 = 0 -> 4 <= v < 2 ^ 31 -> path ∉ denied w -> path ∉ denied w4 ->
  files w !! path = Some (kFileSignature v ++ concat (map (entry_line TAB) es)) ->
  files w4 !! path = Some (kFileSignature 4 ++ concat (map (entry_line TAB) es)) ->
  Forall (loadable TAB) es ->
  Load bl w path buf m = Load bl w4 path buf m /\
  exists bl', Load bl w path buf m = Returns true None bl' /\
              (needs_recompaction_ bl = false ->
               Z.of_nat (length es) <= 100 -> needs_recompaction_ bl' = false).
Proof.
  intros Hal Hv Hden Hden4 Hfile Hfile4 Hall.
  assert (Hsep : field_separator v = TAB).
  { unfold field_separator. destruct (Z.geb_spec v 4); [reflexivity|lia]. }
  rewrite (Load_wellformed bl w path buf m v es), (Load_wellformed bl w4 path buf m 4 es);
    try assumption; try (rewrite Hsep; assumption); try discriminate;
    try (unfold is_int; lia).
  assert (Hlt : (v <? kCurrentVersion) = false)
    by (unfold kCurrentVersion; apply Z.ltb_ge; lia).
  rewrite Hlt. change (4 <? kCurrentVersion) with false. split; [reflexivity|].
  assert (Htotal : forall es lg u t,
    0 <= t -> t + Z.of_nat (length es) < 2 ^ 31 ->
    (fold_left load_entry es (lg, u, t)).2 = t + Z.of_nat (length es)).
  { clear. induction es as [|e es IH]; intros lg u t H0 Ht.
    - cbn. lia.
    - cbn [fold_left load_entry length] in *. rewrite IH.
      + rewrite wrap_int32_id by (unfold is_int; lia). lia.
      + rewrite wrap_int32_id by (unfold is_int; lia). lia.
      + rewrite wrap_int32_id by (unfold is_int; lia). lia. }
  destruct (fold_left load_entry es (log_ bl, 0, 0)) as [[lg u] t] eqn:Hfold.
  eexists. split; [reflexivity|]. cbn [needs_recompaction_]. intros Hn Hlen.
  specialize (Htotal es (log_ bl) 0 0). rewrite Hfold in Htotal. cbn [snd] in Htotal.
  rewrite Htotal by lia. rewrite Hn.
  destruct (Z.gtb_spec (0 + Z.of_nat (length es)) 100); [lia|reflexivity].
Qed.

Lemma Load_later_version_witness :
  let e := {| output := lit "foo.o"; command := lit "cc -c foo.c"; start_time := 1;
              end_time := 2; restat_mtime := 3 |} in
  let w := one_file (lit "log") (kFileSignature 5 ++ concat (map (entry_line TAB) [e])) in
  let w4 := one_file (lit "log") (kFileSignature 4 ++ concat (map (entry_line TAB) [e])) in
  Load BuildLog_new w (lit "log") 0 zero_memory
  = Load BuildLog_new w4 (lit "log") 0 zero_memory /\
  exists bl', Load BuildLog_new w (lit "log") 0 zero_memory = Returns true None bl' /\
              (needs_recompaction_ BuildLog_new = false ->
               Z.of_nat (length [e]) <= 100 -> needs_recompaction_ bl' = false).
Proof.
  cbv zeta. apply (Load_later_version BuildLog_new) with (v := 5).
  - reflexivity.
  - lia.
  - apply not_elem_of_empty.
  - apply not_elem_of_empty.
  - apply lookup_singleton_eq.
  - apply lookup_singleton_eq.
  - concrete_entries.
Defined.


(** ** [Load]: a line with fewer than four separators *)

(** The scans for the separator do not stop at the end of the line.
    When the fourth separator after [line_start] lies beyond [line_end],
    the command is built from a negative length. *)
Lemma Load_process_line_throws buf m file ls le be v unique total log f1 f2 f3 out tail :
  let sep := field_separator v in
  v <> 0 ->
  holds m ls (f1 ++ sep :: f2 ++ sep :: f3 ++ sep :: out ++ sep :: tail) ->
  buf <= ls ->
  ls + Z.of_nat (length f1) + Z.of_nat (length f2) + Z.of_nat (length f3)
  + Z.of_nat (length out) + 4 <= buf + sizeof_buf ->
  sep ∉ f1 -> NUL ∉ f1 -> sep ∉ f2 -> NUL ∉ f2 -> sep ∉ f3 -> NUL ∉ f3 ->
  sep ∉ out -> NUL ∉ out ->
  le < ls + Z.of_nat (length f1) + Z.of_nat (length f2) + Z.of_nat (length f3)
       + Z.of_nat (length out) + 4 ->
  Load_process_line buf (mkLoadState m file ls (Some le) be v unique total log) = Throws.
Proof.
  intros sep Hv Hh Hbuf Hend Hs1 Hn1 Hs2 Hn2 Hs3 Hn3 Hs4 Hn4 Hle.
  unfold Load_process_line.
  destruct (Z.eqb_spec v 0) as [|_]; [contradiction|].
  fold (field_separator v). fold sep.
  destruct (scan_field (scan_fuel buf ls) m ls sep f1 _ Hh Hs1 Hn1) as (E1 & C1 & H1).
  { unfold scan_fuel. lia. }
  rewrite E1, C1. set (m1 := store m _ NUL) in *.
  set (s2 := ls + Z.of_nat (length f1) + 1) in *.
  destruct (scan_field (scan_fuel buf s2) m1 s2 sep f2 _ H1 Hs2 Hn2) as (E2 & C2 & H2).
  { unfold scan_fuel, s2. lia. }
  rewrite E2, C2. set (m2 := store m1 _ NUL) in *.
  set (s3 := s2 + Z.of_nat (length f2) + 1) in *.
  destruct (scan_field (scan_fuel buf s3) m2 s3 sep f3 _ H2 Hs3 Hn3) as (E3 & C3 & H3).
  { unfold scan_fuel, s3, s2. lia. }
  rewrite E3, C3. set (m3 := store m2 _ NUL) in *.
  set (s4 := s3 + Z.of_nat (length f3) + 1) in *.
  rewrite (strchr_holds (scan_fuel buf s4) m3 s4 sep out _ H3 Hs4 Hn4)
    by (unfold scan_fuel, s4, s3, s2; lia).
  assert (Hneg : (le - (s4 + Z.of_nat (length out) + 1) <? 0) = true)
    by (apply Z.ltb_lt; unfold s4, s3, s2; lia).
  destruct (log !! _); rewrite Hneg; reflexivity.
Qed.

Lemma Load_step_file_nil buf st :
  file st = [] \/ (line_end st = None /\ Z.of_nat (length (file st)) <= sizeof_buf) ->
  match Load_step buf st with
  | Continue st' => file st' = []
  | _ => True
  end.
Proof.
  destruct st as [m f ls le be v u t lg]. cbn [file line_end]. intros Hf.
  assert (Hpl : forall m1 ls1 le1 be1,
    match Load_process_line buf (mkLoadState m1 [] ls1 le1 be1 v u t lg) with
    | Continue st' => file st' = []
    | _ => True
    end).
  { intros m1 ls1 le1 be1.
    destruct (Load_process_line buf _) as [st'|st'| |] eqn:E; try exact I.
    apply Load_process_line_frame in E. now destruct E as [-> _]. }
  unfold Load_step.
  destruct ((ls >=? be) || negb (bool_decide (is_Some le))) eqn:Htop.
  - assert (Hall : drop (Z.to_nat sizeof_buf) f = []).
    { destruct Hf as [->|[_ Hlen]]; [apply drop_nil|]. apply drop_ge. lia. }
    unfold fread at 1. rewrite Hall.
    destruct (_ =? 0); [exact I|].
    destruct (memchrSSE2 _ buf 10 _) as [[m2 [p|]]|]; [apply Hpl| |exact I].
    cbv zeta. unfold fread. rewrite drop_nil.
    destruct (memchrSSE2 _ buf 10 _) as [[m4 r]|]; [apply Hpl|exact I].
  - assert (Hnil : f = []).
    { destruct Hf as [H|[-> _]]; [assumption|].
      rewrite bool_decide_eq_false_2 in Htop by (intros [? ?]; discriminate).
      now rewrite orb_true_r in Htop. }
    subst f.
    destruct (memchrSSE2 m _ 10 _) as [[m2 [p|]]|]; [apply Hpl| |exact I].
    cbv zeta. unfold fread. rewrite drop_nil.
    destruct (memchrSSE2 _ buf 10 _) as [[m4 r]|]; [apply Hpl|exact I].
Qed.

(** X23.  [Load] does not survive a line with fewer than four
    separators that is followed by text with enough of them.  For a log
    that fits the buffer, with a signature and then a line of at least
    15 bytes: when the fourth separator after the start of that line lies
    beyond its end (the four fields before it are free of NUL bytes, but
    may run over line ends), the scans for the separator run on into the
    following lines, the command is built from a negative length, and
    [Load] throws instead of returning. *)
Theorem Load_short_line_throws bl w path buf m v line rest f1 f2 f3 out tail :
  let sep := field_separator v in
  let text := f1 ++ sep :: f2 ++ sep :: f3 ++ sep :: out ++ sep :: tail in
  Z.land buf 15 = 0 -> 1 <= v < 2 ^ 31 -> path ∉ denied w ->
  files w !! path = Some (kFileSignature v ++ text) ->
  Z.of_nat (length (kFileSignature v ++ text)) <= sizeof_buf ->
  text = line ++ NL :: rest -> NL ∉ line -> (15 <= length line)%nat ->
  (length line < length f1 + length f2 + length f3 + length out + 4)%nat ->
  sep ∉ f1 -> NUL ∉ f1 -> sep ∉ f2 -> NUL ∉ f2 -> sep ∉ f3 -> NUL ∉ f3 ->
  sep ∉ out -> NUL ∉ out ->
  Load bl w path buf m = Aborts.
Proof.
  intros sep text Hal Hv Hden Hfile Hsize Htext Hnl Hlong Hshort
         Hs1 Hn1 Hs2 Hn2 Hs3 Hn3 Hs4 Hn4.
  unfold Load, fopen_r. rewrite decide_False by assumption. rewrite Hfile.
  set (content := kFileSignature v ++ text) in *.
  set (st0 := {| mem := m; file := content; line_start := buf; line_end := None;
                 buf_end := buf; log_version := 0; unique_entry_count := 0;
                 total_entry_count := 0; log := log_ bl |}).
  set (body := lit "# ninja log v" ++ fmt_d v).
  assert (Hsig : kFileSignature v = body ++ [NL]) by reflexivity.
  assert (Hbnl : NL ∉ body).
  { unfold body. intros Hin. apply elem_of_app in Hin. destruct Hin as [Hin|Hin].
    - revert Hin. not_in_literal.
    - revert Hin. apply dec_chars_not_in; [reflexivity|discriminate|apply fmt_d_chars]. }
  assert (Hint : is_int v) by (unfold is_int; lia).
  assert (Hbl : (length body <= 46)%nat).
  { unfold body. rewrite length_app. pose proof (fmt_d_length v Hint).
    cbn [lit length list_ascii_of_string]. lia. }
  pose proof sizeof_buf_val as Hsz.
  destruct (Load_step_get_line buf st0 body text)
    as (m1 & fl1 & ls & be & Hstep & Hh & Hb1 & Hb2 & Hrest & Hls); try assumption.
  { exact I. }
  { unfold pending, st0. cbn [line_end file]. unfold content.
    rewrite Hsig, <- app_assoc. reflexivity. }
  { lia. } { now left. }
  specialize (Hls eq_refl). subst ls.
  cbn [log_version unique_entry_count total_entry_count log st0] in Hstep.
  rewrite <- Hsig in Hh.
  rewrite (Load_process_signature buf m1 fl1 _ be 0 0 (log_ bl) v [])
    in Hstep; try assumption; [|now rewrite app_nil_r|rewrite Hsig, length_app; cbn [length]; lia].
  pose proof (Load_step_file_nil buf st0) as Hnil. rewrite Hstep in Hnil. cbn [file] in Hnil.
  rewrite Hnil in Hrest, Hstep by (right; split; [reflexivity|exact Hsize]).
  clear Hnil. rewrite app_nil_r in Hrest.
  set (a1 := buf + Z.of_nat (length body) + 1) in *.
  assert (Hlen : Z.of_nat (length text) = be - a1).
  { rewrite <- Hrest, load_bytes_length. lia. }
  assert (Hheld : holds m1 a1 text).
  { unfold holds. rewrite <- Hrest at 2. f_equal. lia. }
  assert (Hfuel : (2 * length content + 3 = S (S (2 * length content + 1)))%nat) by lia.
  rewrite Hfuel, (Load_loop_more _ _ _ _ Hstep). cbn [Load_loop].
  assert (Hstep2 : Load_step buf
             {| mem := m1; file := []; line_start := buf;
                line_end := Some (buf + Z.of_nat (length body)); buf_end := be;
                log_version := v; unique_entry_count := 0; total_entry_count := 0;
                log := log_ bl |} = Throws).
  { unfold Load_step.
    destruct (Z.geb_spec buf be) as [|_]; [lia|].
    rewrite bool_decide_eq_true_2 by eauto. cbn [orb negb default]. unfold id.
    fold a1.
    rewrite (scan_line m1 a1 line rest); try assumption.
    - assert (Htl : (length f1 + length f2 + length f3 + length out + 4
                     <= length text)%nat).
      { unfold text. repeat (rewrite length_app || cbn [length]). lia. }
      apply (Load_process_line_throws buf m1 [] a1 (a1 + Z.of_nat (length line)) be v 0 0
               (log_ bl) f1 f2 f3 out tail); try assumption; try lia.
    - now rewrite <- Htext.
    - now right.
    - rewrite <- Htext. lia. }
  rewrite Hstep2. reflexivity.
Qed.

Lemma Load_short_line_throws_witness :
  let content :=
    kFileSignature 4
    ++ lit "# a line of comment" ++ NL :: lit "1" ++ TAB :: lit "2" ++ TAB :: lit "3"
    ++ TAB :: lit "out" ++ TAB :: lit "cat in > out" ++ [NL] in
  Load BuildLog_new (one_file (lit "log") content) (lit "log") 0 zero_memory = Aborts.
Proof.
  cbv zeta.
  apply (Load_short_line_throws BuildLog_new _ _ 0 zero_memory 4
           (lit "# a line of comment")
           (lit "1" ++ TAB :: lit "2" ++ TAB :: lit "3" ++ TAB :: lit "out" ++ TAB
            :: lit "cat in > out" ++ [NL])
           (lit "# a line of comment" ++ NL :: lit "1") (lit "2") (lit "3") (lit "out")
           (lit "cat in > out" ++ [NL]));
    try reflexivity; try concrete_not_in; try (cbn; lia).
  - apply not_elem_of_empty.
  - vm_compute. discriminate.
Defined.


(** ** [Load]: a last line without its newline *)

(** What is left of the file holds no newline: the iteration reads it,
    finds no line and records nothing. *)
Lemma Load_step_partial buf st le partial :
  wf_state buf st -> line_end st = Some le -> pending st = partial -> NL ∉ partial ->
  Z.of_nat (length partial) <= sizeof_buf -> log_version st <> 0 ->
  exists m' be',
    Load_step buf st =
    Continue (mkLoadState m' [] buf None be' (log_version st) (unique_entry_count st)
                          (total_entry_count st) (log st)).
Proof.
  destruct st as [m f ls0 le0 be0 v u t lg].
  unfold wf_state, pending.
  cbn [line_end mem file buf_end line_start log_version unique_entry_count
       total_entry_count log].
  intros Hwf Hle Hp Hnl Hlen Hv. subst le0. destruct Hwf as [[Hw1 Hw2] [Hw3 Hw4]].
  set (D := load_bytes m (le + 1) (Z.to_nat (be0 - (le + 1)))) in *.
  assert (HD : holds m (le + 1) D) by apply holds_load.
  assert (HDl : Z.of_nat (length D) = be0 - (le + 1))
    by (unfold D; rewrite load_bytes_length; lia).
  assert (HnD : NL ∉ D) by (intros Hin; apply Hnl; rewrite <- Hp; apply elem_of_app; now left).
  assert (Hnf : NL ∉ f) by (intros Hin; apply Hnl; rewrite <- Hp; apply elem_of_app; now right).
  assert (Hpl : Z.of_nat (length D) + Z.of_nat (length f) <= sizeof_buf).
  { rewrite <- Hp, length_app in Hlen. lia. }
  unfold Load_step.
  destruct (Z.geb_spec ls0 be0) as [|_]; [lia|].
  rewrite bool_decide_eq_true_2 by eauto. cbn [orb negb default]. unfold id.
  rewrite <- HDl, (scan_partial m (le + 1) D) by assumption.
  cbv zeta.
  replace (be0 - buf - (le + 1 - buf)) with (Z.of_nat (length D)) by lia.
  unfold memmove. rewrite Nat2Z.id, (holds_load_exact _ _ _ HD).
  unfold fread. rewrite take_ge, drop_ge by lia.
  set (m2 := store_bytes (store_bytes m buf D) (buf + Z.of_nat (length D)) f).
  assert (H2 : holds m2 buf (D ++ f)).
  { apply holds_app. split.
    - apply holds_store_bytes_out; [lia|apply holds_store_bytes].
    - apply holds_store_bytes. }
  replace (buf + Z.of_nat (length D) + Z.of_nat (length f) - buf)
    with (Z.of_nat (length (D ++ f))) by (rewrite length_app; lia).
  rewrite (scan_partial m2 buf (D ++ f)) by (assumption || (rewrite Hp; assumption)).
  destruct (Load_process_no_line buf m2 [] buf
              (buf + Z.of_nat (length D) + Z.of_nat (length f)) v u t lg Hv) as [m' Hm'].
  rewrite Hm'. eauto.
Qed.

(** One record at the head of what is pending. *)
Lemma Load_step_entry buf v st e rest :
  Z.land buf 15 = 0 -> v <> 0 -> log_version st = v -> wf_state buf st ->
  is_Some (line_end st) ->
  pending st = entry_line (field_separator v) e ++ rest ->
  loadable (field_separator v) e ->
  exists st',
    Load_step buf st = Continue st' /\ log_version st' = v /\ wf_state buf st' /\
    is_Some (line_end st') /\ pending st' = rest /\
    (log st', unique_entry_count st', total_entry_count st')
    = load_entry (log st, unique_entry_count st, total_entry_count st) e.
Proof.
  pose proof (sep_cases v) as Hsep. cbv zeta in Hsep.
  set (sep := field_separator v) in *. destruct Hsep as (HsNL & Hsd & Hsm & HsNUL).
  intros Hal Hv Hver Hwf Hsome Hpend He.
  destruct He as (Hi1 & Hi2 & Hi3 & Ho1 & Ho2 & Ho3 & Hc & Hlen).
  set (f1 := fmt_d (start_time e)) in *. set (f2 := fmt_d (end_time e)) in *.
  set (f3 := fmt_d (restat_mtime e)) in *.
  set (body := f1 ++ sep :: f2 ++ sep :: f3 ++ sep :: output e ++ sep :: command e).
  assert (Hline : entry_line sep e = body ++ [NL]).
  { unfold entry_line, record_line, body. fold f1 f2 f3.
    repeat (rewrite <- app_assoc; cbn [app]). reflexivity. }
  assert (Hf : forall x z, isdigit x = false -> x <> "-"%char -> x ∉ fmt_d z).
  { intros x z H1 H2. apply dec_chars_not_in; auto using fmt_d_chars. }
  assert (Hnl : NL ∉ body).
  { unfold body. intros Hin.
    repeat (apply elem_of_app in Hin; destruct Hin as [Hin|Hin];
            [|apply elem_of_cons in Hin; destruct Hin as [Hin|Hin]; [congruence|]]);
      try contradiction; try (revert Hin; apply Hf; [reflexivity|discriminate]). }
  assert (Hbl : Z.of_nat (length (entry_line sep e)) = Z.of_nat (length body) + 1).
  { rewrite Hline, length_app. cbn [length]. lia. }
  rewrite Hline, <- app_assoc in Hpend. cbn [app] in Hpend.
  destruct (Load_step_get_line buf st body _ Hal Hwf Hpend Hnl)
    as (m1 & fl1 & ls & be & Hstep & Hh & Hb1 & Hb2 & Hrest & _); [lia|right; lia|].
  rewrite <- Hline in Hh.
  assert (Hrl : record_line (field_separator v) f1 f2 f3 (output e) (command e)
                = entry_line sep e) by reflexivity.
  destruct (Load_process_record buf m1 fl1 ls be v (unique_entry_count st)
              (total_entry_count st) (log st) f1 f2 f3 (output e) (command e))
    as (m' & Hproc & Hsame); try assumption;
    try (apply Hf; assumption).
  { rewrite Hrl. lia. }
  { apply Hf; [reflexivity|discriminate]. }
  { apply Hf; [reflexivity|discriminate]. }
  { apply Hf; [reflexivity|discriminate]. }
  rewrite Hrl in Hproc, Hsame.
  replace (ls + Z.of_nat (length (entry_line sep e)) - 1)
    with (ls + Z.of_nat (length body)) in Hproc, Hsame by lia.
  rewrite Hver in Hstep. rewrite Hproc in Hstep.
  eexists. split; [exact Hstep|]. cbn [log_version line_end log unique_entry_count
                                       total_entry_count].
  split; [reflexivity|]. split.
  { unfold wf_state. cbn [line_end line_start buf_end]. lia. }
  split; [eauto|]. split.
  - unfold pending. cbn [line_end mem buf_end file]. rewrite <- Hrest.
    f_equal. apply load_bytes_ext. intros i Hi. apply Hsame. lia.
  - unfold load_entry. unfold f1, f2, f3.
    rewrite !atoi_fmt_d, atol_fmt_d by assumption. reflexivity.
Qed.

Lemma Load_loop_entries_partial buf v partial es : forall st fuel,
  Z.land buf 15 = 0 -> v <> 0 -> log_version st = v -> wf_state buf st ->
  is_Some (line_end st) ->
  pending st = concat (map (entry_line (field_separator v)) es) ++ partial ->
  Forall (loadable (field_separator v)) es ->
  NL ∉ partial -> Z.of_nat (length partial) <= sizeof_buf ->
  (length es + 2 <= fuel)%nat ->
  exists st',
    Load_loop fuel buf st = Break st' /\ log_version st' = v /\
    (log st', unique_entry_count st', total_entry_count st')
    = fold_left load_entry es (log st, unique_entry_count st, total_entry_count st).
Proof.
  induction es as [|e es IH]; intros st fuel Hal Hv Hver Hwf Hsome Hpend Hall Hnl Hlen Hfuel.
  - cbn [map concat app] in Hpend. cbn [fold_left]. destruct Hsome as [le Hle].
    destruct (Load_step_partial buf st le partial Hwf Hle Hpend Hnl Hlen) as (m' & be' & Hstep);
      [congruence|].
    destruct fuel as [|[|fuel]]; [cbn in Hfuel; lia|cbn in Hfuel; lia|].
    rewrite (Load_loop_more _ _ _ _ Hstep). cbn [Load_loop].
    rewrite Load_step_eof by reflexivity.
    eexists. split; [reflexivity|]. cbn. split; [assumption|reflexivity].
  - cbn [map concat] in Hpend. rewrite <- app_assoc in Hpend.
    apply Forall_cons in Hall. destruct Hall as [He Hall].
    destruct (Load_step_entry buf v st e _ Hal Hv Hver Hwf Hsome Hpend He)
      as (st2 & Hstep & Hv2 & Hwf2 & Hsome2 & Hpend2 & Hres2).
    destruct fuel as [|fuel]; [cbn in Hfuel; lia|].
    rewrite (Load_loop_more _ _ _ _ Hstep).
    destruct (IH st2 fuel) as (st' & Hloop & Hv' & Hres); try assumption.
    + cbn [length] in Hfuel. lia.
    + exists st'. split; [assumption|]. split; [assumption|].
      rewrite Hres. cbn [fold_left]. now rewrite Hres2.
Qed.

(** X24.  A last line that lacks its newline is not recorded: [Load] of
    a log that ends in such a line, for instance after a write that was
    cut short, gives what [Load] of the log without that line gives. *)
Theorem Load_ignores_unterminated_line bl w w' path buf m v es partial :
  Z.land buf 15 = 0 -> 1 <= v < 2 ^ 31 -> path ∉ denied w -> path ∉ denied w' ->
  files w !! path
  = Some (kFileSignature v ++ concat (map (entry_line (field_separator v)) es) ++ partial) ->
  files w' !! path
  = Some (kFileSignature v ++ concat (map (entry_line (field_separator v)) es)) ->
  Forall (loadable (field_separator v)) es ->
  NL ∉ partial -> Z.of_nat (length partial) <= sizeof_buf ->
  Load bl w path buf m = Load bl w' path buf m /\
  exists bl', Load bl w path buf m = Returns true None bl'.
Proof.
  intros Hal Hv Hden Hden' Hfile Hfile' Hall Hnl Hlen.
  assert (Hint : is_int v) by (unfold is_int; lia).
  assert (Hv0 : v <> 0) by lia.
  rewrite (Load_wellformed bl w' path buf m v es) by assumption.
  unfold Load, fopen_r. rewrite decide_False by assumption. rewrite Hfile.
  set (content := kFileSignature v ++ _).
  set (st0 := {| mem := m; file := content; line_start := buf; line_end := None;
                 buf_end := buf; log_version := 0; unique_entry_count := 0;
                 total_entry_count := 0; log := log_ bl |}).
  set (body := lit "# ninja log v" ++ fmt_d v).
  assert (Hsig : kFileSignature v = body ++ [NL]) by reflexivity.
  assert (Hbnl : NL ∉ body).
  { unfold body. intros Hin. apply elem_of_app in Hin. destruct Hin as [Hin|Hin].
    - revert Hin. not_in_literal.
    - revert Hin. apply dec_chars_not_in; [reflexivity|discriminate|apply fmt_d_chars]. }
  assert (Hbl : (length body <= 46)%nat).
  { unfold body. rewrite length_app. pose proof (fmt_d_length v Hint).
    cbn [lit length list_ascii_of_string]. lia. }
  pose proof sizeof_buf_val as Hsz.
  destruct (Load_step_get_line buf st0 body
              (concat (map (entry_line (field_separator v)) es) ++ partial))
    as (m1 & f1 & ls & be & Hstep & Hh & Hb1 & Hb2 & Hrest & Hls); try assumption.
  { exact I. }
  { unfold pending, st0. cbn [line_end file]. unfold content.
    rewrite Hsig, <- app_assoc. reflexivity. }
  { lia. } { now left. }
  specialize (Hls eq_refl). subst ls.
  cbn [log_version unique_entry_count total_entry_count log st0] in Hstep.
  rewrite <- Hsig in Hh.
  rewrite (Load_process_signature buf m1 f1 _ be 0 0 (log_ bl) v [])
    in Hstep; try assumption; [|now rewrite app_nil_r|rewrite Hsig, length_app; cbn [length]; lia].
  pose proof (concat_lines_length (field_separator v) es) as Hcl.
  assert (Hfuel : (2 * length content + 3 = S (2 * length content + 2))%nat) by lia.
  rewrite Hfuel, (Load_loop_more _ _ _ _ Hstep).
  match goal with |- context [Load_loop _ buf ?s] => set (st1 := s) end.
  destruct (Load_loop_entries_partial buf v partial es st1 (2 * length content + 2))
    as (st' & Hloop & Hv' & Hres); try assumption.
  - reflexivity.
  - unfold wf_state, st1. cbn [line_end line_start buf_end]. lia.
  - unfold st1. cbn [line_end]. eauto.
  - unfold content. rewrite !length_app. lia.
  - rewrite Hloop. unfold st1 in Hres.
    cbn [log unique_entry_count total_entry_count] in Hres.
    destruct (fold_left load_entry es (log_ bl, 0, 0)) as [[lg u] t].
    injection Hres as -> -> ->. rewrite Hv'. split; [reflexivity|]. eauto.
Qed.

Lemma Load_ignores_unterminated_line_witness :
  let e := {| output := lit "foo.o"; command := lit "cc -c foo.c"; start_time := 1;
              end_time := 2; restat_mtime := 3 |} in
  let lines := concat (map (entry_line (field_separator 4)) [e]) in
  let w := one_file (lit "log") (kFileSignature 4 ++ lines ++ lit "4" ++ TAB :: lit "5") in
  let w' := one_file (lit "log") (kFileSignature 4 ++ lines) in
  Load BuildLog_new w (lit "log") 0 zero_memory
  = Load BuildLog_new w' (lit "log") 0 zero_memory /\
  exists bl', Load BuildLog_new w (lit "log") 0 zero_memory = Returns true None bl'.
Proof.
  cbv zeta.
  apply (Load_ignores_unterminated_line BuildLog_new _ _ _ 0 zero_memory 4
           [ {| output := lit "foo.o"; command := lit "cc -c foo.c"; start_time := 1;
                end_time := 2; restat_mtime := 3 |} ] (lit "4" ++ TAB :: lit "5")).
  - reflexivity.
  - lia.
  - apply not_elem_of_empty.
  - apply not_elem_of_empty.
  - apply lookup_singleton_eq.
  - apply lookup_singleton_eq.
  - concrete_entries.
  - concrete_not_in.
  - vm_compute. discriminate.
Defined.


(** ** The option loop of [main] *)

Lemma main_options_app WIN32 pre : forall o o' rest,
  main_options WIN32 o pre = OptNext o' ->
  main_options WIN32 o (pre ++ rest) = main_options WIN32 o' rest.
Proof.
  induction pre as [|[opt optarg] pre IH]; intros o o' rest H.
  - cbn in H. injection H as <-. reflexivity.
  - cbn [main_options app] in *.
    destruct (main_option WIN32 o opt optarg) as [o1| |]; try discriminate.
    now apply IH.
Qed.



(** X26.  A [-f] whose argument is neither "gcc" nor "cl" ends [main]
    with the fatal error "unknown input format" naming the argument,
    before any input is read; nothing is printed or written. *)
Theorem main_unknown_format WIN32 ReadInput RunCommand DepfileParser_Parse
    ShowIncludes_Filter IncludesNormalize_Normalize pre format post operands o :
  main_options WIN32 Options_init pre = OptNext o ->
  format <> lit "gcc" -> format <> lit "cl" ->
  main WIN32 ReadInput RunCommand DepfileParser_Parse ShowIncludes_Filter
       IncludesNormalize_Normalize (pre ++ ("f"%char, format) :: post) operands
  = ([], Fatal (lit "unknown input format '" ++ format ++ lit "'")).
Proof.
  intros Hpre Hgcc Hcl. unfold main.
  rewrite (main_options_app WIN32 pre _ _ _ Hpre). cbn [main_options].
  unfold main_option. cbn [Ascii.eqb Bool.eqb].
  rewrite !decide_False by assumption. reflexivity.
Qed.

Lemma main_unknown_format_witness :
  main false (fun _ => inr (lit "foo.o: foo.c")) (fun _ => inl [])
       (fun _ => Some [lit "foo.c"]) (fun content => ([], [])) (fun i _ => i)
       ([("o"%char, lit "foo.o")] ++ ("f"%char, lit "msvc") :: []) [lit "foo.d"]
  = ([], Fatal (lit "unknown input format '" ++ lit "msvc" ++ lit "'")).
Proof.
  apply (main_unknown_format false) with
    (o := mkOptions (Some (lit "foo.o")) None None INPUT_DEPFILE false false);
    [reflexivity|discriminate|discriminate].
Defined.

Lemma main_options_run_command opts : forall o o',
  main_options false o opts = OptNext o' -> run_command o' = run_command o.
Proof.
  induction opts as [|[opt optarg] opts IH]; intros o o' H.
  - cbn in H. now injection H as <-.
  - cbn [main_options] in H.
    destruct (main_option false o opt optarg) as [o1| |] eqn:Ho; try discriminate.
    rewrite (IH _ _ H). unfold main_option in Ho. cbn [andb] in Ho.
    repeat match type of Ho with
           | (if ?c then _ else _) = _ => destruct c
           end; try discriminate; now injection Ho as <-.
Qed.

(** X27.  Built without [_WIN32], [main] never takes the [run_command]
    branch: its result does not depend on what running a command would
    give, and when it returns rather than ending in a fatal error, it
    returns 0. *)
Theorem main_without_command ReadInput RunCommand RunCommand' DepfileParser_Parse
    ShowIncludes_Filter IncludesNormalize_Normalize opts operands :
  main false ReadInput RunCommand DepfileParser_Parse ShowIncludes_Filter
       IncludesNormalize_Normalize opts operands
  = main false ReadInput RunCommand' DepfileParser_Parse ShowIncludes_Filter
         IncludesNormalize_Normalize opts operands /\
  forall code,
    (main false ReadInput RunCommand DepfileParser_Parse ShowIncludes_Filter
          IncludesNormalize_Normalize opts operands).2 = Return code -> code = 0.
Proof.
  unfold main.
  destruct (main_options false Options_init opts) as [o| |] eqn:Hopts.
  - apply main_options_run_command in Hopts. cbn [Options_init run_command] in Hopts.
    unfold main_input. rewrite Hopts.
    destruct (ReadInput (head operands)) as [msg|content];
      [split; [reflexivity|discriminate]|].
    destruct (input_format o).
    + destruct (DepfileParser_Parse content) as [ins|];
        [|split; [reflexivity|discriminate]].
      unfold main_output, db_filename. destruct (output_filename o).
      * split; [reflexivity|]. cbn. intros code H. now injection H as <-.
      * split; [reflexivity|discriminate].
    + destruct (ShowIncludes_Filter _) as [text includes].
      unfold main_output, db_filename. destruct (output_filename o).
      * split; [reflexivity|]. cbn. intros code H. now injection H as <-.
      * split; [reflexivity|discriminate].
  - split; [reflexivity|]. cbn. intros code H. now injection H as <-.
  - split; [reflexivity|discriminate].
Qed.

(** ** The [if (quiet)] block of [main] *)

Lemma starts_with_app needle : forall s,
  starts_with needle s = true <-> exists rest, s = needle ++ rest.
Proof.
  induction needle as [|n needle IH]; intros s.
  - cbn. split; eauto.
  - destruct s as [|c s]; cbn [starts_with].
    + split; [discriminate|]. intros [rest H]. discriminate.
    + rewrite andb_true_iff, ascii_eqb_true, IH. split.
      * intros [-> [rest ->]]. eauto.
      * intros [rest H]. injection H as -> ->. eauto.
Qed.

Lemma find_from_Some needle : forall s pos i,
  find_from needle s pos = Some i ->
  exists pre rest, s = pre ++ needle ++ rest /\ i = (pos + length pre)%nat.
Proof.
  induction s as [|c s IH]; intros pos i H; cbn [find_from] in H.
  - destruct (starts_with needle []) eqn:E; [|discriminate]. injection H as <-.
    apply starts_with_app in E. destruct E as [rest E]. exists [], rest. cbn. split; [assumption|lia].
  - destruct (starts_with needle (c :: s)) eqn:E.
    + injection H as <-. apply starts_with_app in E. destruct E as [rest E].
      exists [], rest. cbn. split; [assumption|lia].
    + apply IH in H. destruct H as (pre & rest & -> & ->).
      exists (c :: pre), rest. cbn [app length]. split; [reflexivity|lia].
Qed.

Lemma find_from_None needle : forall s pos,
  find_from needle s pos = None -> forall pre rest, s <> pre ++ needle ++ rest.
Proof.
  induction s as [|c s IH]; intros pos H pre rest Heq; cbn [find_from] in H.
  - destruct (starts_with needle []) eqn:E; [discriminate|].
    symmetry in Heq. apply app_eq_nil in Heq. destruct Heq as [-> Heq].
    assert (Hs : starts_with needle [] = true) by (apply starts_with_app; exists rest; now rewrite Heq).
    congruence.
  - destruct (starts_with needle (c :: s)) eqn:E; [discriminate|].
    destruct pre as [|p pre].
    + assert (Hs : starts_with needle (c :: s) = true)
        by (apply starts_with_app; exists rest; exact Heq).
      congruence.
    + injection Heq as -> Heq. exact (IH _ H pre rest Heq).
Qed.

Lemma find_from_char c rest : forall body pos,
  c ∉ body -> find_from [c] (body ++ c :: rest) pos = Some (pos + length body)%nat.
Proof.
  induction body as [|b body IH]; intros pos Hc.
  - cbn. rewrite (proj2 (ascii_eqb_true c c) eq_refl). cbn. f_equal. lia.
  - apply not_elem_of_cons in Hc. destruct Hc as [Hne Hc].
    cbn [app find_from starts_with].
    rewrite (proj2 (ascii_eqb_false c b)) by assumption. cbn [andb].
    rewrite IH by assumption. cbn [length]. f_equal. lia.
Qed.

Lemma strip_at content body a :
  NL ∉ body -> find content (body ++ [NL]) 0 = Some a ->
  exists pre rest,
    content = pre ++ (body ++ [NL]) ++ rest /\
    match find content [NL] a with
    | Some i => drop (i + 1) content
    | None => content
    end = rest.
Proof.
  intros Hnl H. unfold find in *. rewrite drop_0 in H.
  apply find_from_Some in H. destruct H as (pre & rest & -> & ->).
  exists pre, rest. split; [reflexivity|]. cbn [Nat.add].
  rewrite drop_app_length, <- app_assoc. cbn [app].
  rewrite find_from_char by assumption.
  replace (length pre + length body + 1)%nat with (length (pre ++ body ++ [NL]))
    by (rewrite !length_app; cbn [length]; lia).
  replace (pre ++ body ++ NL :: rest) with ((pre ++ body ++ [NL]) ++ rest)
    by (rewrite <- !app_assoc; reflexivity).
  apply drop_app_length.
Qed.

(** X28.  The [if (quiet)] block either leaves the content as it is,
    when none of the eight line ends ".c", ".cc", ".cxx", ".cpp" followed
    by "\r\n" or "\n" occurs in it, or drops everything up to and
    including an occurrence of one of them; what is dropped may be more
    than the first line. *)
Theorem strip_first_line_spec content :
  (strip_first_line content = content /\
   forall suffix pre rest, suffix ∈ source_line_ends -> content <> pre ++ suffix ++ rest)
  \/ exists suffix pre rest,
       suffix ∈ source_line_ends /\ content = pre ++ suffix ++ rest /\
       strip_first_line content = rest.
Proof.
  unfold strip_first_line. cbn [map].
  assert (Hhit : forall body a,
    body ++ [NL] ∈ source_line_ends -> NL ∉ body ->
    find content (body ++ [NL]) 0 = Some a ->
    exists suffix pre rest,
      suffix ∈ source_line_ends /\ content = pre ++ suffix ++ rest /\
      match find content [NL] a with
      | Some i => drop (i + 1) content
      | None => content
      end = rest).
  { intros body a Hin Hnl Hf. destruct (strip_at content body a Hnl Hf) as (pre & rest & H1 & H2).
    exists (body ++ [NL]), pre, rest. auto. }
  assert (Hin : forall s, s ∈ source_line_ends <->
    s = lit ".c" ++ [CR; NL] \/ s = lit ".cc" ++ [CR; NL] \/ s = lit ".cxx" ++ [CR; NL] \/
    s = lit ".cpp" ++ [CR; NL] \/ s = lit ".c" ++ [NL] \/ s = lit ".cc" ++ [NL] \/
    s = lit ".cxx" ++ [NL] \/ s = lit ".cpp" ++ [NL]).
  { intros s. unfold source_line_ends. rewrite !elem_of_cons, elem_of_nil. tauto. }
  destruct (find content (lit ".c" ++ [CR; NL]) 0) as [a|] eqn:E1;
    [right; apply (Hhit (lit ".c" ++ [CR]) a); [apply Hin; tauto|concrete_not_in|exact E1]|].
  destruct (find content (lit ".cc" ++ [CR; NL]) 0) as [a|] eqn:E2;
    [right; apply (Hhit (lit ".cc" ++ [CR]) a); [apply Hin; tauto|concrete_not_in|exact E2]|].
  destruct (find content (lit ".cxx" ++ [CR; NL]) 0) as [a|] eqn:E3;
    [right; apply (Hhit (lit ".cxx" ++ [CR]) a); [apply Hin; tauto|concrete_not_in|exact E3]|].
  destruct (find content (lit ".cpp" ++ [CR; NL]) 0) as [a|] eqn:E4;
    [right; apply (Hhit (lit ".cpp" ++ [CR]) a); [apply Hin; tauto|concrete_not_in|exact E4]|].
  destruct (find content (lit ".c" ++ [NL]) 0) as [a|] eqn:E5;
    [right; apply (Hhit (lit ".c") a); [apply Hin; tauto|concrete_not_in|exact E5]|].
  destruct (find content (lit ".cc" ++ [NL]) 0) as [a|] eqn:E6;
    [right; apply (Hhit (lit ".cc") a); [apply Hin; tauto|concrete_not_in|exact E6]|].
  destruct (find content (lit ".cxx" ++ [NL]) 0) as [a|] eqn:E7;
    [right; apply (Hhit (lit ".cxx") a); [apply Hin; tauto|concrete_not_in|exact E7]|].
  destruct (find content (lit ".cpp" ++ [NL]) 0) as [a|] eqn:E8;
    [right; apply (Hhit (lit ".cpp") a); [apply Hin; tauto|concrete_not_in|exact E8]|].
  left. split; [reflexivity|].
  intros suffix pre rest Hs. apply Hin in Hs. unfold find in *. rewrite drop_0 in *.
  destruct Hs as [->|[->|[->|[->|[->|[->|[->| ->]]]]]]]; eapply find_from_None; eassumption.
Qed.


(** ** The [TestEnv] of ninja_test.cc *)

(** X29.  [TestEnv::Evaluate] gives the value bound to the variable, or
    the empty string when there is none, and leaves the variable bound to
    what it gave: a second call gives the same value and changes nothing.
    No other variable is touched. *)
Theorem TestEnv_Evaluate_binds env var :
  let value := (TestEnv_Evaluate env var).1 in
  let env' := (TestEnv_Evaluate env var).2 in
  value = default [] (vars env !! var) /\
  vars env' !! var = Some value /\
  (forall other, other <> var -> vars env' !! other = vars env !! other) /\
  TestEnv_Evaluate env' var = (value, env').
Proof.
  unfold TestEnv_Evaluate. destruct (vars env !! var) as [value|] eqn:Hl; cbn [fst snd vars].
  - rewrite Hl. repeat split.
  - rewrite lookup_insert_eq. repeat split.
    intros other Hne. now rewrite lookup_insert_ne.
Qed.

